(** * mdlayher/atmodem: the response parsing engine

  A shallow embedding of the parsers of the [atmodem] package and the
  properties of its specification.

  - [src/valueparser.go]: [valueParser], [newValueParser], [Err], [Int],
    [String].  [Float64], which [Status.parse] calls, is not in that file
    and follows the specification;
  - [src/device.go]: [Info], [Device.Info] and the [parseInfo] that trims and
    converts the values by hand, in [Module Legacy];
  - [src/unnamed/part_001], the later of its two revisions of [device.go],
    the one that goes through [valueParser]: [Device.Info], [parseInfo],
    [Status], [statusState], [Device.Status], [parseStatus], [Status.parse];
  - [src/unnamed/part_001], the earlier of the two: [Status],
    [Device.Status], [parseStatus], [Status.parse], in [Module Earlier].

  Go strings are byte sequences and are modelled by [string]; white space
  is what [unicode.IsSpace] says of the runes that [utf8] decodes; [int] is the
  64-bit two's complement integer of the usual targets, a [Z] in range; an
  [error] of Go is a value of the inductive type [error], [nil] is [None];
  a function that returns a pointer and an error returns a sum here, a
  method that writes through its receiver returns the receiver after the
  call.  A slice is a list; where two slices share their array and one is
  written ([newValueParser] inside [Status.parse]) the write is made on
  both. *)

From Stdlib Require Import String Ascii List ZArith Lia Bool.
Import ListNotations.
Open Scope string_scope.
Open Scope list_scope.

(** ** The pieces of Go's standard library that the parsers call *)

(** The slices [s[i:]] and [s[:i]] of a string and its byte [s[i]], for
    indices within the string. *)
Fixpoint slice_from (i : nat) (s : string) : string :=
  match i, s with
  | S i', String _ r => slice_from i' r
  | _, _ => s
  end.

Fixpoint slice_to (i : nat) (s : string) : string :=
  match i, s with
  | S i', String c r => String c (slice_to i' r)
  | _, _ => EmptyString
  end.

Definition byteAt (s : string) (i : nat) : ascii :=
  match String.get i s with Some c => c | None => Ascii.zero end.

Module utf8.

Definition RuneError : N := 65533.
Definition RuneSelf : N := 128.
Definition UTFMax : nat := 4.

Definition byte (c : ascii) : N := N_of_ascii c.

(** [utf8.RuneStart(b)]: [b] is not a continuation byte, one of 0x80 to
    0xBF. *)
Definition RuneStart (c : ascii) : bool :=
  negb ((128 <=? byte c) && (byte c <=? 191))%N.

(** The range of the second byte after the first byte [s0], from the tables
    [first] and [acceptRanges]: 0xA0 to 0xBF after 0xE0, 0x80 to 0x9F after
    0xED, 0x90 to 0xBF after 0xF0, 0x80 to 0x8F after 0xF4, and 0x80 to 0xBF
    after the others. *)
Definition acceptLo (s0 : N) : N :=
  (if s0 =? 224 then 160 else if s0 =? 240 then 144 else 128)%N.

Definition acceptHi (s0 : N) : N :=
  (if s0 =? 237 then 159 else if s0 =? 244 then 143 else 191)%N.

Definition inRange (lo hi : N) (c : ascii) : bool :=
  ((lo <=? byte c) && (byte c <=? hi))%N.

(** [utf8.DecodeRuneInString(s)]: the first rune of [s] and its width in
    bytes.  A first byte below 0x80 is the rune; 0x80 to 0xC1 and 0xF5 to
    0xFF start no rune; 0xC2 to 0xDF start two bytes, 0xE0 to 0xEF three,
    0xF0 to 0xF4 four.  An encoding that is cut short or has a byte out of
    its range gives [RuneError] and the width 1 (the library tests the
    length before the bytes, with that same result either way). *)
Definition DecodeRuneInString (s : string) : N * nat :=
  match s with
  | EmptyString => (RuneError, 0)
  | String c0 r =>
      let s0 := byte c0 in
      if (s0 <? RuneSelf)%N then (s0, 1)
      else if ((s0 <? 194) || (244 <? s0))%N then (RuneError, 1)
      else
        match r with
        | EmptyString => (RuneError, 1)
        | String c1 r1 =>
            if negb (inRange (acceptLo s0) (acceptHi s0) c1) then (RuneError, 1)
            else if (s0 <? 224)%N then
              (N.lor (N.shiftl (N.land s0 31) 6) (N.land (byte c1) 63), 2)
            else
              match r1 with
              | EmptyString => (RuneError, 1)
              | String c2 r2 =>
                  if negb (inRange 128 191 c2) then (RuneError, 1)
                  else if (s0 <? 240)%N then
                    (N.lor (N.shiftl (N.land s0 15) 12)
                       (N.lor (N.shiftl (N.land (byte c1) 63) 6)
                          (N.land (byte c2) 63)), 3)
                  else
                    match r2 with
                    | EmptyString => (RuneError, 1)
                    | String c3 _ =>
                        if negb (inRange 128 191 c3) then (RuneError, 1)
                        else
                          (N.lor (N.shiftl (N.land s0 7) 18)
                             (N.lor (N.shiftl (N.land (byte c1) 63) 12)
                                (N.lor (N.shiftl (N.land (byte c2) 63) 6)
                                   (N.land (byte c3) 63))), 4)
                    end
              end
        end
  end.

(** The loop of [utf8.DecodeLastRuneInString] that steps back from the last
    byte to a byte that starts a rune, no further than [lim]. *)
Fixpoint lastStart (s : string) (fuel start lim : nat) : nat :=
  match fuel with
  | 0 => lim
  | S f =>
      if Nat.leb start lim then lim
      else if RuneStart (byteAt s (start - 1)) then start - 1
      else lastStart s f (start - 1) lim
  end.

(** [utf8.DecodeLastRuneInString(s)]: the last rune of [s] and its width.
    A last byte below 0x80 is the rune; otherwise the rune is decoded from
    the nearest start of a rune in the last [UTFMax] bytes, and it counts
    only when it ends where the string ends. *)
Definition DecodeLastRuneInString (s : string) : N * nat :=
  match String.length s with
  | 0 => (RuneError, 0)
  | S start =>
      let r := byte (byteAt s start) in
      if (r <? RuneSelf)%N then (r, 1)
      else
        let lim := String.length s - UTFMax in
        let start := lastStart s UTFMax start lim in
        let (r, size) := DecodeRuneInString (slice_from start s) in
        if Nat.eqb (start + size) (String.length s) then (r, size)
        else (RuneError, 1)
  end.

End utf8.

Module unicode.

(** [unicode.IsSpace(r)]: in Latin-1 the six ASCII blanks, U+0085 and
    U+00A0; beyond it the table [White_Space], U+1680, U+2000 to U+200A,
    U+2028, U+2029, U+202F, U+205F and U+3000. *)
Definition IsSpace (r : N) : bool :=
  (if r <=? 255 then
     ((9 <=? r) && (r <=? 13)) || (r =? 32) || (r =? 133) || (r =? 160)
   else
     (r =? 5760) || ((8192 <=? r) && (r <=? 8202)) || (r =? 8232)
     || (r =? 8233) || (r =? 8239) || (r =? 8287) || (r =? 12288))%N.

End unicode.

Module strings.

(** The [asciiSpace] table of package [strings]: tab, line feed, vertical
    tab, form feed, carriage return and space. *)
Definition asciiSpace (c : ascii) : bool :=
  let n := nat_of_ascii c in
  (Nat.eqb n 9 || Nat.eqb n 10 || Nat.eqb n 11 || Nat.eqb n 12
   || Nat.eqb n 13 || Nat.eqb n 32)%bool.

(** The iterations of [for i, r := range s]: the runes of [s] in order, each
    with the bytes it was decoded from.  [n] bounds the number of
    iterations; the length of [s] is enough, every rune taking a byte at
    least. *)
Fixpoint runes_from (n : nat) (s : string) : list (N * string) :=
  match n, s with
  | S n', String _ _ =>
      let (r, w) := utf8.DecodeRuneInString s in
      (r, slice_to w s) :: runes_from n' (slice_from w s)
  | _, _ => []
  end.

Definition runes (s : string) : list (N * string) :=
  runes_from (String.length s) s.

Definition isSpace (x : N * string) : bool := unicode.IsSpace (fst x).

Definition bytes (L : list (N * string)) : string :=
  fold_right (fun x acc => (snd x ++ acc)%string) EmptyString L.

Fixpoint dropSpaces (L : list (N * string)) : list (N * string) :=
  match L with
  | x :: L' => if isSpace x then dropSpaces L' else L
  | [] => []
  end.

(** [strings.TrimLeftFunc(s, unicode.IsSpace)]: [s] from its first rune that
    is not white space on, the empty string when there is none. *)
Definition TrimLeftFunc_IsSpace (s : string) : string :=
  bytes (dropSpaces (runes s)).

(** [lastIndexFunc(s, unicode.IsSpace, false)]: the index of the last rune
    of [s[:i]] that is not white space, going back by
    [utf8.DecodeLastRuneInString]; [None] is the -1 of Go. *)
Fixpoint lastIndexFunc_from (n : nat) (s : string) (i : nat) : option nat :=
  match n, i with
  | S n', S _ =>
      let (r, size) := utf8.DecodeLastRuneInString (slice_to i s) in
      if unicode.IsSpace r then lastIndexFunc_from n' s (i - size)
      else Some (i - size)
  | _, _ => None
  end.

(** [strings.TrimRightFunc(s, unicode.IsSpace)]: [s] up to the end of that
    rune, whose width is decoded again from its first byte when the byte is
    not ASCII. *)
Definition TrimRightFunc_IsSpace (s : string) : string :=
  match lastIndexFunc_from (String.length s) s (String.length s) with
  | Some i =>
      if (utf8.RuneSelf <=? utf8.byte (byteAt s i))%N then
        slice_to (i + snd (utf8.DecodeRuneInString (slice_from i s))) s
      else slice_to (i + 1) s
  | None => EmptyString
  end.

(** The two loops of [strings.TrimSpace] over the ASCII blanks, from the
    left and from the right. *)
Fixpoint trimLeft (s : string) : string :=
  match s with
  | String c r => if asciiSpace c then trimLeft r else s
  | EmptyString => EmptyString
  end.

Fixpoint trimRight (s : string) : string :=
  match s with
  | String c r =>
      match trimRight r with
      | EmptyString => if asciiSpace c then EmptyString else String c EmptyString
      | r' => String c r'
      end
  | EmptyString => EmptyString
  end.

(** The byte of [s] at [i] is there and is not ASCII. *)
Definition highAt (s : string) (i : nat) : bool :=
  match String.get i s with
  | Some c => (utf8.RuneSelf <=? utf8.byte c)%N
  | None => false
  end.

(** [strings.TrimSpace(s)]: [s] without its leading and trailing white
    space, as Unicode defines it.  The first loop skips ASCII blanks; when it
    stops at a byte that is not ASCII the rest goes to
    [TrimFunc(s[start:], unicode.IsSpace)], which is [TrimRightFunc] of
    [TrimLeftFunc].  Otherwise the second loop drops ASCII blanks from the
    end, and when it stops at a byte that is not ASCII the rest goes to
    [TrimRightFunc(s[start:stop], unicode.IsSpace)]. *)
Definition TrimSpace (s : string) : string :=
  let s1 := trimLeft s in
  if highAt s1 0 then TrimRightFunc_IsSpace (TrimLeftFunc_IsSpace s1)
  else
    let s2 := trimRight s1 in
    if highAt s2 (String.length s2 - 1) then TrimRightFunc_IsSpace s2
    else s2.

(** The loop of [strings.FieldsFunc] and of the ASCII path of
    [strings.Fields] over the items of a string: [start] is the span that is
    open, if one is, with its bytes so far; a separator closes it, another
    item opens or extends it, and the end of the string closes it. *)
Section Spans.
Variable X : Type.
Variable space : X -> bool.
Variable text : X -> string.

Fixpoint spans (start : option string) (L : list X) : list string :=
  match L with
  | [] => match start with Some a => [a] | None => [] end
  | x :: L' =>
      if space x then
        match start with
        | Some a => a :: spans None L'
        | None => spans None L'
        end
      else
        spans (Some (match start with
                     | Some a => (a ++ text x)%string
                     | None => text x
                     end)) L'
  end.

End Spans.

Fixpoint allASCII (s : string) : bool :=
  match s with
  | EmptyString => true
  | String c r => ((utf8.byte c <? utf8.RuneSelf)%N && allASCII r)%bool
  end.

(** [strings.FieldsFunc(s, unicode.IsSpace)]: the maximal runs of runes that
    are not white space. *)
Definition FieldsFunc_IsSpace (s : string) : list string :=
  spans _ isSpace snd None (runes s).

(** [strings.Fields(s)]: a string of ASCII bytes only is split around the
    bytes of [asciiSpace], any other string by
    [FieldsFunc(s, unicode.IsSpace)]. *)
Definition Fields (s : string) : list string :=
  if allASCII s then
    spans _ asciiSpace (fun c => String c EmptyString) None
      (list_ascii_of_string s)
  else FieldsFunc_IsSpace s.

(** [strings.HasSuffix(s, ":")]. *)
Fixpoint HasSuffix_colon (s : string) : bool :=
  match s with
  | EmptyString => false
  | String c EmptyString => Ascii.eqb c ":"%char
  | String _ r => HasSuffix_colon r
  end.

(** [strings.Join(elems, sep)]. *)
Definition Join (elems : list string) (sep : string) : string :=
  String.concat sep elems.

(** [strings.Cut(s, sep)] for a one byte separator: the text before and
    after the first [sep], when there is one. *)
Fixpoint cut (sep : ascii) (s : string) : option (string * string) :=
  match s with
  | EmptyString => None
  | String c r =>
      if Ascii.eqb c sep then Some (EmptyString, r)
      else match cut sep r with
           | Some (a, b) => Some (String c a, b)
           | None => None
           end
  end.

(** [strings.SplitN(s, ":", 2)]: one element when [s] has no colon, else
    the text before the first colon and the text after it. *)
Definition SplitN_colon_2 (s : string) : list string :=
  match cut ":"%char s with
  | Some (a, b) => [a; b]
  | None => [s]
  end.

(** [strings.Split(s, sep)] for the separator comma: never empty, the empty
    string splits into one empty string. *)
Fixpoint Split_comma (s : string) : list string :=
  match s with
  | EmptyString => [EmptyString]
  | String c r =>
      if Ascii.eqb c ","%char then EmptyString :: Split_comma r
      else match Split_comma r with
           | t :: ts => String c t :: ts
           | [] => [String c EmptyString]
           end
  end.

End strings.

Module strconv.

(** The two causes of a [*strconv.NumError]. *)
Inductive cause := ErrSyntax | ErrRange.

Definition isDigit (c : ascii) : bool :=
  let n := nat_of_ascii c in (Nat.leb 48 n && Nat.leb n 57)%bool.

Definition digit (c : ascii) : Z := Z.of_nat (nat_of_ascii c) - 48.

(** The loop of [strconv.ParseUint(s, 10, 64)]: bytes are read from the
    left; a byte that is no digit is a syntax error, an accumulator that
    leaves the range of [uint64] is a range error, whichever is met
    first. *)
Fixpoint parseUint (n : Z) (s : string) : cause + Z :=
  match s with
  | EmptyString => inr n
  | String c r =>
      if negb (isDigit c) then inl ErrSyntax
      else if ((2 ^ 64 - 1) / 10 + 1 <=? n)%Z then inl ErrRange
      else let n1 := (n * 10 + digit c)%Z in
           if (2 ^ 64 - 1 <? n1)%Z then inl ErrRange else parseUint n1 r
  end.

(** [strconv.Atoi(s)] on a 64-bit target: an optional sign, then one or
    more decimal digits, the value in the range of [int]. *)
Definition Atoi (s : string) : cause + Z :=
  match s with
  | EmptyString => inl ErrSyntax
  | String c r =>
      let neg := Ascii.eqb c "-"%char in
      let body := if (Ascii.eqb c "+"%char || neg)%bool then r else s in
      match body with
      | EmptyString => inl ErrSyntax
      | _ =>
          match parseUint 0 body with
          | inl e => inl e
          | inr un =>
              if (negb neg && (2 ^ 63 <=? un)%Z)%bool then inl ErrRange
              else if (neg && (2 ^ 63 <? un)%Z)%bool then inl ErrRange
              else inr (if neg then (- un)%Z else un)
          end
      end
  end.

End strconv.


(** [strconv.ParseFloat(s, 64)] and the type [float64].  Binary floating
    point is outside this development: the type, its zero and the conversion
    are an interface, and every statement below holds for each
    implementation of it. *)
Class Float64Model := {
  float64 : Type;
  float64_zero : float64;
  ParseFloat64 : string -> strconv.cause + float64
}.

(** Package [time]: a [Duration] is an [int64] count of nanoseconds,
    [time.Second] is [1e9]; the product of two durations wraps around. *)
Module time.

Definition Duration := Z.

Definition Second : Duration := 1000000000%Z.

Definition wrap64 (z : Z) : Z := ((z + 2 ^ 63) mod 2 ^ 64 - 2 ^ 63)%Z.

Definition mul (a b : Duration) : Duration := wrap64 (a * b).

End time.

(** ** Errors *)

(** The error values that the package builds or passes on.  [ErrTransport]
    stands for whatever the AT transport reports; [NumError] is
    [*strconv.NumError] with its fields [Func], [Num] and [Err].  The others
    are the values of [errors.New] and [fmt.Errorf] in the package:
    - [ErrEmptyInfoResponse]: "atmodem: empty info response from modem";
    - [ErrEmptyStatusResponse]: "atmodem: empty status response from modem";
    - [ErrNoValues]: "atmodem: no key/value pair values provided for parsing";
    - [ErrMalformedInfoLine l]: "atmodem: malformed info line: %q", with the
      line;
    - [ErrUnexpectedStatusLine n l]: "atmodem: unexpected status response line
      with %d key/value pairs %q", with [len(indices)] and the line;
    - [ErrAmbiguousRSRP]: "atmodem: cannot determine which RSRP dBm value is
      being parsed". *)
Inductive error :=
| ErrTransport (msg : string)
| ErrEmptyInfoResponse
| ErrEmptyStatusResponse
| ErrNoValues
| ErrMalformedInfoLine (l : string)
| ErrUnexpectedStatusLine (n : nat) (l : string)
| ErrAmbiguousRSRP
| NumError (Func Num : string) (Err : strconv.cause).

(** The names the specification gives to the errors. *)
Inductive error_kind :=
| EmptyResponse
| EmptyInput
| MalformedLine
| UnexpectedSegmentCount
| ConversionError
| AmbiguousField
| TransportFailure.

Definition kind_of (e : error) : error_kind :=
  match e with
  | ErrTransport _ => TransportFailure
  | ErrEmptyInfoResponse | ErrEmptyStatusResponse => EmptyResponse
  | ErrNoValues => EmptyInput
  | ErrMalformedInfoLine _ => MalformedLine
  | ErrUnexpectedStatusLine _ _ => UnexpectedSegmentCount
  | ErrAmbiguousRSRP => AmbiguousField
  | NumError _ _ _ => ConversionError
  end.

(** ** [valueparser.go] *)

Module valueParser.

(** [type valueParser struct { ss []string; err error }]. *)
Record t := mk { ss : list string; err : option error }.

(** [func (vp *valueParser) Err() error]. *)
Definition Err (vp : t) : option error := err vp.

(** [func (vp *valueParser) Int() int]: the result and the parser after the
    call.  [vp.ss[0]] would panic on an empty [ss]; no parser that
    [newValueParser] returns has one (lemma [newValueParser_nonempty]), and
    the default of [nth] is read on no parser of the package. *)
Definition Int (vp : t) : Z * t :=
  match err vp with
  | Some _ => (0%Z, vp)
  | None =>
      match strconv.Atoi (nth 0 (ss vp) EmptyString) with
      | inl c => (0%Z, mk (ss vp) (Some (NumError "Atoi" (nth 0 (ss vp) EmptyString) c)))
      | inr v => (v, vp)
      end
  end.

(** [func (vp *valueParser) String() string]; the method writes no field. *)
Definition String (vp : t) : string :=
  match err vp with
  | Some _ => EmptyString
  | None => strings.Join (ss vp) " "
  end.

(** Modelled from the spec: [func (vp *valueParser) Float64() float64], which
    [Status.parse] and the tests call and [src/valueparser.go] does not hold.
    "parses [tokens[0]] as a decimal floating-point value; same failure/no-op
    policy as AsInteger, error kind [float]". *)
Definition Float64 {FM : Float64Model} (vp : t) : float64 * t :=
  match err vp with
  | Some _ => (float64_zero, vp)
  | None =>
      match ParseFloat64 (nth 0 (ss vp) EmptyString) with
      | inl c =>
          (float64_zero,
           mk (ss vp) (Some (NumError "ParseFloat" (nth 0 (ss vp) EmptyString) c)))
      | inr v => (v, vp)
      end
  end.

End valueParser.

(** [func newValueParser(ss []string)], returning a [*valueParser] and an
    [error].  The loop
    writes the trimmed strings back into [ss]: the parser holds the caller's
    slice, whose elements are from then on the trimmed ones
    ([valueParser.ss] of the result is the content of both). *)
Definition newValueParser (ss : list string) : error + valueParser.t :=
  if Nat.eqb (length ss) 0 then inl ErrNoValues
  else inr (valueParser.mk (map strings.TrimSpace ss) None).

(** ** [device.go]: the records *)

Module Info.

(** [type Info struct]: [Manufacturer, Model, Revision, IMEI, MEID, FSN
    string], [IMEISV int], [GCAP []string].  [set_F v i] is the record after
    the assignment [i.F = v]. *)
Record t := mk {
  Manufacturer : string;
  Model : string;
  Revision : string;
  IMEI : string;
  MEID : string;
  FSN : string;
  IMEISV : Z;
  GCAP : list string
}.

Definition set_Manufacturer (v : string) (i : t) : t :=
  mk v (Model i) (Revision i) (IMEI i) (MEID i) (FSN i) (IMEISV i) (GCAP i).

Definition set_Model (v : string) (i : t) : t :=
  mk (Manufacturer i) v (Revision i) (IMEI i) (MEID i) (FSN i) (IMEISV i)
  (GCAP i).

Definition set_Revision (v : string) (i : t) : t :=
  mk (Manufacturer i) (Model i) v (IMEI i) (MEID i) (FSN i) (IMEISV i)
  (GCAP i).

Definition set_IMEI (v : string) (i : t) : t :=
  mk (Manufacturer i) (Model i) (Revision i) v (MEID i) (FSN i) (IMEISV i)
  (GCAP i).

Definition set_MEID (v : string) (i : t) : t :=
  mk (Manufacturer i) (Model i) (Revision i) (IMEI i) v (FSN i) (IMEISV i)
  (GCAP i).

Definition set_FSN (v : string) (i : t) : t :=
  mk (Manufacturer i) (Model i) (Revision i) (IMEI i) (MEID i) v (IMEISV i)
  (GCAP i).

Definition set_IMEISV (v : Z) (i : t) : t :=
  mk (Manufacturer i) (Model i) (Revision i) (IMEI i) (MEID i) (FSN i) v
  (GCAP i).

Definition set_GCAP (v : list string) (i : t) : t :=
  mk (Manufacturer i) (Model i) (Revision i) (IMEI i) (MEID i) (FSN i)
  (IMEISV i) v.

(** [var i Info]: every field at the zero value of its type. *)
Definition zero : t := mk EmptyString EmptyString EmptyString EmptyString EmptyString EmptyString 0%Z [].

End Info.

(** [type statusState int] with its constants: the blank first constant of
    the [iota] list is the zero value, then [rxmLast] and [rxdLast]. *)
Inductive statusState := statusState_0 | rxmLast | rxdLast.

Module Status.

Section Float.
Context {FM : Float64Model}.

(** [type Status struct], field by field, the unexported [state] last.
    [set_F v s] is the record after the assignment [s.F = v]. *)
Record t := mk {
  CurrentTime : time.Duration;
  Temperature : Z;
  ResetCounter : Z;
  Mode : string;
  SystemMode : string;
  PSState : string;
  LTEBand : string;
  LTEBandwidthMHz : float64;
  LTEReceiveChannel : Z;
  LTETransmitChannel : Z;
  LTECAState : string;
  EMMState : string;
  RRCState : string;
  IMSRegState : string;
  PCCRXMRSSI : Z;
  RSRPRXMdBm : Z;
  PCCRXDRSSI : Z;
  RSRPRXDdBm : Z;
  TransmitPower : Z;
  TAC : string;
  CellID : string;
  RSRQdB : float64;
  SINRdB : float64;
  state : statusState
}.

Definition set_CurrentTime (v : time.Duration) (s : t) : t :=
  mk v (Temperature s) (ResetCounter s) (Mode s) (SystemMode s) (PSState s)
  (LTEBand s) (LTEBandwidthMHz s) (LTEReceiveChannel s)
  (LTETransmitChannel s) (LTECAState s) (EMMState s) (RRCState s)
  (IMSRegState s) (PCCRXMRSSI s) (RSRPRXMdBm s) (PCCRXDRSSI s) (RSRPRXDdBm s)
  (TransmitPower s) (TAC s) (CellID s) (RSRQdB s) (SINRdB s) (state s).

Definition set_Temperature (v : Z) (s : t) : t :=
  mk (CurrentTime s) v (ResetCounter s) (Mode s) (SystemMode s) (PSState s)
  (LTEBand s) (LTEBandwidthMHz s) (LTEReceiveChannel s)
  (LTETransmitChannel s) (LTECAState s) (EMMState s) (RRCState s)
  (IMSRegState s) (PCCRXMRSSI s) (RSRPRXMdBm s) (PCCRXDRSSI s) (RSRPRXDdBm s)
  (TransmitPower s) (TAC s) (CellID s) (RSRQdB s) (SINRdB s) (state s).

Definition set_ResetCounter (v : Z) (s : t) : t :=
  mk (CurrentTime s) (Temperature s) v (Mode s) (SystemMode s) (PSState s)
  (LTEBand s) (LTEBandwidthMHz s) (LTEReceiveChannel s)
  (LTETransmitChannel s) (LTECAState s) (EMMState s) (RRCState s)
  (IMSRegState s) (PCCRXMRSSI s) (RSRPRXMdBm s) (PCCRXDRSSI s) (RSRPRXDdBm s)
  (TransmitPower s) (TAC s) (CellID s) (RSRQdB s) (SINRdB s) (state s).

Definition set_Mode (v : string) (s : t) : t :=
  mk (CurrentTime s) (Temperature s) (ResetCounter s) v (SystemMode s)
  (PSState s) (LTEBand s) (LTEBandwidthMHz s) (LTEReceiveChannel s)
  (LTETransmitChannel s) (LTECAState s) (EMMState s) (RRCState s)
  (IMSRegState s) (PCCRXMRSSI s) (RSRPRXMdBm s) (PCCRXDRSSI s) (RSRPRXDdBm s)
  (TransmitPower s) (TAC s) (CellID s) (RSRQdB s) (SINRdB s) (state s).

Definition set_SystemMode (v : string) (s : t) : t :=
  mk (CurrentTime s) (Temperature s) (ResetCounter s) (Mode s) v (PSState s)
  (LTEBand s) (LTEBandwidthMHz s) (LTEReceiveChannel s)
  (LTETransmitChannel s) (LTECAState s) (EMMState s) (RRCState s)
  (IMSRegState s) (PCCRXMRSSI s) (RSRPRXMdBm s) (PCCRXDRSSI s) (RSRPRXDdBm s)
  (TransmitPower s) (TAC s) (CellID s) (RSRQdB s) (SINRdB s) (state s).

Definition set_PSState (v : string) (s : t) : t :=
  mk (CurrentTime s) (Temperature s) (ResetCounter s) (Mode s) (SystemMode s)
  v (LTEBand s) (LTEBandwidthMHz s) (LTEReceiveChannel s)
  (LTETransmitChannel s) (LTECAState s) (EMMState s) (RRCState s)
  (IMSRegState s) (PCCRXMRSSI s) (RSRPRXMdBm s) (PCCRXDRSSI s) (RSRPRXDdBm s)
  (TransmitPower s) (TAC s) (CellID s) (RSRQdB s) (SINRdB s) (state s).

Definition set_LTEBand (v : string) (s : t) : t :=
  mk (CurrentTime s) (Temperature s) (ResetCounter s) (Mode s) (SystemMode s)
  (PSState s) v (LTEBandwidthMHz s) (LTEReceiveChannel s)
  (LTETransmitChannel s) (LTECAState s) (EMMState s) (RRCState s)
  (IMSRegState s) (PCCRXMRSSI s) (RSRPRXMdBm s) (PCCRXDRSSI s) (RSRPRXDdBm s)
  (TransmitPower s) (TAC s) (CellID s) (RSRQdB s) (SINRdB s) (state s).

Definition set_LTEBandwidthMHz (v : float64) (s : t) : t :=
  mk (CurrentTime s) (Temperature s) (ResetCounter s) (Mode s) (SystemMode s)
  (PSState s) (LTEBand s) v (LTEReceiveChannel s) (LTETransmitChannel s)
  (LTECAState s) (EMMState s) (RRCState s) (IMSRegState s) (PCCRXMRSSI s)
  (RSRPRXMdBm s) (PCCRXDRSSI s) (RSRPRXDdBm s) (TransmitPower s) (TAC s)
  (CellID s) (RSRQdB s) (SINRdB s) (state s).

Definition set_LTEReceiveChannel (v : Z) (s : t) : t :=
  mk (CurrentTime s) (Temperature s) (ResetCounter s) (Mode s) (SystemMode s)
  (PSState s) (LTEBand s) (LTEBandwidthMHz s) v (LTETransmitChannel s)
  (LTECAState s) (EMMState s) (RRCState s) (IMSRegState s) (PCCRXMRSSI s)
  (RSRPRXMdBm s) (PCCRXDRSSI s) (RSRPRXDdBm s) (TransmitPower s) (TAC s)
  (CellID s) (RSRQdB s) (SINRdB s) (state s).

Definition set_LTETransmitChannel (v : Z) (s : t) : t :=
  mk (CurrentTime s) (Temperature s) (ResetCounter s) (Mode s) (SystemMode s)
  (PSState s) (LTEBand s) (LTEBandwidthMHz s) (LTEReceiveChannel s) v
  (LTECAState s) (EMMState s) (RRCState s) (IMSRegState s) (PCCRXMRSSI s)
  (RSRPRXMdBm s) (PCCRXDRSSI s) (RSRPRXDdBm s) (TransmitPower s) (TAC s)
  (CellID s) (RSRQdB s) (SINRdB s) (state s).

Definition set_LTECAState (v : string) (s : t) : t :=
  mk (CurrentTime s) (Temperature s) (ResetCounter s) (Mode s) (SystemMode s)
  (PSState s) (LTEBand s) (LTEBandwidthMHz s) (LTEReceiveChannel s)
  (LTETransmitChannel s) v (EMMState s) (RRCState s) (IMSRegState s)
  (PCCRXMRSSI s) (RSRPRXMdBm s) (PCCRXDRSSI s) (RSRPRXDdBm s)
  (TransmitPower s) (TAC s) (CellID s) (RSRQdB s) (SINRdB s) (state s).

Definition set_EMMState (v : string) (s : t) : t :=
  mk (CurrentTime s) (Temperature s) (ResetCounter s) (Mode s) (SystemMode s)
  (PSState s) (LTEBand s) (LTEBandwidthMHz s) (LTEReceiveChannel s)
  (LTETransmitChannel s) (LTECAState s) v (RRCState s) (IMSRegState s)
  (PCCRXMRSSI s) (RSRPRXMdBm s) (PCCRXDRSSI s) (RSRPRXDdBm s)
  (TransmitPower s) (TAC s) (CellID s) (RSRQdB s) (SINRdB s) (state s).

Definition set_RRCState (v : string) (s : t) : t :=
  mk (CurrentTime s) (Temperature s) (ResetCounter s) (Mode s) (SystemMode s)
  (PSState s) (LTEBand s) (LTEBandwidthMHz s) (LTEReceiveChannel s)
  (LTETransmitChannel s) (LTECAState s) (EMMState s) v (IMSRegState s)
  (PCCRXMRSSI s) (RSRPRXMdBm s) (PCCRXDRSSI s) (RSRPRXDdBm s)
  (TransmitPower s) (TAC s) (CellID s) (RSRQdB s) (SINRdB s) (state s).

Definition set_IMSRegState (v : string) (s : t) : t :=
  mk (CurrentTime s) (Temperature s) (ResetCounter s) (Mode s) (SystemMode s)
  (PSState s) (LTEBand s) (LTEBandwidthMHz s) (LTEReceiveChannel s)
  (LTETransmitChannel s) (LTECAState s) (EMMState s) (RRCState s) v
  (PCCRXMRSSI s) (RSRPRXMdBm s) (PCCRXDRSSI s) (RSRPRXDdBm s)
  (TransmitPower s) (TAC s) (CellID s) (RSRQdB s) (SINRdB s) (state s).

Definition set_PCCRXMRSSI (v : Z) (s : t) : t :=
  mk (CurrentTime s) (Temperature s) (ResetCounter s) (Mode s) (SystemMode s)
  (PSState s) (LTEBand s) (LTEBandwidthMHz s) (LTEReceiveChannel s)
  (LTETransmitChannel s) (LTECAState s) (EMMState s) (RRCState s)
  (IMSRegState s) v (RSRPRXMdBm s) (PCCRXDRSSI s) (RSRPRXDdBm s)
  (TransmitPower s) (TAC s) (CellID s) (RSRQdB s) (SINRdB s) (state s).

Definition set_RSRPRXMdBm (v : Z) (s : t) : t :=
  mk (CurrentTime s) (Temperature s) (ResetCounter s) (Mode s) (SystemMode s)
  (PSState s) (LTEBand s) (LTEBandwidthMHz s) (LTEReceiveChannel s)
  (LTETransmitChannel s) (LTECAState s) (EMMState s) (RRCState s)
  (IMSRegState s) (PCCRXMRSSI s) v (PCCRXDRSSI s) (RSRPRXDdBm s)
  (TransmitPower s) (TAC s) (CellID s) (RSRQdB s) (SINRdB s) (state s).

Definition set_PCCRXDRSSI (v : Z) (s : t) : t :=
  mk (CurrentTime s) (Temperature s) (ResetCounter s) (Mode s) (SystemMode s)
  (PSState s) (LTEBand s) (LTEBandwidthMHz s) (LTEReceiveChannel s)
  (LTETransmitChannel s) (LTECAState s) (EMMState s) (RRCState s)
  (IMSRegState s) (PCCRXMRSSI s) (RSRPRXMdBm s) v (RSRPRXDdBm s)
  (TransmitPower s) (TAC s) (CellID s) (RSRQdB s) (SINRdB s) (state s).

Definition set_RSRPRXDdBm (v : Z) (s : t) : t :=
  mk (CurrentTime s) (Temperature s) (ResetCounter s) (Mode s) (SystemMode s)
  (PSState s) (LTEBand s) (LTEBandwidthMHz s) (LTEReceiveChannel s)
  (LTETransmitChannel s) (LTECAState s) (EMMState s) (RRCState s)
  (IMSRegState s) (PCCRXMRSSI s) (RSRPRXMdBm s) (PCCRXDRSSI s) v
  (TransmitPower s) (TAC s) (CellID s) (RSRQdB s) (SINRdB s) (state s).

Definition set_TransmitPower (v : Z) (s : t) : t :=
  mk (CurrentTime s) (Temperature s) (ResetCounter s) (Mode s) (SystemMode s)
  (PSState s) (LTEBand s) (LTEBandwidthMHz s) (LTEReceiveChannel s)
  (LTETransmitChannel s) (LTECAState s) (EMMState s) (RRCState s)
  (IMSRegState s) (PCCRXMRSSI s) (RSRPRXMdBm s) (PCCRXDRSSI s) (RSRPRXDdBm s)
  v (TAC s) (CellID s) (RSRQdB s) (SINRdB s) (state s).

Definition set_TAC (v : string) (s : t) : t :=
  mk (CurrentTime s) (Temperature s) (ResetCounter s) (Mode s) (SystemMode s)
  (PSState s) (LTEBand s) (LTEBandwidthMHz s) (LTEReceiveChannel s)
  (LTETransmitChannel s) (LTECAState s) (EMMState s) (RRCState s)
  (IMSRegState s) (PCCRXMRSSI s) (RSRPRXMdBm s) (PCCRXDRSSI s) (RSRPRXDdBm s)
  (TransmitPower s) v (CellID s) (RSRQdB s) (SINRdB s) (state s).

Definition set_CellID (v : string) (s : t) : t :=
  mk (CurrentTime s) (Temperature s) (ResetCounter s) (Mode s) (SystemMode s)
  (PSState s) (LTEBand s) (LTEBandwidthMHz s) (LTEReceiveChannel s)
  (LTETransmitChannel s) (LTECAState s) (EMMState s) (RRCState s)
  (IMSRegState s) (PCCRXMRSSI s) (RSRPRXMdBm s) (PCCRXDRSSI s) (RSRPRXDdBm s)
  (TransmitPower s) (TAC s) v (RSRQdB s) (SINRdB s) (state s).

Definition set_RSRQdB (v : float64) (s : t) : t :=
  mk (CurrentTime s) (Temperature s) (ResetCounter s) (Mode s) (SystemMode s)
  (PSState s) (LTEBand s) (LTEBandwidthMHz s) (LTEReceiveChannel s)
  (LTETransmitChannel s) (LTECAState s) (EMMState s) (RRCState s)
  (IMSRegState s) (PCCRXMRSSI s) (RSRPRXMdBm s) (PCCRXDRSSI s) (RSRPRXDdBm s)
  (TransmitPower s) (TAC s) (CellID s) v (SINRdB s) (state s).

Definition set_SINRdB (v : float64) (s : t) : t :=
  mk (CurrentTime s) (Temperature s) (ResetCounter s) (Mode s) (SystemMode s)
  (PSState s) (LTEBand s) (LTEBandwidthMHz s) (LTEReceiveChannel s)
  (LTETransmitChannel s) (LTECAState s) (EMMState s) (RRCState s)
  (IMSRegState s) (PCCRXMRSSI s) (RSRPRXMdBm s) (PCCRXDRSSI s) (RSRPRXDdBm s)
  (TransmitPower s) (TAC s) (CellID s) (RSRQdB s) v (state s).

Definition set_state (v : statusState) (s : t) : t :=
  mk (CurrentTime s) (Temperature s) (ResetCounter s) (Mode s) (SystemMode s)
  (PSState s) (LTEBand s) (LTEBandwidthMHz s) (LTEReceiveChannel s)
  (LTETransmitChannel s) (LTECAState s) (EMMState s) (RRCState s)
  (IMSRegState s) (PCCRXMRSSI s) (RSRPRXMdBm s) (PCCRXDRSSI s) (RSRPRXDdBm s)
  (TransmitPower s) (TAC s) (CellID s) (RSRQdB s) (SINRdB s) v.

(** [var s Status]: every field at the zero value of its type. *)
Definition zero : t :=
  mk 0%Z 0%Z 0%Z EmptyString EmptyString EmptyString EmptyString float64_zero 0%Z 0%Z EmptyString EmptyString EmptyString EmptyString 0%Z 0%Z 0%Z 0%Z
    0%Z EmptyString EmptyString float64_zero float64_zero statusState_0.

(** The [switch k] of [Status.parse]: the record and the value parser after
    the case for [k] ran, and the error of the one case that returns from
    inside the switch.  A key of no case runs the empty [default]. *)
Definition parse_switch (s : t) (k : string) (vp : valueParser.t)
  : t * valueParser.t * option error :=
  if String.eqb k "Current Time:" then
    let (v, vp) := valueParser.Int vp in
    (set_CurrentTime (time.mul v time.Second) s, vp, None)
  else
  if String.eqb k "Temperature:" then
    let (v, vp) := valueParser.Int vp in (set_Temperature v s, vp, None)
  else
  if String.eqb k "Reset Counter:" then
    let (v, vp) := valueParser.Int vp in (set_ResetCounter v s, vp, None)
  else
  if String.eqb k "Mode:" then
    (set_Mode (valueParser.String vp) s, vp, None)
  else
  if String.eqb k "System mode:" then
    (set_SystemMode (valueParser.String vp) s, vp, None)
  else
  if String.eqb k "PS state:" then
    (set_PSState (valueParser.String vp) s, vp, None)
  else
  if String.eqb k "LTE band:" then
    (set_LTEBand (valueParser.String vp) s, vp, None)
  else
  if String.eqb k "LTE bw:" then
    let (v, vp) := valueParser.Float64 vp in (set_LTEBandwidthMHz v s, vp, None)
  else
  if String.eqb k "LTE Rx chan:" then
    let (v, vp) := valueParser.Int vp in (set_LTEReceiveChannel v s, vp, None)
  else
  if String.eqb k "LTE Tx chan:" then
    let (v, vp) := valueParser.Int vp in (set_LTETransmitChannel v s, vp, None)
  else
  if String.eqb k "LTE CA state:" then
    (set_LTECAState (valueParser.String vp) s, vp, None)
  else
  if String.eqb k "EMM state:" then
    (set_EMMState (valueParser.String vp) s, vp, None)
  else
  if String.eqb k "RRC state:" then
    (set_RRCState (valueParser.String vp) s, vp, None)
  else
  if String.eqb k "IMS reg state:" then
    (set_IMSRegState (valueParser.String vp) s, vp, None)
  else
  if String.eqb k "PCC RxM RSSI:" then
    let (v, vp) := valueParser.Int vp in
    (set_state rxmLast (set_PCCRXMRSSI v s), vp, None)
  else
  if String.eqb k "PCC RxD RSSI:" then
    let (v, vp) := valueParser.Int vp in
    (set_state rxdLast (set_PCCRXDRSSI v s), vp, None)
  else
  if String.eqb k "RSRP (dBm):" then
    match state s with
    | rxmLast => let (v, vp) := valueParser.Int vp in (set_RSRPRXMdBm v s, vp, None)
    | rxdLast => let (v, vp) := valueParser.Int vp in (set_RSRPRXDdBm v s, vp, None)
    | statusState_0 => (s, vp, Some ErrAmbiguousRSRP)
    end
  else
  if String.eqb k "Tx Power:" then
    let (v, vp) := valueParser.Int vp in (set_TransmitPower v s, vp, None)
  else
  if String.eqb k "TAC:" then
    (set_TAC (valueParser.String vp) s, vp, None)
  else
  if String.eqb k "Cell ID:" then
    (set_CellID (valueParser.String vp) s, vp, None)
  else
  if String.eqb k "RSRQ (dB):" then
    let (v, vp) := valueParser.Float64 vp in (set_RSRQdB v s, vp, None)
  else
  if String.eqb k "SINR (dB):" then
    let (v, vp) := valueParser.Float64 vp in (set_SINRdB v s, vp, None)
  else
  (s, vp, None).

(** The keys that have a case in the switch. *)
Definition keys : list string :=
  ["Current Time:"; "Temperature:"; "Reset Counter:"; "Mode:";
   "System mode:"; "PS state:"; "LTE band:"; "LTE bw:"; "LTE Rx chan:";
   "LTE Tx chan:"; "LTE CA state:"; "EMM state:"; "RRC state:";
   "IMS reg state:"; "PCC RxM RSSI:"; "PCC RxD RSSI:"; "RSRP (dBm):";
   "Tx Power:"; "TAC:"; "Cell ID:"; "RSRQ (dB):"; "SINR (dB):"].

(** The loop [for i := range ss] of [Status.parse], from index [i] with [n]
    iterations left.  [newValueParser(ss[i+1:])] trims the tail of [ss] in
    place, so the iterations that follow read the trimmed strings.  The
    result is the record as the call leaves it, with the error it returns. *)
Fixpoint parse_range (n i : nat) (s : t) (ss : list string) : t * option error :=
  match n with
  | O => (s, None)
  | S n' =>
      if negb (strings.HasSuffix_colon (nth i ss EmptyString))
      then parse_range n' (S i) s ss
      else
        let k := strings.Join (firstn (S i) ss) " " in
        match newValueParser (skipn (S i) ss) with
        | inl e => (s, Some e)
        | inr vp =>
            let ss' := firstn (S i) ss ++ valueParser.ss vp in
            match parse_switch s k vp with
            | (s', _, Some e) => (s', Some e)
            | (s', vp', None) =>
                match valueParser.Err vp' with
                | Some e => (s', Some e)
                | None => parse_range n' (S i) s' ss'
                end
            end
        end
  end.

(** [func (s *Status) parse(ss []string) error]. *)
Definition parse (s : t) (ss : list string) : t * option error :=
  parse_range (length ss) 0 s ss.

End Float.

End Status.

(** ** [device.go]: the device and the two parsers *)

(** [type Device struct]: of the AT transport only [Command] matters here;
    it answers a command with the lines of the response and an error. *)
Record Device := { Command : string -> list string * option error }.

Section Float.
Context {FM : Float64Model}.

(** The body of the loop of [parseInfo] for one line [l]. *)
Definition parseInfo_line (i : Info.t) (l : string) : error + Info.t :=
  let ss := strings.SplitN_colon_2 l in
  if negb (Nat.eqb (length ss) 2) then inl (ErrMalformedInfoLine l)
  else
    match newValueParser [nth 1 ss EmptyString] with
    | inl e => inl e
    | inr vp =>
        let k := nth 0 ss EmptyString in
        let '(i', vp') :=
          if String.eqb k "Manufacturer" then
            (Info.set_Manufacturer (valueParser.String vp) i, vp)
          else if String.eqb k "Model" then
            (Info.set_Model (valueParser.String vp) i, vp)
          else if String.eqb k "Revision" then
            (Info.set_Revision (valueParser.String vp) i, vp)
          else if String.eqb k "IMEI" then
            (Info.set_IMEI (valueParser.String vp) i, vp)
          else if String.eqb k "MEID" then
            (Info.set_MEID (valueParser.String vp) i, vp)
          else if String.eqb k "IMEI SV" then
            let (v, vp) := valueParser.Int vp in (Info.set_IMEISV v i, vp)
          else if String.eqb k "FSN" then
            (Info.set_FSN (valueParser.String vp) i, vp)
          else if String.eqb k "+GCAP" then
            (Info.set_GCAP (strings.Split_comma (valueParser.String vp)) i, vp)
          else (i, vp) in
        match valueParser.Err vp' with
        | Some e => inl e
        | None => inr i'
        end
    end.

(** The loop [for _, l := range lines] of [parseInfo]. *)
Fixpoint parseInfo_range (i : Info.t) (lines : list string) : error + Info.t :=
  match lines with
  | [] => inr i
  | l :: lines' =>
      match parseInfo_line i l with
      | inl e => inl e
      | inr i' => parseInfo_range i' lines'
      end
  end.

(** [func parseInfo(lines []string)], returning a [*Info] and an [error]. *)
Definition parseInfo (lines : list string) : error + Info.t :=
  parseInfo_range Info.zero lines.

(** The keys that have a case in the switch of [parseInfo]. *)
Definition info_keys : list string :=
  ["Manufacturer"; "Model"; "Revision"; "IMEI"; "MEID"; "IMEI SV"; "FSN";
   "+GCAP"].

(** [func (d *Device) Info()], returning a [*Info] and an [error]. *)
Definition Device_Info (d : Device) : error + Info.t :=
  let (ss, err) := Command d "I" in
  match err with
  | Some e => inl e
  | None =>
      if Nat.eqb (length ss) 0 then inl ErrEmptyInfoResponse else parseInfo ss
  end.

(** The positions of the fields that end in a colon: the inner loop of
    [parseStatus] that fills [indices], from position [i]. *)
Fixpoint indices_from (i : nat) (ss : list string) : list nat :=
  match ss with
  | [] => []
  | s :: ss' =>
      if strings.HasSuffix_colon s then i :: indices_from (S i) ss'
      else indices_from (S i) ss'
  end.

(** The body of the loop of [parseStatus] for a line [l] that is not the
    first. *)
Definition parseStatus_line (s : Status.t) (l : string) : error + Status.t :=
  let ss := strings.Fields l in
  let indices := indices_from 0 ss in
  match length indices with
  | 1 =>
      match Status.parse s ss with
      | (_, Some e) => inl e
      | (s1, None) => inr s1
      end
  | 2 =>
      let next := nth 0 indices 0 + 2 in
      match Status.parse s (firstn next ss) with
      | (_, Some e) => inl e
      | (s1, None) =>
          match Status.parse s1 (skipn next ss) with
          | (_, Some e) => inl e
          | (s2, None) => inr s2
          end
      end
  | n => inl (ErrUnexpectedStatusLine n l)
  end.

(** The loop [for i, l := range lines] of [parseStatus], from index [i]:
    the line of index 0 is skipped. *)
Fixpoint parseStatus_range (i : nat) (s : Status.t) (lines : list string)
  : error + Status.t :=
  match lines with
  | [] => inr s
  | l :: lines' =>
      if Nat.eqb i 0 then parseStatus_range (S i) s lines'
      else
        match parseStatus_line s l with
        | inl e => inl e
        | inr s' => parseStatus_range (S i) s' lines'
        end
  end.

(** [func parseStatus(lines []string)], returning a [*Status] and an
    [error]. *)
Definition parseStatus (lines : list string) : error + Status.t :=
  parseStatus_range 0 Status.zero lines.

(** [func (d *Device) Status()], returning a [*Status] and an [error]. *)
Definition Device_Status (d : Device) : error + Status.t :=
  let (ss, err) := Command d "!GSTATUS?" in
  match err with
  | Some e => inl e
  | None =>
      if Nat.eqb (length ss) 0 then inl ErrEmptyStatusResponse
      else parseStatus ss
  end.

End Float.

(** [src/device.go] as it stands: the revision of [Device.Info] and
    [parseInfo] that trims and converts each value by hand. *)
Module Legacy.

(** The body of the loop of [parseInfo] for one line [l]. *)
Definition parseInfo_line (i : Info.t) (l : string) : error + Info.t :=
  let ss := strings.SplitN_colon_2 l in
  if negb (Nat.eqb (length ss) 2) then inl (ErrMalformedInfoLine l)
  else
    let k := nth 0 ss EmptyString in
    let v := strings.TrimSpace (nth 1 ss EmptyString) in
    if String.eqb k "Manufacturer" then inr (Info.set_Manufacturer v i)
    else if String.eqb k "Model" then inr (Info.set_Model v i)
    else if String.eqb k "Revision" then inr (Info.set_Revision v i)
    else if String.eqb k "IMEI" then inr (Info.set_IMEI v i)
    else if String.eqb k "MEID" then inr (Info.set_MEID v i)
    else if String.eqb k "IMEI SV" then
      match strconv.Atoi v with
      | inl c => inl (NumError "Atoi" v c)
      | inr n => inr (Info.set_IMEISV n i)
      end
    else if String.eqb k "FSN" then inr (Info.set_FSN v i)
    else if String.eqb k "+GCAP" then
      inr (Info.set_GCAP (strings.Split_comma v) i)
    else inr i.

(** The loop [for _, l := range lines] of [parseInfo]. *)
Fixpoint parseInfo_range (i : Info.t) (lines : list string) : error + Info.t :=
  match lines with
  | [] => inr i
  | l :: lines' =>
      match parseInfo_line i l with
      | inl e => inl e
      | inr i' => parseInfo_range i' lines'
      end
  end.

(** [func parseInfo(lines []string)], returning a [*Info] and an [error]. *)
Definition parseInfo (lines : list string) : error + Info.t :=
  parseInfo_range Info.zero lines.

(** [func (d *Device) Info()], returning a [*Info] and an [error]. *)
Definition Device_Info (d : Device) : error + Info.t :=
  let (ss, err) := Command d "I" in
  match err with
  | Some e => inl e
  | None =>
      if Nat.eqb (length ss) 0 then inl ErrEmptyInfoResponse else parseInfo ss
  end.

End Legacy.

(** ** Definitions that the statements use *)

(** An implementation of [Float64Model] on which the statements are run on
    concrete responses: a decimal numeral, [mantissa / 10 ^ scale], read
    exactly.  It reads the numerals a modem prints ([-13.5], [0.6], [5]);
    it is not Go's [ParseFloat], which no statement depends on. *)
Module decimal.

Record t := mk { mantissa : Z; scale : nat }.

Fixpoint number (acc : Z) (s : string) : option Z :=
  match s with
  | EmptyString => Some acc
  | String c r =>
      if strconv.isDigit c then number (acc * 10 + strconv.digit c) r else None
  end.

Definition Parse (s : string) : strconv.cause + t :=
  let neg := match s with String c _ => Ascii.eqb c "-"%char | _ => false end in
  let body :=
    match s with
    | String c r => if (Ascii.eqb c "+"%char || Ascii.eqb c "-"%char)%bool then r else s
    | EmptyString => s
    end in
  let (ip, fp) :=
    match strings.cut "."%char body with
    | Some p => p
    | None => (body, EmptyString)
    end in
  if Nat.eqb (String.length ip + String.length fp) 0 then inl strconv.ErrSyntax
  else
    match number 0 (ip ++ fp) with
    | None => inl strconv.ErrSyntax
    | Some m => inr (mk (if neg then - m else m) (String.length fp))
    end.

Definition model : Float64Model :=
  {| float64 := t; float64_zero := mk 0 0; ParseFloat64 := Parse |}.

End decimal.

(** Case analysis on the tests of a decoding. *)
Ltac decode_tests :=
  repeat match goal with
         | |- context [if ?b then _ else _] => destruct b eqn:?
         end.


(** A string none of whose runes is white space. *)
Definition noSpace (s : string) : bool :=
  forallb (fun x => negb (strings.isSpace x)) (strings.runes s).

(** A field as [strings.Fields] returns them: not empty, no white space. *)
Definition isField (s : string) : bool :=
  (negb (String.eqb s EmptyString) && noSpace s)%bool.

(** A string that is empty or starts with a byte that starts a rune. *)
Definition startsRune (s : string) : bool :=
  match s with
  | EmptyString => true
  | String c _ => utf8.RuneStart c
  end.

Section Float.
Context {FM : Float64Model}.

(** The extraction methods of a [valueParser], the values they return, and a
    sequence of calls on one parser: the results in order and the parser
    after the last call. *)
Inductive call := CallInt | CallFloat64 | CallString.

Inductive value :=
| VInt (z : Z)
| VFloat64 (f : float64)
| VString (s : string).

Definition do_call (c : call) (vp : valueParser.t) : value * valueParser.t :=
  match c with
  | CallInt => let (v, vp') := valueParser.Int vp in (VInt v, vp')
  | CallFloat64 => let (v, vp') := valueParser.Float64 vp in (VFloat64 v, vp')
  | CallString => (VString (valueParser.String vp), vp)
  end.

Definition zero_value (c : call) : value :=
  match c with
  | CallInt => VInt 0
  | CallFloat64 => VFloat64 float64_zero
  | CallString => VString EmptyString
  end.

Fixpoint run_calls (cs : list call) (vp : valueParser.t)
  : list value * valueParser.t :=
  match cs with
  | [] => ([], vp)
  | c :: cs' =>
      let (v, vp1) := do_call c vp in
      let (vs, vp2) := run_calls cs' vp1 in
      (v :: vs, vp2)
  end.

(** The key/value segments that [parseStatus] hands to [Status.parse] for a
    line of fields [ss]: the line itself when one field ends in a colon, the
    two parts around [indices[0] + 2] when two do, none otherwise. *)
Definition line_segments (ss : list string) : option (list (list string)) :=
  let indices := indices_from 0 ss in
  match length indices with
  | 1 => Some [ss]
  | 2 => let next := nth 0 indices 0 + 2 in Some [firstn next ss; skipn next ss]
  | _ => None
  end.

(** [Status.parse] on each segment in turn, up to the first error. *)
Fixpoint parse_segments (s : Status.t) (segs : list (list string))
  : Status.t * option error :=
  match segs with
  | [] => (s, None)
  | seg :: segs' =>
      match Status.parse s seg with
      | (s', Some e) => (s', Some e)
      | (s', None) => parse_segments s' segs'
      end
  end.

(** The keys that the loop of [Status.parse] dispatches on the fields [ss]:
    for each index [i] of a field that ends in a colon, the fields up to it
    joined by single spaces.  The keys of a line are those of its segments,
    and the two keys that write [state] are the RSSI keys. *)
Definition segment_keys (ss : list string) : list string :=
  map (fun i => strings.Join (firstn (S i) ss) " ") (indices_from 0 ss).

Definition line_keys (l : string) : list string :=
  match line_segments (strings.Fields l) with
  | Some segs => flat_map segment_keys segs
  | None => []
  end.

Definition isRSSI (k : string) : bool :=
  (String.eqb k "PCC RxM RSSI:" || String.eqb k "PCC RxD RSSI:")%bool.

Definition no_RSSI (ks : list string) : bool :=
  forallb (fun k => negb (isRSSI k)) ks.

End Float.

(** White space beyond ASCII in UTF-8: the no-break space U+00A0, the line
    separator U+2028, and a byte that starts no rune. *)
Definition NBSP : string := String "194"%char (String "160"%char EmptyString).

Definition LineSeparator : string :=
  String "226"%char (String "128"%char (String "168"%char EmptyString)).

Definition StrayByte : string := String "160"%char EmptyString.

(** A transport that answers every command with the lines [ss]. *)
Definition device_of (ss : list string) : Device :=
  {| Command := fun _ => (ss, None) |}.

(** The responses of the MC7455 in the tests of the package, as the
    transport delivers them (no blank line, no final [OK]): the status
    response up to its RSRP lines, and the info response. *)
Definition MC7455_status : list string :=
  ["!GSTATUS:";
   "Current Time:  71465            Temperature: 41";
   "Reset Counter: 8                Mode:        ONLINE";
   "System mode:   LTE              PS state:    Attached";
   "LTE band:      B12              LTE bw:      5 MHz";
   "LTE Rx chan:   5035             LTE Tx chan: 23035";
   "LTE CA state:  NOT ASSIGNED";
   "EMM state:     Registered       Normal Service";
   "RRC state:     RRC Idle";
   "IMS reg state: No Srv";
   "PCC RxM RSSI:  -84              RSRP (dBm):  -113";
   "PCC RxD RSSI:  -84              RSRP (dBm):  -111"].

Definition MC7455_info : list string :=
  ["Manufacturer: Sierra Wireless, Incorporated";
   "Model: MC7455";
   "Revision: SWI9X30C_02.33.03.00 r8209 CARMD-EV-FRMWR2 2019/08/28 20:59:30";
   "MEID: 11111111111111";
   "IMEI: 111111111111110";
   "IMEI SV: 20";
   "FSN: ABCDEF12345678";
   "+GCAP: +CGSM"].

(** What a case of the switch of [Status.parse] can do to the value parser:
    nothing, or set the error of a failed conversion, and that only when no
    error was set. *)
Definition vp_step (vp vp' : valueParser.t) : Prop :=
  vp' = vp
  \/ (valueParser.err vp = None
      /\ exists f c,
           vp' = valueParser.mk (valueParser.ss vp)
                   (Some (NumError f (nth 0 (valueParser.ss vp) EmptyString) c))).

(** One case of a switch on the key [k] after the other: [tac] closes the
    case of the key at hand, the remaining keys stay in the goal. *)
Ltac switch_case k tac :=
  lazymatch goal with
  | |- context [String.eqb k ?lit] =>
      let E := fresh "E" in
      destruct (String.eqb k lit) eqn:E;
      [apply String.eqb_eq in E; tac E | apply String.eqb_neq in E]
  end.

(** Names the result of each call of an extraction method in the goal. *)
Ltac split_pair_lets :=
  repeat match goal with
    | |- context [let (_, _) := ?f ?vp in _] =>
        let H := fresh "Hcall" in destruct (f vp) as [? ?] eqn:H
    end.

(** A value parser on the fields [NOT ASSIGNED] after a call of [Int]. *)
Definition failed_parser : valueParser.t :=
  snd (valueParser.Int (valueParser.mk ["NOT"; "ASSIGNED"] None)).

(** ** The earlier revision of [device.go]

    [src/unnamed/part_001] opens with the revision of [device.go] in which
    [Status] has three fields and [Status.parse] converts the values by hand,
    reading [v[0]] without a check of the length: an access out of range is
    a run-time panic, the outcome [Panic] here.  Its [Device.Info] and
    [parseInfo] are those of [src/device.go]. *)
Module Earlier.

(** What a call that may panic leaves: its results, or the panic. *)
Inductive outcome (A : Type) : Type :=
| Done (a : A)
| Panic.

Arguments Done {A} a.
Arguments Panic {A}.

Module Status.

(** [type Status struct]: [CurrentTime time.Duration], [Temperature int],
    [ResetCounter int]. *)
Record t := mk {
  CurrentTime : time.Duration;
  Temperature : Z;
  ResetCounter : Z
}.

Definition set_CurrentTime (v : time.Duration) (s : t) : t :=
  mk v (Temperature s) (ResetCounter s).

Definition set_Temperature (v : Z) (s : t) : t :=
  mk (CurrentTime s) v (ResetCounter s).

(** [var s Status]. *)
Definition zero : t := mk 0%Z 0%Z 0%Z.

(** The loop [for i := range ss] of [Status.parse], from index [i] with [n]
    iterations left: the record as the call leaves it and the error it
    returns, or the panic of [v[0]] on an empty [v]. *)
Fixpoint parse_range (n i : nat) (s : t) (ss : list string)
  : outcome (t * option error) :=
  match n with
  | O => Done (s, None)
  | S n' =>
      if negb (strings.HasSuffix_colon (nth i ss EmptyString))
      then parse_range n' (S i) s ss
      else
        let k := strings.Join (firstn (S i) ss) " " in
        let v := skipn (S i) ss in
        if String.eqb k "Current Time:" then
          match v with
          | [] => Panic
          | v0 :: _ =>
              match strconv.Atoi v0 with
              | inl c => Done (s, Some (NumError "Atoi" v0 c))
              | inr x =>
                  parse_range n' (S i)
                    (set_CurrentTime (time.mul x time.Second) s) ss
              end
          end
        else if String.eqb k "Temperature:" then
          match v with
          | [] => Panic
          | v0 :: _ =>
              match strconv.Atoi v0 with
              | inl c => Done (s, Some (NumError "Atoi" v0 c))
              | inr x => parse_range n' (S i) (set_Temperature x s) ss
              end
          end
        else parse_range n' (S i) s ss
  end.

(** [func (s *Status) parse(ss []string) error]. *)
Definition parse (s : t) (ss : list string) : outcome (t * option error) :=
  parse_range (length ss) 0 s ss.

End Status.

(** The body of the loop of [parseStatus] for a line [l] that is not the
    first. *)
Definition parseStatus_line (s : Status.t) (l : string)
  : outcome (error + Status.t) :=
  let ss := strings.Fields l in
  let indices := indices_from 0 ss in
  match length indices with
  | 1 =>
      match Status.parse s ss with
      | Panic => Panic
      | Done (_, Some e) => Done (inl e)
      | Done (s1, None) => Done (inr s1)
      end
  | 2 =>
      let next := nth 0 indices 0 + 2 in
      match Status.parse s (firstn next ss) with
      | Panic => Panic
      | Done (_, Some e) => Done (inl e)
      | Done (s1, None) =>
          match Status.parse s1 (skipn next ss) with
          | Panic => Panic
          | Done (_, Some e) => Done (inl e)
          | Done (s2, None) => Done (inr s2)
          end
      end
  | n => Done (inl (ErrUnexpectedStatusLine n l))
  end.

(** The loop [for i, l := range lines] of [parseStatus], from index [i]. *)
Fixpoint parseStatus_range (i : nat) (s : Status.t) (lines : list string)
  : outcome (error + Status.t) :=
  match lines with
  | [] => Done (inr s)
  | l :: lines' =>
      if Nat.eqb i 0 then parseStatus_range (S i) s lines'
      else
        match parseStatus_line s l with
        | Panic => Panic
        | Done (inl e) => Done (inl e)
        | Done (inr s') => parseStatus_range (S i) s' lines'
        end
  end.

(** [func parseStatus(lines []string)], returning a [*Status] and an
    [error]. *)
Definition parseStatus (lines : list string) : outcome (error + Status.t) :=
  parseStatus_range 0 Status.zero lines.

(** [func (d *Device) Status()], returning a [*Status] and an [error]. *)
Definition Device_Status (d : Device) : outcome (error + Status.t) :=
  let (ss, err) := Command d "!GSTATUS?" in
  match err with
  | Some e => Done (inl e)
  | None =>
      if Nat.eqb (length ss) 0 then Done (inl ErrEmptyStatusResponse)
      else parseStatus ss
  end.

End Earlier.

(** The error that [parseInfo] returns for the line [l], whatever the record:
    the line has no colon, or its key is [IMEI SV] and its value, trimmed,
    is no integer. *)
Definition info_line_error (l : string) : option error :=
  match strings.cut ":"%char l with
  | None => Some (ErrMalformedInfoLine l)
  | Some (k, v) =>
      if String.eqb k "IMEI SV" then
        match strconv.Atoi (strings.TrimSpace v) with
        | inl c => Some (NumError "Atoi" (strings.TrimSpace v) c)
        | inr _ => None
        end
      else None
  end.

(** The switch of [parseInfo] on the key [k], with the value [v] that
    follows the colon, on the record [j]: the value is trimmed first. *)
Definition info_switch (k v : string) (j : Info.t) : error + Info.t :=
  let w := strings.TrimSpace v in
  if String.eqb k "Manufacturer" then inr (Info.set_Manufacturer w j)
  else if String.eqb k "Model" then inr (Info.set_Model w j)
  else if String.eqb k "Revision" then inr (Info.set_Revision w j)
  else if String.eqb k "IMEI" then inr (Info.set_IMEI w j)
  else if String.eqb k "MEID" then inr (Info.set_MEID w j)
  else if String.eqb k "IMEI SV" then
    match strconv.Atoi w with
    | inl c => inl (NumError "Atoi" w c)
    | inr x => inr (Info.set_IMEISV x j)
    end
  else if String.eqb k "FSN" then inr (Info.set_FSN w j)
  else if String.eqb k "+GCAP" then inr (Info.set_GCAP (strings.Split_comma w) j)
  else inr j.

Section Float.
Context {FM : Float64Model}.

(** The keys of [Status.parse] whose case is [s.F = vp.String()], each with
    the assignment to its field. *)
Definition string_cases : list (string * (string -> Status.t -> Status.t)) :=
  [("Mode:", Status.set_Mode); ("System mode:", Status.set_SystemMode);
   ("PS state:", Status.set_PSState); ("LTE band:", Status.set_LTEBand);
   ("LTE CA state:", Status.set_LTECAState);
   ("EMM state:", Status.set_EMMState); ("RRC state:", Status.set_RRCState);
   ("IMS reg state:", Status.set_IMSRegState); ("TAC:", Status.set_TAC);
   ("Cell ID:", Status.set_CellID)].

(** The keys whose case is [s.F = vp.Int()] and nothing else, each with the
    assignment to its field. *)
Definition int_cases : list (string * (Z -> Status.t -> Status.t)) :=
  [("Temperature:", Status.set_Temperature);
   ("Reset Counter:", Status.set_ResetCounter);
   ("LTE Rx chan:", Status.set_LTEReceiveChannel);
   ("LTE Tx chan:", Status.set_LTETransmitChannel);
   ("Tx Power:", Status.set_TransmitPower)].

End Float.

(** The key of an info line: the text before its first colon. *)
Definition info_line_key (l : string) : option string :=
  match strings.cut ":"%char l with
  | None => None
  | Some (k, _) => Some k
  end.

(** The last element of a line of fields ends in a colon. *)
Definition ends_with_key (ss : list string) : bool :=
  strings.HasSuffix_colon (last ss EmptyString).

(** The record that the later [parseStatus] returns on [MC7455_status], with
    the decimal numerals for its floating point fields. *)
Definition MC7455_record : @Status.t decimal.model :=
  @Status.mk decimal.model 71465000000000%Z 41%Z 8%Z "ONLINE" "LTE"
    "Attached" "B12" (decimal.mk 5 0) 5035%Z 23035%Z "NOT ASSIGNED"
    "Registered Normal Service" "RRC Idle" "No Srv" (-84)%Z (-113)%Z
    (-84)%Z (-111)%Z 0%Z EmptyString EmptyString (decimal.mk 0 0)
    (decimal.mk 0 0) rxdLast.

(** The status response of the MC7455 in the tests of the package, in full,
    as the transport delivers it. *)
Definition MC7455_status_full : list string :=
  MC7455_status
  ++ ["Tx Power:      --               TAC:         BEEF (12345)";
      "RSRQ (dB):     -13.5            Cell ID:     DEADBEEF (1234567)";
      "SINR (dB):      0.6"].

(** * Properties *)

(** ** The library functions and the parsers on the responses of the tests *)

Example Fields_splits_at_white_space :
  strings.Fields "Current Time:  71465   Temperature: 41"
  = ["Current"; "Time:"; "71465"; "Temperature:"; "41"]
  /\ strings.TrimSpace "  a b  " = "a b".
Proof. split; reflexivity. Qed.

(** White space is Unicode's: the runes of [unicode.IsSpace] separate fields
    and are trimmed, in their UTF-8 encoding; a byte that is not part of one
    is kept. *)
Example white_space_beyond_ASCII :
  strings.TrimSpace (NBSP ++ " huawei" ++ LineSeparator) = "huawei"
  /\ strings.TrimSpace (NBSP ++ StrayByte ++ " ") = StrayByte
  /\ strings.Fields ("Mode:" ++ NBSP ++ "ONLINE") = ["Mode:"; "ONLINE"]
  /\ strings.Fields ("a:" ++ NBSP ++ "b" ++ StrayByte ++ " c")
     = ["a:"; ("b" ++ StrayByte)%string; "c"]
  /\ newValueParser [(NBSP ++ "5")%string; "x "]
     = inr (valueParser.mk ["5"; "x"] None).
Proof. repeat split. Qed.

Example Atoi_reads_signed_decimals :
  strconv.Atoi "-113" = inr (-113)%Z
  /\ strconv.Atoi "--" = inl strconv.ErrSyntax
  /\ strconv.Atoi "9223372036854775808" = inl strconv.ErrRange
  /\ strconv.Atoi "-9223372036854775808" = inr (- 2 ^ 63)%Z
  /\ strconv.Atoi EmptyString = inl strconv.ErrSyntax.
Proof. repeat split; reflexivity. Qed.

Example Split_and_SplitN :
  strings.Split_comma "+CGSM,+DS,+ES" = ["+CGSM"; "+DS"; "+ES"]
  /\ strings.Split_comma EmptyString = [EmptyString]
  /\ strings.SplitN_colon_2 "IMEI SV: 20" = ["IMEI SV"; " 20"]
  /\ strings.SplitN_colon_2 "Manufacturer" = ["Manufacturer"].
Proof. repeat split; reflexivity. Qed.

Example parseInfo_MC7455 :
  parseInfo MC7455_info
  = inr (Info.mk "Sierra Wireless, Incorporated" "MC7455"
           "SWI9X30C_02.33.03.00 r8209 CARMD-EV-FRMWR2 2019/08/28 20:59:30"
           "111111111111110" "11111111111111" "ABCDEF12345678" 20%Z ["+CGSM"])
  /\ Legacy.parseInfo MC7455_info = parseInfo MC7455_info.
Proof. split; reflexivity. Qed.

Example parseStatus_MC7455 :
  @parseStatus decimal.model MC7455_status
  = inr (@Status.mk decimal.model 71465000000000%Z 41%Z 8%Z "ONLINE" "LTE"
           "Attached" "B12" (decimal.mk 5 0) 5035%Z 23035%Z "NOT ASSIGNED"
           "Registered Normal Service" "RRC Idle" "No Srv" (-84)%Z (-113)%Z
           (-84)%Z (-111)%Z 0%Z EmptyString EmptyString (decimal.mk 0 0)
           (decimal.mk 0 0) rxdLast).
Proof. reflexivity. Qed.

(** ** White space, fields and joins *)

(** ** Slices *)

Lemma upto_from (i : nat) (s : string) : (slice_to i s ++ slice_from i s)%string = s.
Proof.
  revert s. induction i as [|i IH]; intros [|c r]; simpl; try reflexivity.
  now rewrite IH.
Qed.

Lemma length_from (i : nat) (s : string) :
  String.length (slice_from i s) = String.length s - i.
Proof.
  revert s. induction i as [|i IH]; intros [|c r]; simpl; try reflexivity.
  apply IH.
Qed.

Lemma length_upto (i : nat) (s : string) :
  i <= String.length s -> String.length (slice_to i s) = i.
Proof.
  revert s. induction i as [|i IH]; intros [|c r]; simpl; try reflexivity; try lia.
  intros H. rewrite IH; lia.
Qed.

Lemma upto_length (i : nat) (s : string) :
  String.length s <= i -> slice_to i s = s.
Proof.
  revert s. induction i as [|i IH]; intros [|c r]; simpl; try reflexivity; try lia.
  intros H. rewrite IH; [reflexivity | lia].
Qed.

Lemma from_length (i : nat) (s : string) :
  String.length s <= i -> slice_from i s = EmptyString.
Proof.
  revert s. induction i as [|i IH]; intros [|c r]; simpl; try reflexivity; try lia.
  intros H. apply IH. lia.
Qed.

Lemma length_append (a b : string) :
  String.length (a ++ b) = String.length a + String.length b.
Proof. induction a as [|c a IH]; simpl; [reflexivity | now rewrite IH]. Qed.

Lemma append_nil_r (a : string) : (a ++ EmptyString)%string = a.
Proof. induction a as [|c a IH]; simpl; [reflexivity | now rewrite IH]. Qed.

Lemma append_assoc (a b c : string) :
  ((a ++ b) ++ c)%string = (a ++ (b ++ c))%string.
Proof. induction a as [|x a IH]; simpl; [reflexivity | now rewrite IH]. Qed.

Lemma append_inv_head (a b c : string) :
  (a ++ b)%string = (a ++ c)%string -> b = c.
Proof.
  induction a as [|x a IH]; simpl; [trivial|].
  intros H. injection H as H. now apply IH.
Qed.

Lemma from_app (i : nat) (a b : string) :
  i <= String.length a -> slice_from i (a ++ b) = (slice_from i a ++ b)%string.
Proof.
  revert a. induction i as [|i IH]; intros [|c r]; simpl; try reflexivity; try lia.
  intros H. apply IH. lia.
Qed.

Lemma upto_app (i : nat) (a b : string) :
  i <= String.length a -> slice_to i (a ++ b) = slice_to i a.
Proof.
  revert a. induction i as [|i IH]; intros [|c r]; simpl; try reflexivity; try lia.
  intros H. rewrite IH; [reflexivity | lia].
Qed.

Lemma byteAt_from (s : string) (i : nat) :
  i < String.length s -> exists r, slice_from i s = String (byteAt s i) r.
Proof.
  revert s. induction i as [|i IH]; intros [|c r]; simpl; try lia.
  - intros _. now exists r.
  - intros H. destruct (IH r) as [r' Hr']; [lia|]. exists r'.
    rewrite Hr'. unfold byteAt. simpl. reflexivity.
Qed.

(** ** Decoding one rune *)

Lemma RuneStart_outside (lo hi : N) (c : ascii) :
  utf8.RuneStart c = true -> (128 <= lo)%N -> (hi <= 191)%N ->
  utf8.inRange lo hi c = false.
Proof.
  unfold utf8.RuneStart, utf8.inRange. intros H Hlo Hhi.
  apply negb_true_iff in H. apply andb_false_iff in H. apply andb_false_iff.
  destruct H as [H|H]; [left|right]; apply N.leb_gt in H; apply N.leb_gt; lia.
Qed.

Lemma acceptLo_ge (s0 : N) : (128 <= utf8.acceptLo s0)%N.
Proof. unfold utf8.acceptLo. repeat destruct (_ =? _)%N; lia. Qed.

Lemma acceptHi_le (s0 : N) : (utf8.acceptHi s0 <= 191)%N.
Proof. unfold utf8.acceptHi. repeat destruct (_ =? _)%N; lia. Qed.

Lemma RuneStart_not_accepted (s0 : N) (c : ascii) :
  utf8.RuneStart c = true ->
  utf8.inRange (utf8.acceptLo s0) (utf8.acceptHi s0) c = false.
Proof.
  intros H. apply RuneStart_outside;
    [exact H | apply acceptLo_ge | apply acceptHi_le].
Qed.

Lemma RuneStart_not_continuation (c : ascii) :
  utf8.RuneStart c = true -> utf8.inRange 128 191 c = false.
Proof. intros H. apply RuneStart_outside; [exact H | lia | lia]. Qed.

(** A rune takes at least one byte and no more than the string has. *)
Lemma decode_width (c : ascii) (r : string) :
  1 <= snd (utf8.DecodeRuneInString (String c r))
  /\ snd (utf8.DecodeRuneInString (String c r)) <= String.length (String c r).
Proof.
  unfold utf8.DecodeRuneInString.
  destruct r as [|c1 [|c2 [|c3 r]]]; decode_tests; simpl; lia.
Qed.

(** What follows a string does not change its first rune, when it starts a
    rune of its own. *)
Lemma decode_app (a b : string) :
  a <> EmptyString -> startsRune b = true ->
  utf8.DecodeRuneInString (a ++ b) = utf8.DecodeRuneInString a.
Proof.
  intros Ha Hb. destruct a as [|c0 a]; [congruence|].
  destruct b as [|d b]; [now rewrite append_nil_r|].
  simpl in Hb.
  pose proof (RuneStart_not_continuation d Hb) as Hd.
  pose proof (fun s0 => RuneStart_not_accepted s0 d Hb) as Hd'.
  destruct a as [|c1 [|c2 [|c3 a]]]; simpl;
    try rewrite Hd'; try rewrite Hd; decode_tests;
    try reflexivity; try (simpl in *; discriminate).
Qed.

Lemma decode_ascii (c : ascii) (r : string) :
  (utf8.byte c <? utf8.RuneSelf)%N = true ->
  utf8.DecodeRuneInString (String c r) = (utf8.byte c, 1).
Proof. intros H. simpl. now rewrite H. Qed.

Lemma decode_one_byte (c : ascii) :
  (utf8.byte c <? utf8.RuneSelf)%N = false ->
  utf8.DecodeRuneInString (String c EmptyString) = (utf8.RuneError, 1).
Proof. intros H. simpl. rewrite H. now decode_tests. Qed.

Lemma IsSpace_RuneError : unicode.IsSpace utf8.RuneError = false.
Proof. reflexivity. Qed.

(** A white space rune starts with a byte that starts a rune. *)
Lemma decode_space_start (s : string) :
  unicode.IsSpace (fst (utf8.DecodeRuneInString s)) = true ->
  s <> EmptyString /\ startsRune s = true.
Proof.
  destruct s as [|c0 r]; [discriminate|].
  intros H. split; [discriminate|]. simpl.
  unfold utf8.RuneStart.
  destruct ((128 <=? utf8.byte c0)%N && (utf8.byte c0 <=? 191)%N)%bool eqn:Hc;
    [|reflexivity].
  apply andb_prop in Hc. destruct Hc as [H1 H2].
  apply N.leb_le in H1. apply N.leb_le in H2.
  simpl in H.
  replace (utf8.byte c0 <? utf8.RuneSelf)%N with false in H
    by (symmetry; apply N.ltb_ge; unfold utf8.RuneSelf; lia).
  replace (utf8.byte c0 <? 194)%N with true in H
    by (symmetry; apply N.ltb_lt; lia).
  discriminate.
Qed.

Lemma asciiSpace_IsSpace (c : ascii) :
  (utf8.byte c <? utf8.RuneSelf)%N = true ->
  unicode.IsSpace (utf8.byte c) = strings.asciiSpace c.
Proof.
  destruct c as [b0 b1 b2 b3 b4 b5 b6 b7].
  destruct b7; [discriminate ||
    (destruct b0, b1, b2, b3, b4, b5, b6; discriminate)|].
  intros _. destruct b0, b1, b2, b3, b4, b5, b6; reflexivity.
Qed.

Lemma asciiSpace_is_ascii (c : ascii) :
  strings.asciiSpace c = true -> (utf8.byte c <? utf8.RuneSelf)%N = true.
Proof.
  destruct c as [b0 b1 b2 b3 b4 b5 b6 b7].
  destruct b7; [|intros _; destruct b0, b1, b2, b3, b4, b5, b6; reflexivity].
  destruct b0, b1, b2, b3, b4, b5, b6; discriminate.
Qed.

(** ** The runes of a string *)

Lemma runes_from_more (n m : nat) (s : string) :
  String.length s <= n -> String.length s <= m ->
  strings.runes_from n s = strings.runes_from m s.
Proof.
  revert m s. induction n as [|n IH]; intros m s Hn Hm.
  - destruct s; [|simpl in Hn; lia]. now destruct m.
  - destruct s as [|c r]; [now destruct m|].
    destruct m as [|m]; [simpl in Hm; lia|].
    cbn [strings.runes_from].
    destruct (utf8.DecodeRuneInString (String c r)) as [rn w] eqn:Hd.
    pose proof (decode_width c r) as Hw. rewrite Hd in Hw.
    cbn [String.length snd] in Hw, Hn, Hm.
    f_equal. apply IH; rewrite length_from; cbn [String.length]; lia.
Qed.

Lemma runes_cons (c : ascii) (r : string) :
  strings.runes (String c r)
  = (fst (utf8.DecodeRuneInString (String c r)),
     slice_to (snd (utf8.DecodeRuneInString (String c r))) (String c r))
    :: strings.runes (slice_from (snd (utf8.DecodeRuneInString (String c r))) (String c r)).
Proof.
  unfold strings.runes at 1.
  change (String.length (String c r)) with (S (String.length r)).
  cbn [strings.runes_from].
  pose proof (decode_width c r) as Hw.
  destruct (utf8.DecodeRuneInString (String c r)) as [rn w] eqn:Hd.
  cbn [String.length snd] in Hw. cbn [fst snd]. f_equal.
  apply runes_from_more; rewrite length_from; cbn [String.length]; lia.
Qed.

Lemma runes_nil : strings.runes EmptyString = [].
Proof. reflexivity. Qed.

Lemma bytes_app (A B : list (N * string)) :
  strings.bytes (A ++ B) = (strings.bytes A ++ strings.bytes B)%string.
Proof.
  induction A as [|x A IH]; simpl; [reflexivity|].
  now rewrite IH, append_assoc.
Qed.

(** Induction on the length of a string. *)
Lemma string_length_ind (P : string -> Prop) :
  (forall s, (forall t, String.length t < String.length s -> P t) -> P s) ->
  forall s, P s.
Proof.
  intros H s. remember (String.length s) as n eqn:Hn.
  revert s Hn. induction n as [n IH] using lt_wf_ind.
  intros s Hn. apply H. intros t Ht. apply (IH (String.length t)); [lia|reflexivity].
Qed.

(** The bytes of the runes of a string are the string. *)
Lemma bytes_runes (s : string) : strings.bytes (strings.runes s) = s.
Proof.
  induction s as [s IH] using string_length_ind.
  destruct s as [|c r]; [reflexivity|].
  rewrite runes_cons. cbn [strings.bytes fold_right snd].
  pose proof (decode_width c r) as Hw.
  change (fold_right (fun x acc => (snd x ++ acc)%string) EmptyString
            (strings.runes (slice_from (snd (utf8.DecodeRuneInString (String c r))) (String c r))))
    with (strings.bytes (strings.runes (slice_from (snd (utf8.DecodeRuneInString (String c r))) (String c r)))).
  rewrite IH; [apply upto_from|].
  rewrite length_from. simpl String.length. lia.
Qed.

(** No rune of a string is empty. *)
Lemma runes_not_empty (s : string) :
  Forall (fun x => snd x <> EmptyString) (strings.runes s).
Proof.
  induction s as [s IH] using string_length_ind.
  destruct s as [|c r]; [constructor|].
  rewrite runes_cons.
  pose proof (decode_width c r) as Hw.
  constructor.
  - cbn [snd]. destruct (snd (utf8.DecodeRuneInString (String c r))); [lia|].
    discriminate.
  - apply IH. rewrite length_from. simpl String.length. lia.
Qed.

(** The runes of a string that is followed by the start of a rune. *)
Lemma runes_app (a b : string) :
  startsRune b = true ->
  strings.runes (a ++ b) = strings.runes a ++ strings.runes b.
Proof.
  intros Hb. induction a as [a IH] using string_length_ind.
  destruct a as [|c r]; [reflexivity|].
  change ((String c r ++ b)%string) with (String c (r ++ b)).
  rewrite (runes_cons c (r ++ b)), (runes_cons c r).
  change (String c (r ++ b)) with ((String c r ++ b)%string).
  rewrite (decode_app (String c r) b); [|discriminate|exact Hb].
  pose proof (decode_width c r) as Hw.
  rewrite upto_app, from_app by lia.
  rewrite IH; [reflexivity|].
  rewrite length_from. simpl String.length. lia.
Qed.

(** The runes from one rune of the string on are the runes of the bytes
    from there on. *)
Lemma runes_suffix (s : string) (P Q : list (N * string)) :
  strings.runes s = P ++ Q -> strings.runes (strings.bytes Q) = Q.
Proof.
  revert s. induction P as [|x P IH]; intros s H.
  - simpl in H. rewrite <- H. now rewrite bytes_runes.
  - destruct s as [|c r]; [discriminate|].
    rewrite runes_cons in H. simpl in H. injection H as _ H.
    exact (IH _ H).
Qed.

Lemma startsRune_space (L : list (N * string)) :
  strings.runes (strings.bytes L) = L ->
  match L with
  | x :: _ => strings.isSpace x = true
  | [] => True
  end ->
  startsRune (strings.bytes L) = true.
Proof.
  destruct L as [|x L]; [reflexivity|].
  intros HL Hx.
  destruct (strings.bytes (x :: L)) as [|c r] eqn:Hs; [reflexivity|].
  rewrite runes_cons in HL. injection HL as Hx' _.
  apply (decode_space_start (String c r)).
  unfold strings.isSpace in Hx. rewrite <- Hx' in Hx. exact Hx.
Qed.

(** The runes before a white space rune, or before the end, are the runes of
    their bytes. *)
Lemma runes_prefix (s : string) (P Q : list (N * string)) :
  strings.runes s = P ++ Q ->
  match Q with
  | x :: _ => strings.isSpace x = true
  | [] => True
  end ->
  strings.runes (strings.bytes P) = P.
Proof.
  intros H HQ.
  pose proof (runes_suffix _ _ _ H) as HQ'.
  pose proof (startsRune_space _ HQ' HQ) as Hst.
  pose proof (bytes_runes s) as Hs. rewrite H, bytes_app in Hs.
  rewrite <- Hs in H. rewrite (runes_app _ _ Hst), HQ' in H.
  now apply app_inv_tail in H.
Qed.

(** ** Fields *)

Lemma runes_ascii (s : string) :
  strings.allASCII s = true ->
  strings.runes s
  = map (fun c => (utf8.byte c, String c EmptyString)) (list_ascii_of_string s).
Proof.
  induction s as [|c r IH]; [reflexivity|].
  simpl. intros H. apply andb_prop in H. destruct H as [Hc Hr].
  rewrite runes_cons, (decode_ascii c r Hc). cbn [fst snd slice_to slice_from].
  now rewrite (IH Hr).
Qed.

Lemma spans_ascii (l : list ascii) (start : option string) :
  Forall (fun c => (utf8.byte c <? utf8.RuneSelf)%N = true) l ->
  strings.spans _ strings.isSpace snd start
    (map (fun c => (utf8.byte c, String c EmptyString)) l)
  = strings.spans _ strings.asciiSpace (fun c => String c EmptyString) start l.
Proof.
  intros H. revert start.
  induction H as [|c l Hc _ IH]; intros start; [reflexivity|].
  cbn [map strings.spans]. unfold strings.isSpace at 1. cbn [fst snd].
  rewrite (asciiSpace_IsSpace c Hc), !IH. reflexivity.
Qed.

Lemma allASCII_Forall (s : string) :
  strings.allASCII s = true ->
  Forall (fun c => (utf8.byte c <? utf8.RuneSelf)%N = true)
    (list_ascii_of_string s).
Proof.
  induction s as [|c r IH]; simpl; [constructor|].
  intros H. apply andb_prop in H. destruct H as [Hc Hr].
  constructor; [exact Hc | exact (IH Hr)].
Qed.

(** The two paths of [strings.Fields] give the same fields. *)
Lemma Fields_FieldsFunc (s : string) :
  strings.Fields s = strings.FieldsFunc_IsSpace s.
Proof.
  unfold strings.Fields, strings.FieldsFunc_IsSpace.
  destruct (strings.allASCII s) eqn:Hs; [|reflexivity].
  rewrite (runes_ascii s Hs).
  symmetry. apply spans_ascii. now apply allASCII_Forall.
Qed.

Lemma noSpace_bytes (G : list (N * string)) :
  strings.runes (strings.bytes G) = G ->
  forallb (fun x => negb (strings.isSpace x)) G = true ->
  G <> [] ->
  isField (strings.bytes G) = true.
Proof.
  intros HG Hns Hne. unfold isField, noSpace. rewrite HG, Hns.
  destruct (strings.bytes G) eqn:Hb; [|reflexivity].
  rewrite ?Hb in HG.
  change (strings.runes EmptyString) with (@nil (N * string)) in HG.
  congruence.
Qed.

Lemma spans_fields (L : list (N * string)) :
  (strings.runes (strings.bytes L) = L ->
   Forall (fun t => isField t = true)
     (strings.spans _ strings.isSpace snd None L))
  /\ (forall G,
         G <> [] -> forallb (fun x => negb (strings.isSpace x)) G = true ->
         strings.runes (strings.bytes (G ++ L)) = G ++ L ->
         Forall (fun t => isField t = true)
           (strings.spans _ strings.isSpace snd (Some (strings.bytes G)) L)).
Proof.
  induction L as [|x L [IH1 IH2]].
  - split; [constructor|].
    intros G HG Hns HL. rewrite app_nil_r in HL.
    repeat constructor. now apply noSpace_bytes.
  - assert (Htl : forall P, strings.runes (strings.bytes (P ++ x :: L)) = P ++ x :: L ->
                            strings.runes (strings.bytes L) = L).
    { intros P HP.
      apply (runes_suffix (strings.bytes (P ++ x :: L)) (P ++ [x]) L).
      now rewrite <- app_assoc. }
    split.
    + intros HL. cbn [strings.spans].
      destruct (strings.isSpace x) eqn:Hx.
      * apply IH1. exact (Htl [] HL).
      * replace (snd x) with (strings.bytes [x])
          by (simpl; apply append_nil_r).
        apply IH2; [discriminate | simpl; now rewrite Hx | exact HL].
    + intros G HG Hns HL. cbn [strings.spans].
      destruct (strings.isSpace x) eqn:Hx.
      * constructor.
        -- apply noSpace_bytes; [|exact Hns|exact HG].
           apply (runes_prefix _ G (x :: L) HL). exact Hx.
        -- apply IH1. exact (Htl G HL).
      * replace ((strings.bytes G ++ snd x)%string) with (strings.bytes (G ++ [x]))
          by (rewrite bytes_app; simpl; now rewrite append_nil_r).
        apply IH2.
        -- destruct G; discriminate.
        -- rewrite forallb_app, Hns. simpl. now rewrite Hx.
        -- now rewrite <- app_assoc.
Qed.

(** Every string that [strings.Fields] returns is a field. *)
Lemma Fields_isField (s : string) :
  Forall (fun t => isField t = true) (strings.Fields s).
Proof.
  rewrite Fields_FieldsFunc. apply spans_fields. now rewrite bytes_runes.
Qed.

Lemma spans_run (G L : list (N * string)) (acc : string) :
  forallb (fun x => negb (strings.isSpace x)) G = true ->
  strings.spans _ strings.isSpace snd (Some acc) (G ++ L)
  = strings.spans _ strings.isSpace snd (Some (acc ++ strings.bytes G)%string) L.
Proof.
  revert acc. induction G as [|x G IH]; intros acc H.
  - simpl. now rewrite append_nil_r.
  - simpl in H. apply andb_prop in H. destruct H as [Hx HG].
    apply negb_true_iff in Hx.
    cbn [app strings.spans]. rewrite Hx, (IH _ HG).
    cbn [strings.bytes fold_right]. now rewrite append_assoc.
Qed.

Lemma spans_of_field (t : string) (L : list (N * string)) :
  isField t = true ->
  strings.spans _ strings.isSpace snd None (strings.runes t ++ L)
  = strings.spans _ strings.isSpace snd (Some t) L.
Proof.
  unfold isField, noSpace. intros H. apply andb_prop in H.
  destruct H as [Hne Hns].
  pose proof (bytes_runes t) as Hb.
  destruct (strings.runes t) as [|x G] eqn:HG.
  - simpl in Hb. subst t. discriminate.
  - simpl in Hns. apply andb_prop in Hns. destruct Hns as [Hx HG'].
    apply negb_true_iff in Hx.
    cbn [app strings.spans]. rewrite Hx, (spans_run _ _ _ HG').
    now rewrite <- Hb.
Qed.

Lemma Fields_of_field (t : string) :
  isField t = true -> strings.Fields t = [t].
Proof.
  intros H. rewrite Fields_FieldsFunc. unfold strings.FieldsFunc_IsSpace.
  rewrite <- (app_nil_r (strings.runes t)). now rewrite (spans_of_field _ _ H).
Qed.

Lemma Fields_field_space (t r : string) :
  isField t = true ->
  strings.Fields (t ++ String " "%char r) = t :: strings.Fields r.
Proof.
  intros H. rewrite !Fields_FieldsFunc. unfold strings.FieldsFunc_IsSpace.
  rewrite runes_app by reflexivity.
  rewrite (spans_of_field _ _ H), runes_cons.
  reflexivity.
Qed.

(** Joining fields with single spaces loses nothing: splitting the result
    at white space gives the fields back, in order. *)
Lemma Fields_Join (ss : list string) :
  Forall (fun t => isField t = true) ss ->
  strings.Fields (strings.Join ss " ") = ss.
Proof.
  unfold strings.Join.
  induction 1 as [|t ts Ht Hts IH]; [reflexivity|].
  destruct ts as [|t' ts'].
  - simpl. now apply Fields_of_field.
  - change (String.concat " " (t :: t' :: ts'))
      with ((t ++ String " "%char (String.concat " " (t' :: ts')))%string).
    rewrite (Fields_field_space _ _ Ht). now rewrite IH.
Qed.

(** ** Trimming *)


(** The last rune of a string of which no rune is white space. *)
Lemma runes_last (a e : string) (r : N) :
  e <> EmptyString -> startsRune e = true ->
  utf8.DecodeRuneInString e = (r, String.length e) ->
  strings.runes (a ++ e) = strings.runes a ++ [(r, e)].
Proof.
  intros He Hst Hd. rewrite (runes_app _ _ Hst). f_equal.
  destruct e as [|c e']; [congruence|].
  rewrite runes_cons, Hd. cbn [fst snd].
  rewrite upto_length by lia.
  now rewrite from_length by lia.
Qed.

Lemma noSpace_last (a e : string) (r : N) :
  noSpace (a ++ e) = true ->
  e <> EmptyString -> startsRune e = true ->
  utf8.DecodeRuneInString e = (r, String.length e) ->
  unicode.IsSpace r = false.
Proof.
  unfold noSpace. intros H He Hst Hd.
  rewrite (runes_last a e r He Hst Hd), forallb_app in H.
  apply andb_prop in H. destruct H as [_ H]. simpl in H.
  rewrite andb_true_r in H. now apply negb_true_iff in H.
Qed.

Lemma lastStart_lt (s : string) (fuel start lim n : nat) :
  start < n -> lim < n -> utf8.lastStart s fuel start lim < n.
Proof.
  revert start. induction fuel as [|f IH]; intros start Hs Hl; simpl; [exact Hl|].
  destruct (Nat.leb start lim); [exact Hl|].
  destruct (utf8.RuneStart _); [lia|]. apply IH; lia.
Qed.

Lemma highAt_from (s : string) (i : nat) (c : ascii) (r : string) :
  slice_from i s = String c r ->
  strings.highAt s i = (utf8.RuneSelf <=? utf8.byte c)%N
  /\ byteAt s i = c.
Proof.
  revert s. induction i as [|i IH]; intros [|c' r'] H; try discriminate.
  - simpl in H. injection H as -> ->. split; reflexivity.
  - simpl in H. apply IH in H. exact H.
Qed.

Lemma from_not_empty (s : string) (i : nat) :
  i < String.length s -> slice_from i s <> EmptyString.
Proof.
  intros H E. pose proof (length_from i s) as HL. rewrite E in HL.
  simpl in HL. lia.
Qed.

(** The last rune of a string: its size, where it starts, and that the rune
    found from its first byte on is the same. *)
Lemma DecodeLast_spec (t : string) :
  t <> EmptyString ->
  let r := fst (utf8.DecodeLastRuneInString t) in
  let size := snd (utf8.DecodeLastRuneInString t) in
  1 <= size /\ size <= String.length t
  /\ (unicode.IsSpace r = true ->
      startsRune (slice_from (String.length t - size) t) = true
      /\ utf8.DecodeRuneInString (slice_from (String.length t - size) t) = (r, size))
  /\ (strings.highAt t (String.length t - size) = true ->
      snd (utf8.DecodeRuneInString (slice_from (String.length t - size) t)) = size)
  /\ (strings.highAt t (String.length t - size) = false -> size = 1).
Proof.
  intros Ht. unfold utf8.DecodeLastRuneInString.
  destruct (String.length t) as [|n] eqn:Hn; [destruct t; [congruence|discriminate]|].
  assert (Hlast : exists c, slice_from n t = String c EmptyString /\ byteAt t n = c).
  { destruct (byteAt_from t n) as [r Hr]; [lia|].
    exists (byteAt t n). split; [|reflexivity].
    pose proof (length_from n t) as HL. rewrite Hr, Hn in HL.
    destruct r; [exact Hr | cbn [String.length] in HL; lia]. }
  destruct Hlast as [c [Hc Hc']]. rewrite Hc'.
  destruct (utf8.byte c <? utf8.RuneSelf)%N eqn:Hlow.
  - cbn [fst snd]. replace (S n - 1) with n by lia. rewrite Hc.
    destruct (highAt_from _ _ _ _ Hc) as [Hh _]. rewrite Hh.
    repeat split; try lia.
    + simpl. unfold utf8.RuneStart.
      apply N.ltb_lt in Hlow. unfold utf8.RuneSelf in Hlow.
      replace (128 <=? utf8.byte c)%N with false; [reflexivity|].
      symmetry. apply N.leb_gt. lia.
    + now apply decode_ascii.
    + intros _. now rewrite (decode_ascii _ _ Hlow).
  - set (start := utf8.lastStart t utf8.UTFMax n (S n - utf8.UTFMax)).
    assert (Hst : start < S n).
    { apply lastStart_lt; [lia | unfold utf8.UTFMax; lia]. }
    destruct (utf8.DecodeRuneInString (slice_from start t)) as [r size] eqn:Hd.
    assert (Hne : slice_from start t <> EmptyString) by (apply from_not_empty; lia).
    destruct (slice_from start t) as [|c0 r0] eqn:Hf; [congruence|].
    pose proof (decode_width c0 r0) as Hw. rewrite Hd in Hw. cbn [snd] in Hw.
    pose proof (length_from start t) as HL. rewrite Hf, Hn in HL.
    destruct (Nat.eqb (start + size) (S n)) eqn:He.
    + apply Nat.eqb_eq in He. cbn [fst snd].
      replace (S n - size) with start by lia. rewrite Hf.
      repeat split; try lia.
      * apply (decode_space_start (String c0 r0)). now rewrite Hd.
      * exact Hd.
      * intros _. now rewrite Hd.
      * intros Hh. destruct (highAt_from _ _ _ _ Hf) as [Hh' _].
        rewrite Hh' in Hh. apply N.leb_gt in Hh.
        rewrite decode_ascii in Hd by (now apply N.ltb_lt).
        now injection Hd as _ <-.
    + cbn [fst snd]. replace (S n - 1) with n by lia. rewrite Hc.
      repeat split; try lia.
      * discriminate.
      * discriminate.
      * intros _. now rewrite (decode_one_byte _ Hlow).
Qed.

Lemma upto_0 (s : string) : slice_to 0 s = EmptyString.
Proof. now destruct s. Qed.

(** [TrimRightFunc] and [TrimLeftFunc] keep a string of which no rune is
    white space. *)
Lemma TrimRightFunc_noSpace (t : string) :
  noSpace t = true -> strings.TrimRightFunc_IsSpace t = t.
Proof.
  intros H. unfold strings.TrimRightFunc_IsSpace.
  destruct t as [|c0 t0]; [reflexivity|].
  set (t := String c0 t0) in *.
  assert (Ht : t <> EmptyString) by discriminate.
  destruct (DecodeLast_spec t Ht) as [H1 [H2 [H3 [H4 H5]]]].
  change (String.length t) with (S (String.length t0)) at 1 2.
  cbn [strings.lastIndexFunc_from].
  change (S (String.length t0)) with (String.length t).
  rewrite (upto_length (String.length t) t) by lia.
  destruct (utf8.DecodeLastRuneInString t) as [r size] eqn:Hd.
  cbn [fst snd] in *.
  assert (Hr : unicode.IsSpace r = false).
  { destruct (unicode.IsSpace r) eqn:Hr; [|reflexivity].
    destruct (H3 eq_refl) as [Hst Hdec].
    remember (slice_from (String.length t - size) t) as e eqn:He.
    assert (Hlen : String.length e = size)
      by (subst e; rewrite length_from; lia).
    assert (Hsplit : t = (slice_to (String.length t - size) t ++ e)%string)
      by (subst e; symmetry; apply upto_from).
    rewrite Hsplit in H. rewrite <- Hr.
    apply (noSpace_last _ e r H); [|exact Hst|now rewrite Hlen].
    intros E. rewrite E in Hlen. simpl in Hlen. lia. }
  rewrite Hr.
  assert (Hhigh : strings.highAt t (String.length t - size)
                  = (utf8.RuneSelf <=? utf8.byte (byteAt t (String.length t - size)))%N).
  { destruct (byteAt_from t (String.length t - size)) as [r' Hr']; [lia|].
    now destruct (highAt_from _ _ _ _ Hr') as [-> _]. }
  rewrite <- Hhigh.
  destruct (strings.highAt t (String.length t - size)) eqn:Hh.
  - rewrite (H4 eq_refl). apply upto_length. lia.
  - rewrite (H5 eq_refl). apply upto_length. lia.
Qed.

Lemma TrimLeftFunc_noSpace (t : string) :
  noSpace t = true -> strings.TrimLeftFunc_IsSpace t = t.
Proof.
  unfold noSpace, strings.TrimLeftFunc_IsSpace. intros H.
  rewrite <- (bytes_runes t) at 2. f_equal.
  destruct (strings.runes t) as [|x L]; [reflexivity|].
  simpl in H. apply andb_prop in H. destruct H as [Hx _].
  apply negb_true_iff in Hx. simpl. now rewrite Hx.
Qed.

Lemma noSpace_first (c : ascii) (r : string) :
  noSpace (String c r) = true -> strings.asciiSpace c = false.
Proof.
  unfold noSpace. intros H.
  destruct (strings.asciiSpace c) eqn:Hc; [|reflexivity].
  pose proof (asciiSpace_is_ascii c Hc) as Hlow.
  rewrite runes_cons, (decode_ascii c r Hlow) in H.
  cbn [forallb fst snd] in H. unfold strings.isSpace in H at 1.
  cbn [fst] in H. rewrite (asciiSpace_IsSpace c Hlow), Hc in H. discriminate.
Qed.

Lemma noSpace_last_byte (a : string) (c : ascii) :
  noSpace (a ++ String c EmptyString) = true -> strings.asciiSpace c = false.
Proof.
  intros H. destruct (strings.asciiSpace c) eqn:Hc; [|reflexivity].
  pose proof (asciiSpace_is_ascii c Hc) as Hlow.
  rewrite <- Hc, <- (asciiSpace_IsSpace c Hlow).
  apply (noSpace_last a (String c EmptyString) _ H); [discriminate| |].
  - simpl. unfold utf8.RuneStart. apply N.ltb_lt in Hlow.
    unfold utf8.RuneSelf in Hlow.
    replace (128 <=? utf8.byte c)%N with false; [reflexivity|].
    symmetry. apply N.leb_gt. lia.
  - now apply decode_ascii.
Qed.

Lemma trimRight_keeps (t : string) :
  (forall a c, t = (a ++ String c EmptyString)%string ->
               strings.asciiSpace c = false) ->
  strings.trimRight t = t.
Proof.
  induction t as [|c r IH]; [reflexivity|].
  intros H. cbn [strings.trimRight].
  destruct r as [|c' r'].
  - simpl. now rewrite (H EmptyString c eq_refl).
  - rewrite IH; [reflexivity|].
    intros a d E. apply (H (String c a) d). simpl. now rewrite E.
Qed.

(** [TrimSpace] keeps a field. *)
Lemma TrimSpace_isField (s : string) :
  isField s = true -> strings.TrimSpace s = s.
Proof.
  unfold isField. intros H. apply andb_prop in H. destruct H as [Hne Hns].
  destruct s as [|c r]; [discriminate|].
  unfold strings.TrimSpace.
  assert (Hl : strings.trimLeft (String c r) = String c r)
    by (simpl; now rewrite (noSpace_first c r Hns)).
  rewrite Hl.
  destruct (strings.highAt (String c r) 0).
  - now rewrite (TrimLeftFunc_noSpace _ Hns), (TrimRightFunc_noSpace _ Hns).
  - assert (Hr : strings.trimRight (String c r) = String c r).
    { apply trimRight_keeps. intros a d E. rewrite E in Hns.
      exact (noSpace_last_byte a d Hns). }
    rewrite Hr.
    destruct (strings.highAt _ _); [now apply TrimRightFunc_noSpace | reflexivity].
Qed.

Lemma map_TrimSpace_fields (ss : list string) :
  Forall (fun t => isField t = true) ss -> map strings.TrimSpace ss = ss.
Proof.
  induction 1 as [|t ts Ht _ IH]; simpl; [reflexivity|].
  now rewrite IH, (TrimSpace_isField _ Ht).
Qed.

(** ** The value parser *)

Section Float.
Context {FM : Float64Model}.

Lemma Int_cases (vp : valueParser.t) :
  valueParser.Int vp = (0%Z, vp) /\ valueParser.err vp <> None
  \/ (exists v, valueParser.Int vp = (v, vp) /\ valueParser.err vp = None
                /\ strconv.Atoi (nth 0 (valueParser.ss vp) EmptyString) = inr v)
  \/ (exists c, valueParser.Int vp
                = (0%Z, valueParser.mk (valueParser.ss vp)
                          (Some (NumError "Atoi" (nth 0 (valueParser.ss vp) EmptyString) c)))
                /\ valueParser.err vp = None).
Proof.
  unfold valueParser.Int. destruct (valueParser.err vp) eqn:He.
  - left. split; [reflexivity|discriminate].
  - destruct (strconv.Atoi _) as [c|v] eqn:Ha.
    + right; right. exists c. now split.
    + right; left. exists v. now repeat split.
Qed.

Lemma Float64_cases (vp : valueParser.t) :
  valueParser.Float64 vp = (float64_zero, vp) /\ valueParser.err vp <> None
  \/ (exists v, valueParser.Float64 vp = (v, vp) /\ valueParser.err vp = None)
  \/ (exists c, valueParser.Float64 vp
                = (float64_zero,
                   valueParser.mk (valueParser.ss vp)
                     (Some (NumError "ParseFloat" (nth 0 (valueParser.ss vp) EmptyString) c)))
                /\ valueParser.err vp = None).
Proof.
  unfold valueParser.Float64. destruct (valueParser.err vp) eqn:He.
  - left. split; [reflexivity|discriminate].
  - destruct (ParseFloat64 _) as [c|v] eqn:Ha.
    + right; right. exists c. now split.
    + right; left. exists v. now split.
Qed.

(** The index [vp.ss[0]] of [Int] is in range for every parser that the
    constructor returns. *)
Lemma newValueParser_nonempty (ss : list string) (vp : valueParser.t) :
  newValueParser ss = inr vp ->
  valueParser.ss vp <> [] /\ valueParser.err vp = None
  /\ length (valueParser.ss vp) = length ss.
Proof.
  unfold newValueParser. destruct ss as [|t ts]; simpl; [discriminate|].
  intros H. injection H as <-. simpl. rewrite length_map.
  repeat split. discriminate.
Qed.

Lemma do_call_sticky (c : call) (vp : valueParser.t) (e : error) :
  valueParser.err vp = Some e -> do_call c vp = (zero_value c, vp).
Proof.
  intros He. destruct c; unfold do_call, valueParser.Int, valueParser.Float64,
    valueParser.String; rewrite He; reflexivity.
Qed.

(** The parsers behind [Device.Info] and [Device.Status] accept the empty
    response themselves: the check for it is in the two methods. *)
Lemma parse_of_no_lines :
  parseInfo [] = inr Info.zero /\ Legacy.parseInfo [] = inr Info.zero
  /\ parseStatus [] = inr Status.zero.
Proof. repeat split. Qed.

(** C1. When the transport answers with no line and no error, [Device.Info]
    (in both revisions) and [Device.Status] return no record and the error
    of an empty response. *)
Theorem empty_response_fails (d : Device) :
  (Command d "I" = ([], None) ->
   Device_Info d = inl ErrEmptyInfoResponse
   /\ Legacy.Device_Info d = inl ErrEmptyInfoResponse
   /\ kind_of ErrEmptyInfoResponse = EmptyResponse)
  /\ (Command d "!GSTATUS?" = ([], None) ->
      Device_Status d = inl ErrEmptyStatusResponse
      /\ kind_of ErrEmptyStatusResponse = EmptyResponse).
Proof.
  split; intros H.
  - unfold Device_Info, Legacy.Device_Info. rewrite H. now repeat split.
  - unfold Device_Status. rewrite H. now split.
Qed.

(** C2. Once the error of a value parser is set, every extraction call, in
    any number and order, returns the zero value of its type (0 for [Int],
    the empty string for [String], the zero of [float64] for [Float64]) and
    leaves the parser, its error included, as it was. *)
Theorem sticky_error_is_kept (vp : valueParser.t) (e : error) (cs : list call) :
  valueParser.err vp = Some e ->
  run_calls cs vp = (map zero_value cs, vp)
  /\ valueParser.Err (snd (run_calls cs vp)) = Some e
  /\ valueParser.Int vp = (0%Z, vp)
  /\ valueParser.String vp = EmptyString
  /\ valueParser.Float64 vp = (float64_zero, vp).
Proof.
  intros He.
  assert (Hrun : run_calls cs vp = (map zero_value cs, vp)).
  { induction cs as [|c cs IH]; simpl; [reflexivity|].
    now rewrite (do_call_sticky c vp e He), IH. }
  rewrite Hrun. simpl.
  unfold valueParser.Err, valueParser.Int, valueParser.String,
    valueParser.Float64.
  rewrite He. repeat split.
Qed.

(** C3.  The constructor refuses the empty slice with the error for missing
    values; given one string or more it succeeds and holds every string in
    order, each with its leading and trailing white space removed, so that
    the trimmed strings that the constructor is specified for are all held
    as they are, in order.  ([newValueParser] is total: it reads [ss] only
    through [len] and [range].) *)
Theorem newValueParser_keeps_trimmed_tokens :
  newValueParser [] = inl ErrNoValues
  /\ kind_of ErrNoValues = EmptyInput
  /\ (forall t ts,
        newValueParser (t :: ts)
        = inr (valueParser.mk (map strings.TrimSpace (t :: ts)) None))
  /\ (forall t ts,
        Forall (fun x => strings.TrimSpace x = x) (t :: ts) ->
        newValueParser (t :: ts) = inr (valueParser.mk (t :: ts) None)).
Proof.
  repeat split; try reflexivity.
  intros t ts H. unfold newValueParser. cbn [length Nat.eqb].
  f_equal. f_equal.
  induction H as [|x xs Hx _ IH]; simpl; [reflexivity|].
  now rewrite Hx, IH.
Qed.

(** C8 (amended).  On a parser with no error set [String] returns the
    strings joined by single spaces, in order (for fields, splitting the
    result at white space gives them back); on a parser whose error is set
    it returns the empty string; in both cases the call leaves the parser,
    and so its error, as it was. *)
Theorem String_joins_unless_failed (vp : valueParser.t) :
  (valueParser.err vp = None ->
   valueParser.String vp = strings.Join (valueParser.ss vp) " "
   /\ (Forall (fun t => isField t = true) (valueParser.ss vp) ->
       strings.Fields (valueParser.String vp) = valueParser.ss vp))
  /\ (forall e, valueParser.err vp = Some e ->
                valueParser.String vp = EmptyString)
  /\ snd (do_call CallString vp) = vp.
Proof.
  unfold valueParser.String. split; [|split].
  - intros He. rewrite He. split; [reflexivity|].
    intros Hf. now apply Fields_Join.
  - intros e He. now rewrite He.
  - reflexivity.
Qed.

(** ** [Status.parse] *)

Lemma Int_step (vp vp' : valueParser.t) (v : Z) :
  valueParser.Int vp = (v, vp') -> vp_step vp vp'.
Proof.
  intros H.
  destruct (Int_cases vp) as [[E _]|[[v' [E _]]|[c [E He]]]];
    rewrite E in H; injection H as _ <-; [now left|now left|].
  right. split; [exact He|]. now exists "Atoi", c.
Qed.

Lemma Float64_step (vp vp' : valueParser.t) (v : float64) :
  valueParser.Float64 vp = (v, vp') -> vp_step vp vp'.
Proof.
  intros H.
  destruct (Float64_cases vp) as [[E _]|[[v' [E _]]|[c [E He]]]];
    rewrite E in H; injection H as _ <-; [now left|now left|].
  right. split; [exact He|]. now exists "ParseFloat", c.
Qed.

Lemma vp_step_refl (vp : valueParser.t) : vp_step vp vp.
Proof. now left. Qed.

(** A key of no case leaves the record and the value parser as they are. *)
Lemma parse_switch_unknown (s : Status.t) (k : string) (vp : valueParser.t) :
  ~ In k Status.keys -> Status.parse_switch s k vp = (s, vp, None).
Proof.
  intros Hk. unfold Status.parse_switch.
  repeat switch_case k
    ltac:(fun E => exfalso; apply Hk; rewrite E; unfold Status.keys;
                   cbn [In]; tauto).
  reflexivity.
Qed.

(** The switch returns from inside for one reason only: the key
    [RSRP (dBm):] while [state] has its zero value. *)
Lemma parse_switch_spec (s s' : Status.t) (k : string) (vp vp' : valueParser.t)
  (oe : option error) :
  Status.parse_switch s k vp = (s', vp', oe) ->
  vp_step vp vp'
  /\ (oe = None
      \/ (oe = Some ErrAmbiguousRSRP /\ k = "RSRP (dBm):"
          /\ Status.state s = statusState_0 /\ s' = s /\ vp' = vp)).
Proof.
  unfold Status.parse_switch.
  repeat switch_case k
    ltac:(fun E =>
            try destruct (Status.state s) eqn:Hst;
            split_pair_lets; intros H; inversion H; subst;
            split; eauto using Int_step, Float64_step, vp_step_refl;
            right; auto 10).
  intros H; inversion H; subst. split; auto using vp_step_refl.
Qed.

(** Only the two RSSI keys write [state]. *)
Lemma parse_switch_state (s s' : Status.t) (k : string) (vp vp' : valueParser.t)
  (oe : option error) :
  Status.parse_switch s k vp = (s', vp', oe) ->
  k <> "PCC RxM RSSI:" -> k <> "PCC RxD RSSI:" ->
  Status.state s' = Status.state s.
Proof.
  unfold Status.parse_switch. intros H Hm Hd. revert H.
  repeat switch_case k
    ltac:(fun E =>
            try contradiction;
            try destruct (Status.state s) eqn:Hst;
            split_pair_lets; intros H; inversion H; subst;
            first [reflexivity | exact Hst]).
  intros H; inversion H; subst. reflexivity.
Qed.

(** And they set it to [rxmLast] and [rxdLast]. *)
Lemma parse_switch_RSSI (s : Status.t) (vp : valueParser.t) :
  Status.state (fst (fst (Status.parse_switch s "PCC RxM RSSI:" vp))) = rxmLast
  /\ Status.state (fst (fst (Status.parse_switch s "PCC RxD RSSI:" vp))) = rxdLast.
Proof.
  unfold Status.parse_switch. cbn [String.eqb Ascii.eqb Bool.eqb].
  split; destruct (valueParser.Int vp); reflexivity.
Qed.

Lemma firstn_length_app (a b : list string) : firstn (length a) (a ++ b) = a.
Proof. induction a as [|x a IH]; simpl; [now destruct b|now rewrite IH]. Qed.

Lemma skipn_length_app (a b : list string) : skipn (length a) (a ++ b) = b.
Proof. induction a as [|x a IH]; simpl; [reflexivity|exact IH]. Qed.

Lemma nth_length_app (a b : list string) (j : nat) :
  nth (length a + j) (a ++ b) EmptyString = nth j b EmptyString.
Proof. induction a as [|x a IH]; simpl; [reflexivity|exact IH]. Qed.

(** One iteration of the loop of [Status.parse]. *)
Lemma parse_range_S (n i : nat) (s : Status.t) (ss : list string) :
  Status.parse_range (S n) i s ss
  = if negb (strings.HasSuffix_colon (nth i ss EmptyString))
    then Status.parse_range n (S i) s ss
    else
      match newValueParser (skipn (S i) ss) with
      | inl e => (s, Some e)
      | inr vp =>
          match Status.parse_switch s (strings.Join (firstn (S i) ss) " ") vp with
          | (s', _, Some e) => (s', Some e)
          | (s', vp', None) =>
              match valueParser.Err vp' with
              | Some e => (s', Some e)
              | None =>
                  Status.parse_range n (S i) s'
                    (firstn (S i) ss ++ valueParser.ss vp)
              end
          end
      end.
Proof. reflexivity. Qed.

(** Past the last field that ends in a colon the loop changes nothing. *)
Lemma parse_range_no_colon (n : nat) :
  forall (i : nat) (s : Status.t) (ss : list string),
    (forall j, i <= j -> strings.HasSuffix_colon (nth j ss EmptyString) = false) ->
    Status.parse_range n i s ss = (s, None).
Proof.
  induction n as [|n IH]; intros i s ss H; simpl; [reflexivity|].
  rewrite (H i (le_n i)). simpl. apply IH. intros j Hj. apply H. lia.
Qed.

(** The loop steps over the fields that do not end in a colon. *)
Lemma parse_range_skip (kw rest : list string) (s : Status.t) (m : nat) :
  Forall (fun t => strings.HasSuffix_colon t = false) kw ->
  forall d i, i + d = length kw ->
    Status.parse_range (d + m) i s (kw ++ rest)
    = Status.parse_range m (length kw) s (kw ++ rest).
Proof.
  intros Hkw. induction d as [|d IH]; intros i Hi.
  - simpl. replace i with (length kw) by lia. reflexivity.
  - cbn [Nat.add Status.parse_range].
    assert (Hn : strings.HasSuffix_colon (nth i (kw ++ rest) EmptyString) = false).
    { rewrite app_nth1 by lia.
      rewrite Forall_forall in Hkw. apply Hkw. apply nth_In. lia. }
    rewrite Hn. cbn [negb]. apply IH. lia.
Qed.

(** The errors of [Status.parse]: missing values, the ambiguous key, a
    failed conversion. *)
Lemma parse_range_errors (n : nat) :
  forall (i : nat) (s s' : Status.t) (ss : list string) (e : error),
    Status.parse_range n i s ss = (s', Some e) ->
    kind_of e = EmptyInput \/ kind_of e = AmbiguousField
    \/ kind_of e = ConversionError.
Proof.
  induction n as [|n IH]; intros i s s' ss e; simpl; [discriminate|].
  destruct (negb _); [apply IH|].
  destruct (newValueParser _) as [e0|vp] eqn:Hnew.
  - unfold newValueParser in Hnew. destruct (Nat.eqb _ _); [|discriminate].
    injection Hnew as <-. intros H. injection H as _ <-. now left.
  - apply newValueParser_nonempty in Hnew. destruct Hnew as (_ & Hnone & _).
    destruct (Status.parse_switch _ _ _) as [[s1 vp1] oe] eqn:Hsw.
    apply parse_switch_spec in Hsw. destruct Hsw as [Hstep Hoe].
    destruct oe as [e1|].
    + destruct Hoe as [Hoe|(Hoe & _)]; [discriminate|].
      injection Hoe as ->. intros H. injection H as _ <-. right; now left.
    + destruct (valueParser.Err vp1) as [e1|] eqn:Herr; [|apply IH].
      intros H. injection H as _ <-.
      destruct Hstep as [->|(_ & f & c & ->)].
      * unfold valueParser.Err in Herr. congruence.
      * injection Herr as <-. right; now right.
Qed.

(** A segment with one key that has no case and at least one value: the fields
    [kw] and [kt], of which only the last ends in a colon, then the values
    [v :: vs], none of which, once trimmed, ends in a colon.  [Status.parse]
    returns no error and leaves the record as it was. *)
Lemma parse_unknown_key (s : Status.t) (kw : list string) (kt v : string)
  (vs : list string) :
  Forall (fun t => strings.HasSuffix_colon t = false) kw ->
  strings.HasSuffix_colon kt = true ->
  Forall (fun t => strings.HasSuffix_colon (strings.TrimSpace t) = false) (v :: vs) ->
  ~ In (strings.Join (kw ++ [kt]) " ") Status.keys ->
  Status.parse s (kw ++ kt :: v :: vs) = (s, None).
Proof.
  intros Hkw Hkt Hvs Hk. unfold Status.parse.
  rewrite length_app. cbn [length].
  rewrite (parse_range_skip kw (kt :: v :: vs) s (S (S (length vs))) Hkw
             (length kw) 0 eq_refl).
  rewrite parse_range_S.
  replace (nth (length kw) (kw ++ kt :: v :: vs) EmptyString) with kt
    by (rewrite <- (Nat.add_0_r (length kw)) at 1; now rewrite nth_length_app).
  rewrite Hkt. cbn [negb].
  replace (kw ++ kt :: v :: vs) with ((kw ++ [kt]) ++ v :: vs)
    by (now rewrite <- app_assoc).
  replace (S (length kw)) with (length (kw ++ [kt]))
    by (rewrite length_app; simpl; lia).
  rewrite firstn_length_app, skipn_length_app.
  unfold newValueParser. cbn [length Nat.eqb].
  rewrite (parse_switch_unknown s _ _ Hk). cbn [valueParser.Err valueParser.err valueParser.ss].
  apply parse_range_no_colon. intros j Hj.
  replace j with (length (kw ++ [kt]) + (j - length (kw ++ [kt]))) by lia.
  rewrite nth_length_app.
  set (j' := j - length (kw ++ [kt])). clearbody j'.
  destruct (Nat.lt_ge_cases j' (length (map strings.TrimSpace (v :: vs)))) as [Hlt|Hge].
  - rewrite length_map in Hlt.
    change EmptyString with (strings.TrimSpace EmptyString) at 1.
    rewrite map_nth.
    rewrite Forall_forall in Hvs. apply Hvs. now apply nth_In.
  - now rewrite nth_overflow.
Qed.

(** ** [parseStatus] *)

(** After the header the index of a line plays no part. *)
Lemma parseStatus_range_index (lines : list string) :
  forall (i j : nat) (s : Status.t),
    parseStatus_range (S i) s lines = parseStatus_range (S j) s lines.
Proof.
  induction lines as [|l lines IH]; intros i j s; simpl; [reflexivity|].
  destruct (parseStatus_line s l); [reflexivity|apply IH].
Qed.

Lemma parseStatus_header (hdr : string) (lines : list string) :
  parseStatus (hdr :: lines) = parseStatus_range 1 Status.zero lines.
Proof. reflexivity. Qed.

(** The lines [pre] parsed without error, the loop goes on with the next. *)
Lemma parseStatus_range_app (pre : list string) :
  forall (i : nat) (s s' : Status.t) (l : string) (post : list string),
    parseStatus_range (S i) s pre = inr s' ->
    parseStatus_range (S i) s (pre ++ l :: post)
    = match parseStatus_line s' l with
      | inl e => inl e
      | inr s'' => parseStatus_range 1 s'' post
      end.
Proof.
  induction pre as [|p pre IH]; intros i s s' l post; simpl.
  - intros H. injection H as ->.
    destruct (parseStatus_line s' l); [reflexivity|].
    apply parseStatus_range_index.
  - destruct (parseStatus_line s p); [discriminate|]. apply IH.
Qed.

(** The body of the loop is [Status.parse] on each segment of the line. *)
Lemma parseStatus_line_segments (s : Status.t) (l : string) :
  parseStatus_line s l
  = match line_segments (strings.Fields l) with
    | None =>
        inl (ErrUnexpectedStatusLine
               (length (indices_from 0 (strings.Fields l))) l)
    | Some segs =>
        match parse_segments s segs with
        | (_, Some e) => inl e
        | (s', None) => inr s'
        end
    end.
Proof.
  unfold parseStatus_line, line_segments.
  destruct (length (indices_from 0 (strings.Fields l))) as [|[|[|n]]];
    try reflexivity; cbn [parse_segments].
  - destruct (Status.parse s _) as [s1 [e|]]; reflexivity.
  - destruct (Status.parse s _) as [s1 [e|]]; [reflexivity|].
    destruct (Status.parse s1 _) as [s2 [e|]]; reflexivity.
Qed.

Lemma parse_segments_stops (segsA : list (list string)) :
  forall (s s1 s2 : Status.t) (seg : list string) (segsB : list (list string))
         (e : error),
    parse_segments s segsA = (s1, None) ->
    Status.parse s1 seg = (s2, Some e) ->
    parse_segments s (segsA ++ seg :: segsB) = (s2, Some e).
Proof.
  induction segsA as [|a segsA IH]; intros s s1 s2 seg segsB e; simpl.
  - intros H. injection H as ->. intros ->. reflexivity.
  - destruct (Status.parse s a) as [s' [e'|]]; [discriminate|]. apply IH.
Qed.

(** [parseStatus] reports a line for its number of pairs only when that
    number is neither one nor two. *)
Lemma parseStatus_line_unexpected (s : Status.t) (l l' : string) (m : nat) :
  parseStatus_line s l = inl (ErrUnexpectedStatusLine m l') ->
  l' = l /\ m = length (indices_from 0 (strings.Fields l)) /\ m <> 1 /\ m <> 2.
Proof.
  unfold parseStatus_line.
  assert (Hparse : forall s0 ss s1 e, Status.parse s0 ss = (s1, Some e) ->
                                      e <> ErrUnexpectedStatusLine m l').
  { intros s0 ss s1 e H ->. apply parse_range_errors in H. simpl in H.
    destruct H as [H|[H|H]]; discriminate. }
  destruct (length (indices_from 0 (strings.Fields l))) as [|[|[|n]]] eqn:Hn.
  - intros H. injection H as <- <-. repeat split; lia.
  - destruct (Status.parse s _) as [s1 [e|]] eqn:Hp; [|discriminate].
    intros H. injection H as ->. now apply Hparse in Hp.
  - destruct (Status.parse s _) as [s1 [e|]] eqn:Hp.
    + intros H. injection H as ->. now apply Hparse in Hp.
    + destruct (Status.parse s1 _) as [s2 [e|]] eqn:Hp2; [|discriminate].
      intros H. injection H as ->. now apply Hparse in Hp2.
  - intros H. injection H as <- <-. repeat split; lia.
Qed.

Lemma parseStatus_range_unexpected (lines : list string) :
  forall (i : nat) (s : Status.t) (m : nat) (l : string),
    parseStatus_range (S i) s lines = inl (ErrUnexpectedStatusLine m l) ->
    In l lines /\ m = length (indices_from 0 (strings.Fields l))
    /\ m <> 1 /\ m <> 2.
Proof.
  induction lines as [|l0 lines IH]; intros i s m l; simpl; [discriminate|].
  destruct (parseStatus_line s l0) as [e|s'] eqn:Hl.
  - intros H. injection H as ->.
    apply parseStatus_line_unexpected in Hl. destruct Hl as (-> & Hm).
    split; [now left|exact Hm].
  - intros H. apply IH in H. destruct H as (Hin & Hm).
    split; [now right|exact Hm].
Qed.

(** The number of fields that end in a colon. *)
Lemma length_indices_from (ss : list string) :
  forall i, length (indices_from i ss)
            = length (filter strings.HasSuffix_colon ss).
Proof.
  induction ss as [|t ss IH]; intros i; simpl; [reflexivity|].
  destruct (strings.HasSuffix_colon t); simpl; now rewrite IH.
Qed.

Lemma filter_no_colon (ss : list string) :
  Forall (fun t => strings.HasSuffix_colon t = false) ss ->
  filter strings.HasSuffix_colon ss = [].
Proof.
  induction 1 as [|t ts Ht _ IH]; simpl; [reflexivity|]. now rewrite Ht.
Qed.

Lemma indices_from_skip (kw rest : list string) :
  Forall (fun t => strings.HasSuffix_colon t = false) kw ->
  forall i, indices_from i (kw ++ rest) = indices_from (length kw + i) rest.
Proof.
  induction 1 as [|t ts Ht _ IH]; intros i; simpl; [reflexivity|].
  rewrite Ht, IH. f_equal. lia.
Qed.

Lemma indices_from_cons (i : nat) (t : string) (ts : list string) :
  indices_from i (t :: ts)
  = if strings.HasSuffix_colon t then i :: indices_from (S i) ts
    else indices_from (S i) ts.
Proof. reflexivity. Qed.

Lemma indices_from_none (ss : list string) :
  Forall (fun t => strings.HasSuffix_colon t = false) ss ->
  forall i, indices_from i ss = [].
Proof.
  induction 1 as [|t ts Ht _ IH]; intros i; simpl; [reflexivity|].
  now rewrite Ht.
Qed.

(** With two fields that end in a colon, [indices[0] + 2] is within the
    line: the slices [ss[:next]] and [ss[next:]] are in range. *)
Lemma next_in_range (ss : list string) :
  forall i, length (indices_from i ss) = 2 ->
            nth 0 (indices_from i ss) 0 + 2 <= i + length ss.
Proof.
  induction ss as [|t ss IH]; intros i; simpl; [discriminate|].
  destruct (strings.HasSuffix_colon t).
  - simpl. intros H. injection H as H.
    destruct ss as [|t' ss']; [discriminate|]. simpl. lia.
  - intros H. specialize (IH (S i) H). lia.
Qed.

(** ** [parseInfo] *)

(** The two revisions of [parseInfo] treat every line alike. *)
Lemma Legacy_parseInfo_line (i : Info.t) (l : string) :
  Legacy.parseInfo_line i l = parseInfo_line i l.
Proof.
  unfold Legacy.parseInfo_line, parseInfo_line.
  destruct (negb _); [reflexivity|].
  unfold newValueParser. cbn [length Nat.eqb map].
  unfold valueParser.String, valueParser.Int, valueParser.Err, strings.Join.
  cbn [valueParser.err valueParser.ss String.concat nth].
  repeat match goal with
         | |- context [String.eqb ?k ?lit] =>
             destruct (String.eqb k lit); [try reflexivity|]
         end.
  - destruct (strconv.Atoi _); reflexivity.
  - reflexivity.
Qed.

Lemma Legacy_parseInfo (lines : list string) :
  Legacy.parseInfo lines = parseInfo lines.
Proof.
  unfold Legacy.parseInfo, parseInfo. generalize Info.zero.
  induction lines as [|l lines IH]; intros i; simpl; [reflexivity|].
  rewrite Legacy_parseInfo_line.
  destruct (parseInfo_line i l); [reflexivity|apply IH].
Qed.

(** The errors of one info line: the line has no colon, or the value of
    [IMEI SV] is no integer. *)
Lemma parseInfo_line_errors (i : Info.t) (l : string) (e : error) :
  parseInfo_line i l = inl e ->
  e = ErrMalformedInfoLine l \/ exists num c, e = NumError "Atoi" num c.
Proof.
  unfold parseInfo_line.
  destruct (negb _); [intros H; injection H as <-; now left|].
  unfold newValueParser. cbn [length Nat.eqb map].
  unfold valueParser.String, valueParser.Int, valueParser.Err.
  cbn [valueParser.err valueParser.ss nth].
  repeat match goal with
         | |- context [String.eqb ?k ?lit] =>
             destruct (String.eqb k lit); [try discriminate|]
         end.
  - destruct (strconv.Atoi _) as [c|v]; cbn [valueParser.err]; [|discriminate].
    intros H. injection H as <-. right. eauto.
  - discriminate.
Qed.

Lemma parseInfo_errors (lines : list string) (e : error) :
  parseInfo lines = inl e ->
  kind_of e = MalformedLine \/ kind_of e = ConversionError.
Proof.
  unfold parseInfo. generalize Info.zero.
  induction lines as [|l lines IH]; intros i; simpl; [discriminate|].
  destruct (parseInfo_line i l) as [e'|i'] eqn:Hl; [|apply IH].
  intros H. injection H as ->.
  apply parseInfo_line_errors in Hl.
  destruct Hl as [->|(num & c & ->)]; [now left|now right].
Qed.

(** ** The claims on the records *)

(** C4 (amended).  After a header line, whatever it is, the line
    [Current Time:  71465   Temperature: 41] gives a record whose current
    time is 71465 seconds (19h51m5s) and whose temperature is 41, every other
    field at its zero value. *)
Theorem current_time_and_temperature (hdr : string) :
  parseStatus [hdr; "Current Time:  71465   Temperature: 41"]
  = inr (Status.set_Temperature 41%Z
           (Status.set_CurrentTime (71465 * time.Second)%Z Status.zero))
  /\ (71465 * time.Second = (19 * 3600 + 51 * 60 + 5) * 1000000000)%Z.
Proof.
  split; [|reflexivity].
  rewrite parseStatus_header. cbn [parseStatus_range Nat.eqb].
  reflexivity.
Qed.

(** C5 (amended).  After a header line, whatever it is, the lines
    [PCC RxM RSSI:  -84   RSRP (dBm):  -113] and
    [PCC RxD RSSI:  -84   RSRP (dBm):  -111] give a record with the first
    RSRP value in the field of RxM and the second in the field of RxD. *)
Theorem RSRP_follows_the_last_RSSI (hdr : string) :
  exists s,
    parseStatus [hdr; "PCC RxM RSSI:  -84   RSRP (dBm):  -113";
                 "PCC RxD RSSI:  -84   RSRP (dBm):  -111"] = inr s
    /\ Status.RSRPRXMdBm s = (-113)%Z /\ Status.RSRPRXDdBm s = (-111)%Z
    /\ Status.PCCRXMRSSI s = (-84)%Z /\ Status.PCCRXDRSSI s = (-84)%Z
    /\ Status.state s = rxdLast.
Proof.
  eexists. rewrite parseStatus_header. cbn [parseStatus_range Nat.eqb].
  split; [reflexivity|]. repeat split.
Qed.

Lemma Forall_isField_skipn (n : nat) (ss : list string) :
  Forall (fun t => isField t = true) ss ->
  Forall (fun t => isField t = true) (skipn n ss).
Proof.
  intros H. rewrite <- (firstn_skipn n ss) in H.
  apply Forall_app in H. now destruct H.
Qed.

Lemma Forall_isField_firstn (n : nat) (ss : list string) :
  Forall (fun t => isField t = true) ss ->
  Forall (fun t => isField t = true) (firstn n ss).
Proof.
  intros H. rewrite <- (firstn_skipn n ss) in H.
  apply Forall_app in H. now destruct H.
Qed.

(** An index of a field that ends in a colon is one of the indices that
    [parseStatus] collects. *)
Lemma In_indices_from (ss : list string) :
  forall i j,
    strings.HasSuffix_colon (nth i ss EmptyString) = true ->
    In (j + i) (indices_from j ss).
Proof.
  induction ss as [|t ts IH]; intros i j H.
  - destruct i; discriminate.
  - cbn [indices_from]. destruct i as [|i].
    + simpl in H. rewrite H, Nat.add_0_r. now left.
    + cbn [nth] in H. replace (j + S i) with (S j + i) by lia.
      destruct (strings.HasSuffix_colon t); [right|]; now apply IH.
Qed.

Lemma no_RSSI_key (ss : list string) (i : nat) :
  no_RSSI (segment_keys ss) = true ->
  strings.HasSuffix_colon (nth i ss EmptyString) = true ->
  strings.Join (firstn (S i) ss) " " <> "PCC RxM RSSI:"
  /\ strings.Join (firstn (S i) ss) " " <> "PCC RxD RSSI:".
Proof.
  unfold no_RSSI, segment_keys. intros H Hi.
  rewrite forallb_forall in H.
  assert (Hin : In (strings.Join (firstn (S i) ss) " ")
                  (map (fun i => strings.Join (firstn (S i) ss) " ")
                     (indices_from 0 ss))).
  { apply in_map_iff. exists i. split; [reflexivity|].
    exact (In_indices_from ss i 0 Hi). }
  apply H in Hin. apply negb_true_iff in Hin.
  unfold isRSSI in Hin. apply orb_false_iff in Hin. destruct Hin as [Hm Hd].
  split; now apply String.eqb_neq.
Qed.

(** [state] is written by the RSSI keys only: a segment of fields none of
    whose keys is one of the two leaves it as it was, whether the parse of
    the segment fails or not. *)
Lemma parse_range_state_kept (ss : list string) :
  Forall (fun t => isField t = true) ss ->
  no_RSSI (segment_keys ss) = true ->
  forall (n i : nat) (s s' : Status.t) (oe : option error),
    Status.parse_range n i s ss = (s', oe) ->
    Status.state s' = Status.state s.
Proof.
  intros Hf Hk. induction n as [|n IH]; intros i s s' oe.
  - simpl. intros H. now injection H as <- _.
  - rewrite parse_range_S.
    destruct (strings.HasSuffix_colon (nth i ss EmptyString)) eqn:Hi;
      cbn [negb]; [|apply IH].
    destruct (no_RSSI_key ss i Hk Hi) as [Hm Hd].
    unfold newValueParser.
    destruct (Nat.eqb (length (skipn (S i) ss)) 0).
    + intros H. now injection H as <- _.
    + rewrite (map_TrimSpace_fields _ (Forall_isField_skipn (S i) ss Hf)).
      cbn [valueParser.ss]. rewrite firstn_skipn.
      destruct (Status.parse_switch _ _ _) as [[s1 vp1] oe1] eqn:Hsw.
      pose proof (parse_switch_state _ _ _ _ _ _ Hsw Hm Hd) as Hs1.
      destruct oe1 as [e1|].
      * intros H. injection H as <- _. exact Hs1.
      * destruct (valueParser.Err vp1) as [e1|].
        -- intros H. injection H as <- _. exact Hs1.
        -- intros H. rewrite <- Hs1. exact (IH _ _ _ _ H).
Qed.

Lemma parse_segments_state_kept (segs : list (list string)) :
  Forall (Forall (fun t => isField t = true)) segs ->
  no_RSSI (flat_map segment_keys segs) = true ->
  forall (s s' : Status.t) (oe : option error),
    parse_segments s segs = (s', oe) ->
    Status.state s' = Status.state s.
Proof.
  induction 1 as [|seg segs Hseg _ IH]; intros Hk s s' oe.
  - simpl. intros H. now injection H as <- _.
  - cbn [flat_map] in Hk. unfold no_RSSI in Hk. rewrite forallb_app in Hk.
    apply andb_prop in Hk. destruct Hk as [Hk1 Hk2].
    cbn [parse_segments].
    destruct (Status.parse s seg) as [s1 oe1] eqn:Hp.
    pose proof (parse_range_state_kept seg Hseg Hk1 _ _ _ _ _ Hp) as Hs1.
    destruct oe1 as [e1|].
    + intros H. injection H as <- _. exact Hs1.
    + intros H. rewrite <- Hs1. exact (IH Hk2 _ _ _ H).
Qed.

Lemma line_segments_fields (ss : list string) (segs : list (list string)) :
  Forall (fun t => isField t = true) ss ->
  line_segments ss = Some segs ->
  Forall (Forall (fun t => isField t = true)) segs.
Proof.
  unfold line_segments. intros Hf.
  destruct (length (indices_from 0 ss)) as [|[|[|n]]]; try discriminate;
    intros H; injection H as <-.
  - repeat constructor. exact Hf.
  - repeat constructor;
      [now apply Forall_isField_firstn | now apply Forall_isField_skipn].
Qed.

Lemma parseStatus_line_state_kept (s s' : Status.t) (l : string) :
  no_RSSI (line_keys l) = true ->
  parseStatus_line s l = inr s' ->
  Status.state s' = Status.state s.
Proof.
  unfold line_keys. rewrite parseStatus_line_segments.
  destruct (line_segments (strings.Fields l)) as [segs|] eqn:Hsegs;
    [|discriminate].
  intros Hk.
  destruct (parse_segments s segs) as [s1 oe] eqn:Hp.
  pose proof (parse_segments_state_kept segs
                (line_segments_fields _ _ (Fields_isField l) Hsegs) Hk
                _ _ _ Hp) as Hs1.
  destruct oe; [discriminate|]. intros H. now injection H as <-.
Qed.

Lemma parseStatus_range_state_kept (lines : list string) :
  forallb (fun l => no_RSSI (line_keys l)) lines = true ->
  forall (i : nat) (s s' : Status.t),
    parseStatus_range (S i) s lines = inr s' ->
    Status.state s' = Status.state s.
Proof.
  induction lines as [|l lines IH]; intros Hk i s s'.
  - simpl. intros H. now injection H as <-.
  - cbn [forallb] in Hk. apply andb_prop in Hk. destruct Hk as [Hl Hk].
    cbn [parseStatus_range Nat.eqb].
    destruct (parseStatus_line s l) as [e|s1] eqn:Hp; [discriminate|].
    intros H. rewrite (IH Hk _ _ _ H).
    exact (parseStatus_line_state_kept _ _ _ Hl Hp).
Qed.

(** C6 (amended).  A segment with the key [RSRP (dBm):] and at least one
    value fails with the error of the ambiguous key when no key dispatched
    before it is [PCC RxM RSSI:] or [PCC RxD RSSI:], neither in the lines
    after the header that were parsed before, nor in the segment before it
    on its line: [state] then still has its zero value, only the cases of
    those two keys write it.  And so [parseStatus] fails, when the lines and
    the segment before parse without error. *)
Theorem RSRP_before_any_RSSI (hdr : string) (pre : list string) (l : string)
  (post : list string) (s0 s : Status.t) (segsA segsB : list (list string))
  (v : string) (vs : list string) :
  parseStatus_range 1 Status.zero pre = inr s0 ->
  line_segments (strings.Fields l)
  = Some (segsA ++ ("RSRP" :: "(dBm):" :: v :: vs) :: segsB) ->
  parse_segments s0 segsA = (s, None) ->
  forallb (fun l' => no_RSSI (line_keys l')) pre = true ->
  no_RSSI (flat_map segment_keys segsA) = true ->
  Status.parse s ("RSRP" :: "(dBm):" :: v :: vs) = (s, Some ErrAmbiguousRSRP)
  /\ parseStatus (hdr :: pre ++ l :: post) = inl ErrAmbiguousRSRP
  /\ kind_of ErrAmbiguousRSRP = AmbiguousField.
Proof.
  intros Hpre Hsegs HA Hkpre HkA.
  assert (Hst : Status.state s = statusState_0).
  { pose proof (line_segments_fields _ _ (Fields_isField l) Hsegs) as Hf.
    apply Forall_app in Hf. destruct Hf as [HfA _].
    rewrite (parse_segments_state_kept segsA HfA HkA _ _ _ HA).
    now rewrite (parseStatus_range_state_kept pre Hkpre _ _ _ Hpre). }
  assert (Hseg : Status.parse s ("RSRP" :: "(dBm):" :: v :: vs)
                 = (s, Some ErrAmbiguousRSRP)).
  { unfold Status.parse. cbn [length]. rewrite parse_range_S.
    cbn [nth strings.HasSuffix_colon negb]. rewrite parse_range_S.
    cbn [nth strings.HasSuffix_colon negb Ascii.eqb Bool.eqb andb].
    cbn [skipn firstn]. unfold newValueParser. cbn [length Nat.eqb].
    unfold Status.parse_switch, strings.Join.
    cbn [String.concat String.append String.eqb Ascii.eqb Bool.eqb].
    now rewrite Hst. }
  split; [exact Hseg|]. split; [|reflexivity].
  rewrite parseStatus_header, (parseStatus_range_app pre 0 _ s0 l post Hpre).
  rewrite parseStatus_line_segments, Hsegs.
  now rewrite (parse_segments_stops segsA s0 s s _ segsB _ HA Hseg).
Qed.

(** C7 (amended).  When the lines before it parse without error, a line
    whose fields hold no field ending in a colon, or three or more, makes
    [parseStatus] fail with the error that carries the number of such fields
    and the line.  Whenever [parseStatus] fails with that error, the line it
    carries is a line after the header that holds neither one nor two such
    fields: a line with one or two never raises it. *)
Theorem unexpected_pair_count :
  (forall (hdr : string) (pre : list string) (l : string) (post : list string)
          (s : Status.t) (n : nat),
      parseStatus_range 1 Status.zero pre = inr s ->
      n = length (indices_from 0 (strings.Fields l)) ->
      n = 0 \/ 3 <= n ->
      parseStatus (hdr :: pre ++ l :: post) = inl (ErrUnexpectedStatusLine n l)
      /\ kind_of (ErrUnexpectedStatusLine n l) = UnexpectedSegmentCount)
  /\ (forall (lines : list string) (m : nat) (l : string),
         parseStatus lines = inl (ErrUnexpectedStatusLine m l) ->
         In l (tl lines) /\ m = length (indices_from 0 (strings.Fields l))
         /\ m <> 1 /\ m <> 2)
  /\ (forall (s : Status.t) (l : string) (n : nat),
         n = length (indices_from 0 (strings.Fields l)) ->
         n = 1 \/ n = 2 ->
         forall m l', parseStatus_line s l <> inl (ErrUnexpectedStatusLine m l')).
Proof.
  split; [|split].
  - intros hdr pre l post s n Hpre Hn Hcount. split; [|reflexivity].
    rewrite parseStatus_header, (parseStatus_range_app pre 0 _ s l post Hpre).
    unfold parseStatus_line. rewrite <- Hn.
    destruct n as [|[|[|n]]]; try reflexivity; lia.
  - intros [|hdr lines] m l; [discriminate|].
    rewrite parseStatus_header. apply parseStatus_range_unexpected.
  - intros s l n Hn Hcount m l' H.
    apply parseStatus_line_unexpected in H. lia.
Qed.

(** C9 (amended).  An info line whose key has no case is parsed without
    error and leaves the record as it was, in both revisions.  A status
    segment whose key has no case and which holds at least one value, no
    value ending in a colon, is parsed without error and leaves the record as
    it was; so does a status line that consists of one such segment, or of
    two. *)
Theorem unknown_keys_are_ignored :
  (forall (i : Info.t) (l k v : string),
      strings.SplitN_colon_2 l = [k; v] -> ~ In k info_keys ->
      parseInfo_line i l = inr i /\ Legacy.parseInfo_line i l = inr i)
  /\ (forall (s : Status.t) (kw : list string) (kt v : string)
             (vs : list string),
         Forall (fun t => strings.HasSuffix_colon t = false) kw ->
         strings.HasSuffix_colon kt = true ->
         Forall (fun t => strings.HasSuffix_colon (strings.TrimSpace t) = false)
           (v :: vs) ->
         ~ In (strings.Join (kw ++ [kt]) " ") Status.keys ->
         Status.parse s (kw ++ kt :: v :: vs) = (s, None))
  /\ (forall (s : Status.t) (l : string) (kw : list string) (kt v : string)
             (vs : list string),
         strings.Fields l = kw ++ kt :: v :: vs ->
         Forall (fun t => strings.HasSuffix_colon t = false) kw ->
         strings.HasSuffix_colon kt = true ->
         Forall (fun t => strings.HasSuffix_colon t = false) (v :: vs) ->
         ~ In (strings.Join (kw ++ [kt]) " ") Status.keys ->
         parseStatus_line s l = inr s)
  /\ (forall (s : Status.t) (l : string) (kw1 : list string) (kt1 v1 : string)
             (kw2 : list string) (kt2 v2 : string) (vs2 : list string),
         strings.Fields l = kw1 ++ kt1 :: v1 :: kw2 ++ kt2 :: v2 :: vs2 ->
         Forall (fun t => strings.HasSuffix_colon t = false) (kw1 ++ v1 :: kw2) ->
         strings.HasSuffix_colon kt1 = true ->
         strings.HasSuffix_colon kt2 = true ->
         Forall (fun t => strings.HasSuffix_colon t = false) (v2 :: vs2) ->
         ~ In (strings.Join (kw1 ++ [kt1]) " ") Status.keys ->
         ~ In (strings.Join (kw2 ++ [kt2]) " ") Status.keys ->
         parseStatus_line s l = inr s).
Proof.
  split; [|split; [|split]].
  - intros i l k v Hl Hk. rewrite Legacy_parseInfo_line.
    assert (parseInfo_line i l = inr i); [|now split].
    unfold parseInfo_line. rewrite Hl. cbn [length Nat.eqb negb nth].
    unfold newValueParser. cbn [length Nat.eqb].
    unfold info_keys in Hk.
    repeat match goal with
           | |- context [String.eqb k ?lit] =>
               let E := fresh "E" in
               destruct (String.eqb k lit) eqn:E;
               [apply String.eqb_eq in E; exfalso; apply Hk; rewrite E;
                cbn [In]; tauto|]
           end.
    reflexivity.
  - exact parse_unknown_key.
  - intros s l kw kt v vs Hl Hkw Hkt Hvs Hk.
    pose proof (Fields_isField l) as Hf. rewrite Hl in Hf.
    apply Forall_app in Hf. destruct Hf as [_ Hf].
    apply Forall_cons_iff in Hf. destruct Hf as [_ Hf].
    assert (Htrim : Forall (fun t => strings.HasSuffix_colon (strings.TrimSpace t)
                                     = false) (v :: vs)).
    { rewrite Forall_forall in *. intros t Ht.
      rewrite (TrimSpace_isField t (Hf t Ht)). now apply Hvs. }
    unfold parseStatus_line. rewrite length_indices_from, Hl.
    change (kw ++ kt :: v :: vs) with (kw ++ [kt] ++ v :: vs).
    rewrite !filter_app.
    rewrite (filter_no_colon kw Hkw), (filter_no_colon (v :: vs) Hvs).
    cbn [filter]. rewrite Hkt. cbn [app length].
    now rewrite (parse_unknown_key s kw kt v vs Hkw Hkt Htrim Hk).
  - intros s l kw1 kt1 v1 kw2 kt2 v2 vs2 Hl Hkw Hkt1 Hkt2 Hvs Hk1 Hk2.
    apply Forall_app in Hkw. destruct Hkw as [Hkw1 Hkw].
    apply Forall_cons_iff in Hkw. destruct Hkw as [Hv1 Hkw2].
    pose proof (Fields_isField l) as Hf. rewrite Hl in Hf.
    assert (Htrim : forall ts,
               Forall (fun t => isField t = true) ts ->
               Forall (fun t => strings.HasSuffix_colon t = false) ts ->
               Forall (fun t => strings.HasSuffix_colon (strings.TrimSpace t)
                                = false) ts).
    { intros ts Hfs Hts. rewrite Forall_forall in *. intros t Ht.
      rewrite (TrimSpace_isField t (Hfs t Ht)). now apply Hts. }
    apply Forall_app in Hf. destruct Hf as [_ Hf].
    apply Forall_cons_iff in Hf. destruct Hf as [_ Hf].
    apply Forall_cons_iff in Hf. destruct Hf as [Hfv1 Hf].
    apply Forall_app in Hf. destruct Hf as [_ Hf].
    apply Forall_cons_iff in Hf. destruct Hf as [_ Hf].
    unfold parseStatus_line. rewrite Hl.
    rewrite (indices_from_skip kw1 _ Hkw1 0).
    rewrite !indices_from_cons, Hkt1, Hv1.
    rewrite (indices_from_skip kw2 _ Hkw2).
    rewrite indices_from_cons, Hkt2.
    rewrite (indices_from_none (v2 :: vs2) Hvs). cbn [length nth].
    replace (kw1 ++ kt1 :: v1 :: kw2 ++ kt2 :: v2 :: vs2)
      with ((kw1 ++ [kt1; v1]) ++ kw2 ++ kt2 :: v2 :: vs2)
      by (now rewrite <- app_assoc).
    replace (length kw1 + 0 + 2) with (length (kw1 ++ [kt1; v1]))
      by (rewrite length_app; simpl; lia).
    rewrite firstn_length_app, skipn_length_app.
    rewrite (parse_unknown_key s kw1 kt1 v1 [] Hkw1 Hkt1
               (Htrim [v1] (Forall_cons _ Hfv1 (Forall_nil _))
                  (Forall_cons _ Hv1 (Forall_nil _))) Hk1).
    now rewrite (parse_unknown_key s kw2 kt2 v2 vs2 Hkw2 Hkt2 (Htrim _ Hf Hvs) Hk2).
Qed.


End Float.

(** ** The statements on concrete responses *)

Lemma empty_response_fails_on_no_lines :
  Device_Info (device_of []) = inl ErrEmptyInfoResponse
  /\ Legacy.Device_Info (device_of []) = inl ErrEmptyInfoResponse
  /\ @Device_Status decimal.model (device_of []) = inl ErrEmptyStatusResponse.
Proof.
  destruct (@empty_response_fails decimal.model (device_of [])) as [Hi Hs].
  destruct (Hi eq_refl) as (H1 & H2 & _). destruct (Hs eq_refl) as (H3 & _).
  repeat split; assumption.
Defined.

Lemma sticky_error_after_failed_Int :
  valueParser.err failed_parser
  = Some (NumError "Atoi" "NOT" strconv.ErrSyntax)
  /\ @run_calls decimal.model [CallString; CallInt; CallFloat64; CallString]
       failed_parser
     = ([@VString decimal.model EmptyString; VInt 0;
         @VFloat64 decimal.model (decimal.mk 0 0); VString EmptyString],
        failed_parser).
Proof.
  split; [reflexivity|].
  exact (proj1 (@sticky_error_is_kept decimal.model failed_parser
                  (NumError "Atoi" "NOT" strconv.ErrSyntax)
                  [CallString; CallInt; CallFloat64; CallString] eq_refl)).
Defined.

(** The value of an info line reaches the constructor with the blank that
    follows the colon, and is held without it. *)
Lemma newValueParser_trims_the_info_value :
  strings.SplitN_colon_2 "Manufacturer: huawei" = ["Manufacturer"; " huawei"]
  /\ newValueParser [" huawei"] = inr (valueParser.mk ["huawei"] None)
  /\ ["huawei"] <> [" huawei"].
Proof. repeat split. discriminate. Qed.

Lemma newValueParser_keeps_fields :
  newValueParser ["NOT"; "ASSIGNED"]
  = inr (valueParser.mk ["NOT"; "ASSIGNED"] None).
Proof.
  apply (proj2 (proj2 (proj2 newValueParser_keeps_trimmed_tokens))).
  repeat constructor.
Defined.

(** A response of one line: the line is the header and is skipped. *)
Lemma the_only_line_is_the_header :
  @parseStatus decimal.model ["Current Time:  71465   Temperature: 41"]
  = inr Status.zero
  /\ Status.CurrentTime (@Status.zero decimal.model) = 0%Z
  /\ Status.Temperature (@Status.zero decimal.model) = 0%Z
  /\ (0 <> 71465 * time.Second)%Z.
Proof. repeat split. discriminate. Qed.

(** A response of the two RSSI lines: the first is the header and is
    skipped, the RSRP of RxM stays at zero. *)
Lemma the_first_RSSI_line_is_the_header :
  exists s,
    @parseStatus decimal.model
      ["PCC RxM RSSI:  -84   RSRP (dBm):  -113";
       "PCC RxD RSSI:  -84   RSRP (dBm):  -111"] = inr s
    /\ Status.RSRPRXMdBm s = 0%Z /\ Status.PCCRXMRSSI s = 0%Z
    /\ Status.RSRPRXDdBm s = (-111)%Z /\ (0 <> -113)%Z.
Proof. eexists. split; [reflexivity|]. repeat split. discriminate. Qed.

(** The key [RSRP (dBm):] with no value, before any RSSI key: the error is
    the one for missing values. *)
Lemma RSRP_without_value :
  @parseStatus decimal.model ["!GSTATUS:"; "RSRP (dBm):"] = inl ErrNoValues
  /\ kind_of ErrNoValues = EmptyInput
  /\ EmptyInput <> AmbiguousField.
Proof. repeat split. discriminate. Qed.

Lemma RSRP_before_any_RSSI_on_a_response :
  @parseStatus decimal.model
    ["!GSTATUS:"; "Current Time:  71465   Temperature: 41";
     "Reset Counter: 8   RSRP (dBm):  -113"; "Mode: ONLINE"]
  = inl ErrAmbiguousRSRP.
Proof.
  refine (proj1 (proj2
    (@RSRP_before_any_RSSI decimal.model "!GSTATUS:"
       ["Current Time:  71465   Temperature: 41"]
       "Reset Counter: 8   RSRP (dBm):  -113" ["Mode: ONLINE"]
       _ _ [["Reset"; "Counter:"; "8"]] [] "-113" [] _ _ _ _ _)));
    reflexivity.
Defined.

(** A line with no field ending in a colon, after a line that fails: the
    parse stops at the first of the two, with its conversion error. *)
Lemma a_line_after_a_failure :
  length (indices_from 0 (strings.Fields "foo")) = 0
  /\ @parseStatus decimal.model ["!GSTATUS:"; "Temperature: x"; "foo"]
     = inl (NumError "Atoi" "x" strconv.ErrSyntax)
  /\ kind_of (NumError "Atoi" "x" strconv.ErrSyntax) = ConversionError
  /\ ConversionError <> UnexpectedSegmentCount.
Proof. repeat split. discriminate. Qed.

Lemma unexpected_pair_count_on_the_tests :
  @parseStatus decimal.model ["!GSTATUS:"; "foo"]
  = inl (ErrUnexpectedStatusLine 0 "foo")
  /\ @parseStatus decimal.model ["!GSTATUS:"; "foo: bar bar: baz baz: qux"]
     = inl (ErrUnexpectedStatusLine 3 "foo: bar bar: baz baz: qux").
Proof.
  split.
  - refine (proj1 (proj1 (@unexpected_pair_count decimal.model)
                     "!GSTATUS:" [] "foo" [] Status.zero 0 eq_refl eq_refl _)).
    now left.
  - refine (proj1 (proj1 (@unexpected_pair_count decimal.model)
                     "!GSTATUS:" [] "foo: bar bar: baz baz: qux" []
                     Status.zero 3 eq_refl eq_refl _)).
    right. apply le_n.
Defined.

(** [String] after a failed [Int]: the fields are still there and the
    result is empty. *)
Lemma String_of_failed_parser :
  valueParser.ss failed_parser = ["NOT"; "ASSIGNED"]
  /\ valueParser.String failed_parser = EmptyString
  /\ strings.Join (valueParser.ss failed_parser) " " = "NOT ASSIGNED".
Proof. repeat split. Qed.

Lemma String_joins_fields :
  valueParser.String (valueParser.mk ["NOT"; "ASSIGNED"] None) = "NOT ASSIGNED"
  /\ strings.Fields
       (valueParser.String (valueParser.mk ["NOT"; "ASSIGNED"] None))
     = ["NOT"; "ASSIGNED"].
Proof.
  destruct (proj1 (@String_joins_unless_failed decimal.model
                     (valueParser.mk ["NOT"; "ASSIGNED"] None)) eq_refl)
    as [Hjoin Hfields].
  split; [exact Hjoin|]. apply Hfields. repeat constructor.
Defined.

(** A status key that has no case and no value: the parse fails. *)
Lemma unknown_key_without_value :
  ~ In "Signal:" Status.keys
  /\ @parseStatus decimal.model ["!GSTATUS:"; "Signal:"] = inl ErrNoValues.
Proof.
  split; [|reflexivity].
  unfold Status.keys. cbn [In]. intuition discriminate.
Qed.

Lemma unknown_keys_are_ignored_on_lines :
  parseInfo_line Info.zero "Vendor: acme" = inr Info.zero
  /\ @parseStatus_line decimal.model Status.zero "Signal quality:  good enough"
     = inr Status.zero.
Proof.
  destruct (@unknown_keys_are_ignored decimal.model) as (Hinfo & _ & Hline & _).
  split.
  - refine (proj1 (Hinfo Info.zero "Vendor: acme" "Vendor" " acme" eq_refl _)).
    unfold info_keys. cbn [In]. intuition discriminate.
  - refine (Hline Status.zero "Signal quality:  good enough" ["Signal"]
              "quality:" "good" ["enough"] eq_refl _ eq_refl _ _).
    + repeat constructor.
    + repeat constructor.
    + unfold Status.keys. cbn. intuition discriminate.
Defined.



(** * Further properties of the package *)

Section More.
Context {FM : Float64Model}.

(** ** One key and its values *)

(** A segment with one key: the fields [kw] and [kt], of which only the last
    ends in a colon, then the values [v :: vs], none of which, once trimmed,
    ends in a colon.  [Status.parse] runs the switch once, on the key joined
    by single spaces and on the trimmed values. *)
Lemma parse_one_key (s : Status.t) (kw : list string) (kt v : string)
  (vs : list string) :
  Forall (fun t => strings.HasSuffix_colon t = false) kw ->
  strings.HasSuffix_colon kt = true ->
  Forall (fun t => strings.HasSuffix_colon (strings.TrimSpace t) = false) (v :: vs) ->
  Status.parse s (kw ++ kt :: v :: vs)
  = match Status.parse_switch s (strings.Join (kw ++ [kt]) " ")
            (valueParser.mk (map strings.TrimSpace (v :: vs)) None) with
    | (s', _, Some e) => (s', Some e)
    | (s', vp', None) =>
        match valueParser.Err vp' with
        | Some e => (s', Some e)
        | None => (s', None)
        end
    end.
Proof.
  intros Hkw Hkt Hvs. unfold Status.parse.
  rewrite length_app. cbn [length].
  rewrite (parse_range_skip kw (kt :: v :: vs) s (S (S (length vs))) Hkw
             (length kw) 0 eq_refl).
  rewrite parse_range_S.
  replace (nth (length kw) (kw ++ kt :: v :: vs) EmptyString) with kt
    by (rewrite <- (Nat.add_0_r (length kw)) at 1; now rewrite nth_length_app).
  rewrite Hkt. cbn [negb].
  replace (kw ++ kt :: v :: vs) with ((kw ++ [kt]) ++ v :: vs)
    by (now rewrite <- app_assoc).
  replace (S (length kw)) with (length (kw ++ [kt]))
    by (rewrite length_app; simpl; lia).
  rewrite firstn_length_app, skipn_length_app.
  unfold newValueParser. cbn [length Nat.eqb].
  destruct (Status.parse_switch _ _ _) as [[s' vp'] [e|]]; [reflexivity|].
  destruct (valueParser.Err vp'); [reflexivity|].
  cbn [valueParser.ss].
  apply parse_range_no_colon. intros j Hj.
  replace j with (length (kw ++ [kt]) + (j - length (kw ++ [kt]))) by lia.
  rewrite nth_length_app.
  set (j' := j - length (kw ++ [kt])). clearbody j'.
  destruct (Nat.lt_ge_cases j' (length (map strings.TrimSpace (v :: vs)))) as [Hlt|Hge].
  - rewrite length_map in Hlt.
    change EmptyString with (strings.TrimSpace EmptyString) at 1.
    rewrite map_nth.
    rewrite Forall_forall in Hvs. apply Hvs. now apply nth_In.
  - now rewrite nth_overflow.
Qed.

(** A string that [Atoi] reads holds a sign and digits: it ends in no
    colon. *)
Lemma parseUint_no_colon (s : string) :
  forall n x, strconv.parseUint n s = inr x ->
              s = EmptyString \/ strings.HasSuffix_colon s = false.
Proof.
  induction s as [|c r IH]; intros n x; [now left|].
  cbn [strconv.parseUint]. destruct (strconv.isDigit c) eqn:Hd; [|discriminate].
  cbn [negb]. destruct (_ <=? n)%Z; [discriminate|].
  destruct (_ <? _)%Z; [discriminate|].
  intros H. right. destruct r as [|c' r'].
  - cbn. destruct (Ascii.eqb c ":") eqn:E; [|reflexivity].
    apply Ascii.eqb_eq in E. subst c. cbv in Hd. discriminate.
  - destruct (IH _ _ H) as [Hr|Hr]; [discriminate|exact Hr].
Qed.

Lemma Atoi_no_colon (s : string) (x : Z) :
  strconv.Atoi s = inr x -> strings.HasSuffix_colon s = false.
Proof.
  unfold strconv.Atoi. destruct s as [|c r]; [discriminate|].
  set (neg := Ascii.eqb c "-").
  destruct (Ascii.eqb c "+" || neg)%bool eqn:Hsign.
  - destruct r as [|c' r']; [discriminate|].
    destruct (strconv.parseUint 0 (String c' r')) as [e|un] eqn:Hp; [discriminate|].
    intros _. apply parseUint_no_colon in Hp.
    destruct Hp as [Hp|Hp]; [discriminate|]. exact Hp.
  - destruct (strconv.parseUint 0 (String c r)) as [e|un] eqn:Hp; [discriminate|].
    intros _. apply parseUint_no_colon in Hp.
    destruct Hp as [Hp|Hp]; [discriminate|]. exact Hp.
Qed.

Lemma Int_reads_first (t : string) (ts : list string) (x : Z) :
  strconv.Atoi t = inr x ->
  valueParser.Int (valueParser.mk (t :: ts) None)
  = (x, valueParser.mk (t :: ts) None).
Proof. intros H. unfold valueParser.Int. cbn. now rewrite H. Qed.

Lemma field_no_colon_trimmed (ts : list string) :
  Forall (fun t => isField t = true) ts ->
  Forall (fun t => strings.HasSuffix_colon t = false) ts ->
  Forall (fun t => strings.HasSuffix_colon (strings.TrimSpace t) = false) ts.
Proof.
  intros Hf Hts. rewrite Forall_forall in *. intros t Ht.
  rewrite (TrimSpace_isField t (Hf t Ht)). now apply Hts.
Qed.

(** A line with two fields that end in a colon is parsed as two
    segments: the fields up to the first of the two and the one field that
    follows it, then all the fields that remain, the second only when the
    first gave no error. *)
Lemma two_key_line (s : Status.t) (l : string)
  (kw : list string) (kt v : string) (rest : list string) :
  strings.Fields l = kw ++ kt :: v :: rest ->
  Forall (fun t => strings.HasSuffix_colon t = false) kw ->
  strings.HasSuffix_colon kt = true ->
  length (filter strings.HasSuffix_colon (v :: rest)) = 1 ->
  parseStatus_line s l
  = match Status.parse s (kw ++ [kt; v]) with
    | (_, Some e) => inl e
    | (s1, None) =>
        match Status.parse s1 rest with
        | (_, Some e) => inl e
        | (s2, None) => inr s2
        end
    end.
Proof.
  intros Hl Hkw Hkt Hone. unfold parseStatus_line. rewrite Hl.
  rewrite (indices_from_skip kw _ Hkw 0), indices_from_cons, Hkt.
  cbn [length nth]. rewrite length_indices_from, Hone.
  replace (kw ++ kt :: v :: rest) with ((kw ++ [kt; v]) ++ rest)
    by (now rewrite <- app_assoc).
  replace (length kw + 0 + 2) with (length (kw ++ [kt; v]))
    by (rewrite length_app; simpl; lia).
  now rewrite firstn_length_app, skipn_length_app.
Qed.

(** X13.  A line with two fields that end in a colon is parsed as two
    segments: the fields up to the first of the two and the one field that
    follows it, then all the fields that remain, the second only when the
    first gave no error. *)
Theorem two_keys_split_after_one_value (s : Status.t) (l : string)
  (kw : list string) (kt v : string) (rest : list string) :
  strings.Fields l = kw ++ kt :: v :: rest ->
  Forall (fun t => strings.HasSuffix_colon t = false) kw ->
  strings.HasSuffix_colon kt = true ->
  length (filter strings.HasSuffix_colon (v :: rest)) = 1 ->
  parseStatus_line s l
  = match Status.parse s (kw ++ [kt; v]) with
    | (_, Some e) => inl e
    | (s1, None) =>
        match Status.parse s1 rest with
        | (_, Some e) => inl e
        | (s2, None) => inr s2
        end
    end.
Proof. exact (two_key_line s l kw kt v rest). Qed.

(** A line with one field that ends in a colon is parsed as one segment. *)
Lemma one_key_line (s : Status.t) (l : string) :
  length (filter strings.HasSuffix_colon (strings.Fields l)) = 1 ->
  parseStatus_line s l
  = match Status.parse s (strings.Fields l) with
    | (_, Some e) => inl e
    | (s1, None) => inr s1
    end.
Proof.
  intros H. unfold parseStatus_line. now rewrite length_indices_from, H.
Qed.

Lemma parse_switch_RxM (s : Status.t) (vp : valueParser.t) :
  Status.parse_switch s "PCC RxM RSSI:" vp
  = let (x, vp') := valueParser.Int vp in
    (Status.set_state rxmLast (Status.set_PCCRXMRSSI x s), vp', None).
Proof. reflexivity. Qed.

Lemma parse_switch_RxD (s : Status.t) (vp : valueParser.t) :
  Status.parse_switch s "PCC RxD RSSI:" vp
  = let (x, vp') := valueParser.Int vp in
    (Status.set_state rxdLast (Status.set_PCCRXDRSSI x s), vp', None).
Proof. reflexivity. Qed.

Lemma parse_switch_RSRP (s : Status.t) (vp : valueParser.t) :
  Status.parse_switch s "RSRP (dBm):" vp
  = match Status.state s with
    | rxmLast =>
        let (x, vp') := valueParser.Int vp in (Status.set_RSRPRXMdBm x s, vp', None)
    | rxdLast =>
        let (x, vp') := valueParser.Int vp in (Status.set_RSRPRXDdBm x s, vp', None)
    | statusState_0 => (s, vp, Some ErrAmbiguousRSRP)
    end.
Proof. reflexivity. Qed.

Lemma parse_switch_CurrentTime (s : Status.t) (vp : valueParser.t) :
  Status.parse_switch s "Current Time:" vp
  = let (x, vp') := valueParser.Int vp in
    (Status.set_CurrentTime (time.mul x time.Second) s, vp', None).
Proof. reflexivity. Qed.

Lemma parse_switch_Temperature (s : Status.t) (vp : valueParser.t) :
  Status.parse_switch s "Temperature:" vp
  = let (x, vp') := valueParser.Int vp in (Status.set_Temperature x s, vp', None).
Proof. reflexivity. Qed.

(** The segment of an integer key [kw ++ [kt]] with one value [a] that
    [Atoi] reads, among fields. *)
Lemma parse_int_segment (s : Status.t) (kw : list string) (kt a : string)
  (x : Z) :
  Forall (fun t => strings.HasSuffix_colon t = false) kw ->
  strings.HasSuffix_colon kt = true ->
  isField a = true -> strconv.Atoi a = inr x ->
  Status.parse s (kw ++ [kt; a])
  = match Status.parse_switch s (strings.Join (kw ++ [kt]) " ")
            (valueParser.mk [a] None) with
    | (s', _, Some e) => (s', Some e)
    | (s', vp', None) =>
        match valueParser.Err vp' with
        | Some e => (s', Some e)
        | None => (s', None)
        end
    end.
Proof.
  intros Hkw Hkt Hf Ha.
  change (kw ++ [kt; a]) with (kw ++ kt :: a :: []).
  rewrite (parse_one_key s kw kt a [] Hkw Hkt).
  - cbn [map]. now rewrite (TrimSpace_isField a Hf).
  - constructor; [|constructor].
    rewrite (TrimSpace_isField a Hf). now apply Atoi_no_colon in Ha.
Qed.

(** X7.  The value of [RSRP (dBm):] goes to the field of the RSSI key that
    was parsed last, on the same line or on a line before: after
    [PCC RxM RSSI:] to the RSRP of RxM, after [PCC RxD RSSI:] to the RSRP of
    RxD, all other fields as they were. *)
Theorem RSRP_goes_to_the_last_RSSI (s : Status.t) (l a b : string) (x y : Z) :
  strconv.Atoi a = inr x -> strconv.Atoi b = inr y ->
  (strings.Fields l = ["PCC"; "RxM"; "RSSI:"; a; "RSRP"; "(dBm):"; b] ->
   parseStatus_line s l
   = inr (Status.set_RSRPRXMdBm y
            (Status.set_state rxmLast (Status.set_PCCRXMRSSI x s))))
  /\ (strings.Fields l = ["PCC"; "RxD"; "RSSI:"; a; "RSRP"; "(dBm):"; b] ->
      parseStatus_line s l
      = inr (Status.set_RSRPRXDdBm y
               (Status.set_state rxdLast (Status.set_PCCRXDRSSI x s))))
  /\ (strings.Fields l = ["RSRP"; "(dBm):"; b] -> Status.state s = rxmLast ->
      parseStatus_line s l = inr (Status.set_RSRPRXMdBm y s))
  /\ (strings.Fields l = ["RSRP"; "(dBm):"; b] -> Status.state s = rxdLast ->
      parseStatus_line s l = inr (Status.set_RSRPRXDdBm y s)).
Proof.
  intros Ha Hb.
  pose proof (Atoi_no_colon a x Ha) as Hca.
  pose proof (Atoi_no_colon b y Hb) as Hcb.
  assert (Hpair : forall m, m = "RxM" \/ m = "RxD" ->
            strings.Fields l = ["PCC"; m; "RSSI:"; a; "RSRP"; "(dBm):"; b] ->
            isField a = true /\ isField b = true
            /\ parseStatus_line s l
               = match Status.parse s (["PCC"; m] ++ ["RSSI:"; a]) with
                 | (_, Some e) => inl e
                 | (s1, None) =>
                     match Status.parse s1 (["RSRP"] ++ ["(dBm):"; b]) with
                     | (_, Some e) => inl e
                     | (s2, None) => inr s2
                     end
                 end).
  { intros m Hm Hl. pose proof (Fields_isField l) as Hf. rewrite Hl in Hf.
    repeat (apply Forall_cons_iff in Hf; destruct Hf as [? Hf]).
    repeat split; try assumption.
    apply (two_key_line s l ["PCC"; m] "RSSI:" a
             ["RSRP"; "(dBm):"; b] Hl).
    - destruct Hm as [-> | ->]; repeat constructor.
    - reflexivity.
    - cbn [filter]. rewrite Hca, Hcb. reflexivity. }
  assert (Hsingle : strings.Fields l = ["RSRP"; "(dBm):"; b] ->
            isField b = true
            /\ parseStatus_line s l
               = match Status.parse s (["RSRP"] ++ ["(dBm):"; b]) with
                 | (_, Some e) => inl e
                 | (s1, None) => inr s1
                 end).
  { intros Hl. pose proof (Fields_isField l) as Hf. rewrite Hl in Hf.
    repeat (apply Forall_cons_iff in Hf; destruct Hf as [? Hf]).
    split; [assumption|].
    rewrite (one_key_line s l); [now rewrite Hl|].
    rewrite Hl. cbn [filter]. now rewrite Hcb. }
  split; [|split; [|split]].
  - intros Hl. destruct (Hpair "RxM" (or_introl eq_refl) Hl) as (Hfa & Hfb & ->).
    rewrite (parse_int_segment s ["PCC"; "RxM"] "RSSI:" a x); trivial;
      [|repeat constructor].
    cbn [app strings.Join String.concat String.append].
    rewrite parse_switch_RxM, (Int_reads_first a [] x Ha).
    cbn [valueParser.Err valueParser.err].
    rewrite (parse_int_segment _ ["RSRP"] "(dBm):" b y); trivial;
      [|repeat constructor].
    cbn [app strings.Join String.concat String.append].
    rewrite parse_switch_RSRP. cbn [Status.state Status.set_state].
    now rewrite (Int_reads_first b [] y Hb).
  - intros Hl. destruct (Hpair "RxD" (or_intror eq_refl) Hl) as (Hfa & Hfb & ->).
    rewrite (parse_int_segment s ["PCC"; "RxD"] "RSSI:" a x); trivial;
      [|repeat constructor].
    cbn [app strings.Join String.concat String.append].
    rewrite parse_switch_RxD, (Int_reads_first a [] x Ha).
    cbn [valueParser.Err valueParser.err].
    rewrite (parse_int_segment _ ["RSRP"] "(dBm):" b y); trivial;
      [|repeat constructor].
    cbn [app strings.Join String.concat String.append].
    rewrite parse_switch_RSRP. cbn [Status.state Status.set_state].
    now rewrite (Int_reads_first b [] y Hb).
  - intros Hl Hst. destruct (Hsingle Hl) as (Hfb & ->).
    rewrite (parse_int_segment s ["RSRP"] "(dBm):" b y); trivial;
      [|repeat constructor].
    cbn [app strings.Join String.concat String.append].
    rewrite parse_switch_RSRP, Hst.
    now rewrite (Int_reads_first b [] y Hb).
  - intros Hl Hst. destruct (Hsingle Hl) as (Hfb & ->).
    rewrite (parse_int_segment s ["RSRP"] "(dBm):" b y); trivial;
      [|repeat constructor].
    cbn [app strings.Join String.concat String.append].
    rewrite parse_switch_RSRP, Hst.
    now rewrite (Int_reads_first b [] y Hb).
Qed.

(** ** The current time *)

Lemma wrap64_small (z : Z) :
  (- 2 ^ 63 <= z < 2 ^ 63)%Z -> time.wrap64 z = z.
Proof. intros H. unfold time.wrap64. rewrite Z.mod_small; lia. Qed.

(** X10.  The value of [Current Time:] is a number of seconds and is stored
    in nanoseconds in an [int64]: exactly, for up to 9223372036 seconds
    either side of zero; past that the product wraps around, and 9223372037
    seconds are stored as a negative duration. *)
Theorem current_time_is_exact_in_range (s : Status.t) (l v : string) (x : Z) :
  strings.Fields l = ["Current"; "Time:"; v] -> strconv.Atoi v = inr x ->
  parseStatus_line s l
  = inr (Status.set_CurrentTime (time.wrap64 (x * 1000000000)) s)
  /\ ((-9223372036 <= x <= 9223372036)%Z ->
      parseStatus_line s l = inr (Status.set_CurrentTime (x * 1000000000)%Z s))
  /\ (time.wrap64 (9223372037 * 1000000000) = -9223372036709551616)%Z.
Proof.
  intros Hl Hv.
  assert (H : parseStatus_line s l
              = inr (Status.set_CurrentTime (time.wrap64 (x * 1000000000)) s)).
  { pose proof (Fields_isField l) as Hf. rewrite Hl in Hf.
    repeat (apply Forall_cons_iff in Hf; destruct Hf as [? Hf]).
    rewrite (one_key_line s l);
      [|rewrite Hl; cbn [filter]; now rewrite (Atoi_no_colon v x Hv)].
    rewrite Hl. change ["Current"; "Time:"; v] with (["Current"] ++ ["Time:"; v]).
    rewrite (parse_int_segment s ["Current"] "Time:" v x); trivial;
      [|repeat constructor].
    cbn [app strings.Join String.concat String.append].
    rewrite parse_switch_CurrentTime, (Int_reads_first v [] x Hv).
    reflexivity. }
  split; [exact H|]. split; [|reflexivity].
  intros Hx. rewrite H, wrap64_small; [reflexivity|lia].
Qed.

(** ** The state of the parse *)

Lemma parse_switch_state_set (s s' : Status.t) (k : string)
  (vp vp' : valueParser.t) (oe : option error) :
  Status.parse_switch s k vp = (s', vp', oe) ->
  Status.state s <> statusState_0 -> Status.state s' <> statusState_0.
Proof.
  intros H Hs.
  destruct (String.eqb k "PCC RxM RSSI:") eqn:Em.
  { apply String.eqb_eq in Em. subst k.
    pose proof (proj1 (parse_switch_RSSI s vp)) as Hm. rewrite H in Hm.
    cbn [fst] in Hm. rewrite Hm. discriminate. }
  destruct (String.eqb k "PCC RxD RSSI:") eqn:Ed.
  { apply String.eqb_eq in Ed. subst k.
    pose proof (proj2 (parse_switch_RSSI s vp)) as Hd. rewrite H in Hd.
    cbn [fst] in Hd. rewrite Hd. discriminate. }
  apply String.eqb_neq in Em, Ed.
  now rewrite (parse_switch_state s s' k vp vp' oe H Em Ed).
Qed.

Lemma parse_range_state_set (n : nat) :
  forall (i : nat) (s s' : Status.t) (ss : list string) (oe : option error),
    Status.state s <> statusState_0 ->
    Status.parse_range n i s ss = (s', oe) ->
    Status.state s' <> statusState_0 /\ oe <> Some ErrAmbiguousRSRP.
Proof.
  induction n as [|n IH]; intros i s s' ss oe Hs.
  - simpl. intros H. injection H as <- <-. split; [exact Hs|discriminate].
  - rewrite parse_range_S. destruct (negb _); [now apply IH|].
    destruct (newValueParser _) as [e0|vp] eqn:Hnew.
    + unfold newValueParser in Hnew. destruct (Nat.eqb _ _); [|discriminate].
      injection Hnew as <-. intros H. injection H as <- <-.
      split; [exact Hs|discriminate].
    + apply newValueParser_nonempty in Hnew. destruct Hnew as (_ & Hnone & _).
      destruct (Status.parse_switch _ _ _) as [[s1 vp1] oe1] eqn:Hsw.
      pose proof (parse_switch_state_set _ _ _ _ _ _ Hsw Hs) as Hs1.
      apply parse_switch_spec in Hsw. destruct Hsw as [Hstep Hoe].
      destruct oe1 as [e1|].
      * destruct Hoe as [Hoe|(_ & _ & Hz & _)]; [discriminate|contradiction].
      * destruct (valueParser.Err vp1) as [e1|] eqn:Herr; [|now apply IH].
        intros H. injection H as <- <-. split; [exact Hs1|].
        destruct Hstep as [->|(_ & f & c & ->)].
        -- unfold valueParser.Err in Herr. congruence.
        -- injection Herr as <-. discriminate.
Qed.

Lemma parseStatus_line_state_set (s : Status.t) (l : string) :
  Status.state s <> statusState_0 ->
  parseStatus_line s l <> inl ErrAmbiguousRSRP
  /\ (forall s', parseStatus_line s l = inr s' ->
                 Status.state s' <> statusState_0).
Proof.
  intros Hs. unfold parseStatus_line.
  destruct (length (indices_from 0 (strings.Fields l))) as [|[|[|n]]].
  - split; [discriminate|]. intros s'; discriminate.
  - destruct (Status.parse s _) as [s1 oe] eqn:Hp.
    apply (parse_range_state_set _ _ _ _ _ _ Hs) in Hp. destruct Hp as [H1 He].
    destruct oe as [e|].
    + split; [congruence|]. intros s'; discriminate.
    + split; [discriminate|]. intros s' H. injection H as <-. exact H1.
  - destruct (Status.parse s _) as [s1 oe] eqn:Hp.
    apply (parse_range_state_set _ _ _ _ _ _ Hs) in Hp. destruct Hp as [H1 He].
    destruct oe as [e|].
    + split; [congruence|]. intros s'; discriminate.
    + destruct (Status.parse s1 _) as [s2 oe2] eqn:Hp2.
      apply (parse_range_state_set _ _ _ _ _ _ H1) in Hp2.
      destruct Hp2 as [H2 He2]. destruct oe2 as [e|].
      * split; [congruence|]. intros s'; discriminate.
      * split; [discriminate|]. intros s' H. injection H as <-. exact H2.
  - split; [discriminate|]. intros s'; discriminate.
Qed.

(** X6.  [state] never goes back to its zero value: from a record in which
    it is set, [Status.parse] leaves it set, and neither a segment nor any
    number of lines can fail with the error of the ambiguous key.  After the
    first RSSI key, every [RSRP (dBm):] has a field to go to. *)
Theorem no_ambiguity_once_state_is_set (s : Status.t) :
  Status.state s <> statusState_0 ->
  (forall ss s' oe,
      Status.parse s ss = (s', oe) ->
      Status.state s' <> statusState_0 /\ oe <> Some ErrAmbiguousRSRP)
  /\ (forall lines i,
         parseStatus_range (S i) s lines <> inl ErrAmbiguousRSRP
         /\ forall s', parseStatus_range (S i) s lines = inr s' ->
                       Status.state s' <> statusState_0).
Proof.
  intros Hs. split.
  - intros ss s' oe. unfold Status.parse. now apply parse_range_state_set.
  - intros lines. revert s Hs.
    induction lines as [|l lines IH]; intros s Hs i; simpl.
    + split; [discriminate|]. intros s' H. injection H as <-. exact Hs.
    + destruct (parseStatus_line_state_set s l Hs) as [Hne Hst].
      destruct (parseStatus_line s l) as [e|s1]; [|now apply IH, Hst].
      split; [congruence|]. intros s'; discriminate.
Qed.

(** ** Errors and bounds *)

Lemma parseStatus_line_errors (s : Status.t) (l : string) (e : error) :
  parseStatus_line s l = inl e ->
  kind_of e = EmptyInput \/ kind_of e = AmbiguousField
  \/ kind_of e = ConversionError \/ kind_of e = UnexpectedSegmentCount.
Proof.
  unfold parseStatus_line.
  assert (Hp : forall s0 ss s1 e0, Status.parse s0 ss = (s1, Some e0) ->
                 kind_of e0 = EmptyInput \/ kind_of e0 = AmbiguousField
                 \/ kind_of e0 = ConversionError
                 \/ kind_of e0 = UnexpectedSegmentCount).
  { intros s0 ss s1 e0 H. apply parse_range_errors in H. tauto. }
  destruct (length (indices_from 0 (strings.Fields l))) as [|[|[|n]]].
  - intros H. injection H as <-. tauto.
  - destruct (Status.parse s _) as [s1 [e0|]] eqn:H1; [|discriminate].
    intros H. injection H as <-. eauto.
  - destruct (Status.parse s _) as [s1 [e0|]] eqn:H1.
    + intros H. injection H as <-. eauto.
    + destruct (Status.parse s1 _) as [s2 [e0|]] eqn:H2; [|discriminate].
      intros H. injection H as <-. eauto.
  - intros H. injection H as <-. tauto.
Qed.

Lemma parseStatus_range_errors (lines : list string) :
  forall (i : nat) (s : Status.t) (e : error),
    parseStatus_range (S i) s lines = inl e ->
    kind_of e = EmptyInput \/ kind_of e = AmbiguousField
    \/ kind_of e = ConversionError \/ kind_of e = UnexpectedSegmentCount.
Proof.
  induction lines as [|l lines IH]; intros i s e; simpl; [discriminate|].
  destruct (parseStatus_line s l) as [e0|s1] eqn:Hl; [|apply IH].
  intros H. injection H as <-. now apply parseStatus_line_errors in Hl.
Qed.

(** X5.  The errors of the parsers, by kind.  [parseStatus] fails for
    missing values, the ambiguous key, a failed conversion or the number of
    pairs on a line; [parseInfo] for a line with no colon or a failed
    conversion.  The error of an empty response comes from [Device.Status]
    and [Device.Info] alone, and these add nothing else but the error of the
    transport. *)
Theorem errors_by_kind :
  (forall lines e,
      parseStatus lines = inl e ->
      kind_of e = EmptyInput \/ kind_of e = AmbiguousField
      \/ kind_of e = ConversionError \/ kind_of e = UnexpectedSegmentCount)
  /\ (forall lines e,
         parseInfo lines = inl e ->
         kind_of e = MalformedLine \/ kind_of e = ConversionError)
  /\ (forall d e,
         Device_Status d = inl e ->
         snd (Command d "!GSTATUS?") = Some e
         \/ (e = ErrEmptyStatusResponse /\ Command d "!GSTATUS?" = ([], None))
         \/ parseStatus (fst (Command d "!GSTATUS?")) = inl e)
  /\ (forall d e,
         Device_Info d = inl e ->
         snd (Command d "I") = Some e
         \/ (e = ErrEmptyInfoResponse /\ Command d "I" = ([], None))
         \/ parseInfo (fst (Command d "I")) = inl e).
Proof.
  split; [|split; [|split]].
  - intros [|hdr lines] e; [discriminate|]. rewrite parseStatus_header.
    apply parseStatus_range_errors.
  - exact parseInfo_errors.
  - intros d e. unfold Device_Status.
    destruct (Command d "!GSTATUS?") as [ss [e0|]]; cbn [fst snd].
    + intros H. injection H as <-. now left.
    + destruct ss as [|l ss]; cbn [length Nat.eqb].
      * intros H. injection H as <-. right; left. now split.
      * intros H. right; right. exact H.
  - intros d e. unfold Device_Info.
    destruct (Command d "I") as [ss [e0|]]; cbn [fst snd].
    + intros H. injection H as <-. now left.
    + destruct ss as [|l ss]; cbn [length Nat.eqb].
      * intros H. injection H as <-. right; left. now split.
      * intros H. right; right. exact H.
Qed.

Lemma indices_from_bound (ss : list string) :
  forall i j, In j (indices_from i ss) -> i <= j < i + length ss.
Proof.
  induction ss as [|t ss IH]; intros i j; simpl; [tauto|].
  destruct (strings.HasSuffix_colon t); simpl.
  - intros [<-|H]; [lia|]. apply IH in H. lia.
  - intros H. apply IH in H. lia.
Qed.

(** X8.  The indices and slices of the later revision stay in range.  Every
    index that [parseStatus] records is an index of the line; with two of
    them, [indices[0] + 2] is at most the length of the line, so [ss[:next]]
    and [ss[next:]] are slices of it; and a value parser that the
    constructor returns holds at least one string, so [vp.ss[0]] exists. *)
Theorem indices_and_slices_in_range (ss : list string) :
  (forall j, In j (indices_from 0 ss) -> j < length ss)
  /\ (length (indices_from 0 ss) = 2 ->
      nth 0 (indices_from 0 ss) 0 + 2 <= length ss)
  /\ (forall vp, newValueParser ss = inr vp ->
                 0 < length (valueParser.ss vp)).
Proof.
  split; [|split].
  - intros j H. apply indices_from_bound in H. lia.
  - intros H. apply (next_in_range ss 0) in H. lia.
  - intros vp H. apply newValueParser_nonempty in H.
    destruct H as (Hne & _ & _). destruct (valueParser.ss vp); [easy|simpl; lia].
Qed.

(** ** What a response that parses looks like *)

Lemma last_is_nth (ss : list string) :
  last ss EmptyString = nth (length ss - 1) ss EmptyString.
Proof.
  induction ss as [|t ss IH]; [reflexivity|].
  destruct ss as [|t' ss']; [reflexivity|].
  change (last (t :: t' :: ss') EmptyString) with (last (t' :: ss') EmptyString).
  rewrite IH. simpl. now rewrite Nat.sub_0_r.
Qed.

Lemma last_skipn (n : nat) (ss : list string) :
  skipn n ss <> [] -> last (skipn n ss) EmptyString = last ss EmptyString.
Proof.
  revert ss. induction n as [|n IH]; intros ss; [reflexivity|].
  destruct ss as [|t ss]; [easy|]. cbn [skipn]. intros H.
  rewrite (IH ss H). destruct ss; [now destruct n|reflexivity].
Qed.

(** A segment of fields whose last field ends in a colon: the key has no
    value, and [Status.parse] returns an error. *)
Lemma parse_range_key_last (ss : list string) :
  Forall (fun t => isField t = true) ss ->
  ends_with_key ss = true ->
  forall n i s, i + n = length ss -> i < length ss ->
                snd (Status.parse_range n i s ss) <> None.
Proof.
  intros Hf Hlast. unfold ends_with_key in Hlast. rewrite last_is_nth in Hlast.
  induction n as [|n IH]; intros i s Hn Hi; [lia|].
  rewrite parse_range_S.
  destruct (strings.HasSuffix_colon (nth i ss EmptyString)) eqn:Hc; cbn [negb].
  - unfold newValueParser.
    destruct (skipn (S i) ss) as [|v vs] eqn:Hskip; cbn [length Nat.eqb].
    + cbn. discriminate.
    + assert (Hlen : S i < length ss).
      { assert (length (skipn (S i) ss) = length ss - S i) by apply length_skipn.
        rewrite Hskip in H. simpl in H. lia. }
      rewrite <- Hskip.
      rewrite (map_TrimSpace_fields _ (Forall_isField_skipn (S i) ss Hf)).
      destruct (Status.parse_switch _ _ _) as [[s1 vp1] [e|]]; [cbn; discriminate|].
      destruct (valueParser.Err vp1); [cbn; discriminate|].
      cbn [valueParser.ss]. rewrite firstn_skipn. apply IH; lia.
  - apply IH; [lia|].
    destruct (Nat.eq_dec i (length ss - 1)) as [->|Hne]; [congruence|lia].
Qed.

Lemma parse_key_last (s : Status.t) (ss : list string) :
  Forall (fun t => isField t = true) ss ->
  ends_with_key ss = true ->
  snd (Status.parse s ss) <> None.
Proof.
  intros Hf Hlast. unfold Status.parse.
  destruct ss as [|t ts]; [discriminate|].
  apply parse_range_key_last; trivial; simpl; lia.
Qed.

Lemma parseStatus_line_ok (s s' : Status.t) (l : string) :
  parseStatus_line s l = inr s' ->
  (length (indices_from 0 (strings.Fields l)) = 1
   \/ length (indices_from 0 (strings.Fields l)) = 2)
  /\ ends_with_key (strings.Fields l) = false.
Proof.
  unfold parseStatus_line. pose proof (Fields_isField l) as Hf.
  destruct (length (indices_from 0 (strings.Fields l))) as [|[|[|n]]] eqn:Hn;
    try discriminate.
  - intros H. split; [now left|].
    destruct (ends_with_key (strings.Fields l)) eqn:He; [|reflexivity].
    pose proof (parse_key_last s _ Hf He) as Hp.
    destruct (Status.parse s (strings.Fields l)) as [s1 [e|]];
      [discriminate|now cbn in Hp].
  - intros H. split; [now right|].
    destruct (ends_with_key (strings.Fields l)) eqn:He; [|reflexivity].
    exfalso. revert H.
    set (next := nth 0 (indices_from 0 (strings.Fields l)) 0 + 2).
    destruct (skipn next (strings.Fields l)) as [|t ts] eqn:Hskip.
    + assert (Hall : firstn next (strings.Fields l) = strings.Fields l).
      { rewrite <- (firstn_skipn next (strings.Fields l)) at 2.
        now rewrite Hskip, app_nil_r. }
      rewrite Hall.
      pose proof (parse_key_last s _ Hf He) as Hp.
      destruct (Status.parse s (strings.Fields l)) as [s1 [e|]];
        [discriminate|now cbn in Hp].
    + destruct (Status.parse s _) as [s1 [e|]]; [discriminate|].
      assert (He2 : ends_with_key (t :: ts) = true).
      { unfold ends_with_key in *. rewrite <- Hskip.
        rewrite last_skipn; [exact He|]. rewrite Hskip. discriminate. }
      assert (Hf2 : Forall (fun x => isField x = true) (t :: ts)).
      { rewrite <- Hskip. now apply Forall_isField_skipn. }
      pose proof (parse_key_last s1 _ Hf2 He2) as Hp.
      destruct (Status.parse s1 (t :: ts)) as [s2 [e|]];
        [discriminate|now cbn in Hp].
Qed.

Lemma parseStatus_range_ok (lines : list string) :
  forall (i : nat) (s0 s : Status.t),
    parseStatus_range (S i) s0 lines = inr s ->
    Forall (fun l =>
              (length (indices_from 0 (strings.Fields l)) = 1
               \/ length (indices_from 0 (strings.Fields l)) = 2)
              /\ ends_with_key (strings.Fields l) = false)
      lines.
Proof.
  induction lines as [|l lines IH]; intros i s0 s; simpl; [constructor|].
  destruct (parseStatus_line s0 l) as [e|s1] eqn:Hl; [discriminate|].
  intros H. constructor; [now apply (parseStatus_line_ok s0 s1)|].
  now apply (IH (S i) s1 s).
Qed.

(** X9.  When [parseStatus] returns a record, every line after the header
    held one or two fields ending in a colon, and none ended in such a
    field: every response that parses gives each of its keys a value. *)
Theorem parsed_lines_are_well_formed (lines : list string) (s : Status.t) :
  parseStatus lines = inr s ->
  Forall (fun l =>
            (length (indices_from 0 (strings.Fields l)) = 1
             \/ length (indices_from 0 (strings.Fields l)) = 2)
            /\ ends_with_key (strings.Fields l) = false)
    (tl lines).
Proof.
  destruct lines as [|hdr lines]; [constructor|].
  rewrite parseStatus_header. cbn [tl]. apply parseStatus_range_ok.
Qed.

(** ** The earlier revision of the status parser *)

(** One iteration of the loop of the earlier [Status.parse]. *)
Lemma Earlier_parse_range_S (n i : nat) (e : Earlier.Status.t) (ss : list string) :
  Earlier.Status.parse_range (S n) i e ss
  = if negb (strings.HasSuffix_colon (nth i ss EmptyString))
    then Earlier.Status.parse_range n (S i) e ss
    else
      if String.eqb (strings.Join (firstn (S i) ss) " ") "Current Time:" then
        match skipn (S i) ss with
        | [] => Earlier.Panic
        | v0 :: _ =>
            match strconv.Atoi v0 with
            | inl c => Earlier.Done (e, Some (NumError "Atoi" v0 c))
            | inr x =>
                Earlier.Status.parse_range n (S i)
                  (Earlier.Status.set_CurrentTime (time.mul x time.Second) e) ss
            end
        end
      else if String.eqb (strings.Join (firstn (S i) ss) " ") "Temperature:" then
        match skipn (S i) ss with
        | [] => Earlier.Panic
        | v0 :: _ =>
            match strconv.Atoi v0 with
            | inl c => Earlier.Done (e, Some (NumError "Atoi" v0 c))
            | inr x =>
                Earlier.Status.parse_range n (S i)
                  (Earlier.Status.set_Temperature x e) ss
            end
        end
      else Earlier.Status.parse_range n (S i) e ss.
Proof. reflexivity. Qed.

Lemma Earlier_parse_range_skip (kw rest : list string) (e : Earlier.Status.t)
  (m : nat) :
  Forall (fun t => strings.HasSuffix_colon t = false) kw ->
  forall d i, i + d = length kw ->
    Earlier.Status.parse_range (d + m) i e (kw ++ rest)
    = Earlier.Status.parse_range m (length kw) e (kw ++ rest).
Proof.
  intros Hkw. induction d as [|d IH]; intros i Hi.
  - simpl. replace i with (length kw) by lia. reflexivity.
  - cbn [Nat.add]. rewrite Earlier_parse_range_S.
    assert (Hn : strings.HasSuffix_colon (nth i (kw ++ rest) EmptyString) = false).
    { rewrite app_nth1 by lia.
      rewrite Forall_forall in Hkw. apply Hkw. apply nth_In. lia. }
    rewrite Hn. cbn [negb]. apply IH. lia.
Qed.

(** X11.  A line that is a key and nothing else.  The later revision returns
    the error for missing values, whatever the key.  The earlier revision
    reads [v[0]] of the empty slice and panics when the key is one of its
    two, [Current Time:] and [Temperature:], and passes over any other
    key. *)
Theorem key_without_value_in_both_revisions (l : string) (kw : list string)
  (kt : string) (s : Status.t) (e : Earlier.Status.t) :
  strings.Fields l = kw ++ [kt] ->
  Forall (fun t => strings.HasSuffix_colon t = false) kw ->
  strings.HasSuffix_colon kt = true ->
  parseStatus_line s l = inl ErrNoValues
  /\ Earlier.parseStatus_line e l
     = if (String.eqb (strings.Join (kw ++ [kt]) " ") "Current Time:"
           || String.eqb (strings.Join (kw ++ [kt]) " ") "Temperature:")%bool
       then Earlier.Panic
       else Earlier.Done (inr e).
Proof.
  intros Hl Hkw Hkt.
  assert (Hcount : length (indices_from 0 (kw ++ [kt])) = 1).
  { rewrite length_indices_from, filter_app, (filter_no_colon kw Hkw).
    cbn [filter app]. now rewrite Hkt. }
  assert (Hnth : nth (length kw) (kw ++ [kt]) EmptyString = kt).
  { rewrite <- (Nat.add_0_r (length kw)) at 1. now rewrite nth_length_app. }
  assert (Hlen : S (length kw) = length (kw ++ [kt])).
  { rewrite length_app. simpl. lia. }
  split.
  - unfold parseStatus_line. rewrite Hl, Hcount. unfold Status.parse.
    rewrite length_app. cbn [length].
    rewrite (parse_range_skip kw [kt] s 1 Hkw (length kw) 0 eq_refl).
    rewrite parse_range_S, Hnth, Hkt. cbn [negb].
    rewrite Hlen, skipn_all. reflexivity.
  - unfold Earlier.parseStatus_line. rewrite Hl, Hcount.
    unfold Earlier.Status.parse. rewrite length_app. cbn [length].
    rewrite (Earlier_parse_range_skip kw [kt] e 1 Hkw (length kw) 0 eq_refl).
    rewrite Earlier_parse_range_S, Hnth, Hkt. cbn [negb].
    rewrite Hlen, skipn_all, firstn_all.
    destruct (String.eqb _ "Current Time:"); [reflexivity|].
    destruct (String.eqb _ "Temperature:"); reflexivity.
Qed.

(** The cases of the other keys leave the two fields of the earlier
    revision as they are. *)
Lemma parse_switch_other_keys (s s' : Status.t) (k : string)
  (vp vp' : valueParser.t) (oe : option error) :
  Status.parse_switch s k vp = (s', vp', oe) ->
  k <> "Current Time:" -> k <> "Temperature:" ->
  Status.CurrentTime s' = Status.CurrentTime s
  /\ Status.Temperature s' = Status.Temperature s.
Proof.
  unfold Status.parse_switch. intros H Hc Ht. revert H.
  repeat switch_case k
    ltac:(fun E =>
            try contradiction;
            try destruct (Status.state s) eqn:Hst;
            split_pair_lets; intros H; inversion H; subst;
            split; reflexivity).
  intros H; inversion H; subst. split; reflexivity.
Qed.

Lemma earlier_follows_range (n : nat) :
  forall (i : nat) (s s' : Status.t) (e : Earlier.Status.t) (ss : list string),
    Forall (fun t => isField t = true) ss ->
    Earlier.Status.CurrentTime e = Status.CurrentTime s ->
    Earlier.Status.Temperature e = Status.Temperature s ->
    Status.parse_range n i s ss = (s', None) ->
    exists e',
      Earlier.Status.parse_range n i e ss = Earlier.Done (e', None)
      /\ Earlier.Status.CurrentTime e' = Status.CurrentTime s'
      /\ Earlier.Status.Temperature e' = Status.Temperature s'
      /\ Earlier.Status.ResetCounter e' = Earlier.Status.ResetCounter e.
Proof.
  induction n as [|n IH]; intros i s s' e ss Hf Hc Ht.
  - simpl. intros H. injection H as <-. exists e. now repeat split.
  - rewrite parse_range_S, Earlier_parse_range_S.
    destruct (negb _); [now apply IH|].
    unfold newValueParser.
    destruct (skipn (S i) ss) as [|v0 vs] eqn:Hskip; cbn [length Nat.eqb];
      [discriminate|].
    assert (Htrim : map strings.TrimSpace (v0 :: vs) = v0 :: vs).
    { apply map_TrimSpace_fields. rewrite <- Hskip.
      now apply Forall_isField_skipn. }
    rewrite Htrim.
    destruct (Status.parse_switch _ _ _) as [[s1 vp1] oe1] eqn:Hsw.
    destruct oe1 as [e1|]; [discriminate|].
    destruct (valueParser.Err vp1) as [e1|] eqn:Herr; [discriminate|].
    cbn [valueParser.ss]. rewrite <- Hskip, firstn_skipn.
    destruct (String.eqb _ "Current Time:") eqn:Ec.
    { apply String.eqb_eq in Ec. rewrite Ec, parse_switch_CurrentTime in Hsw.
      unfold valueParser.Int in Hsw. cbn [valueParser.err valueParser.ss nth] in Hsw.
      destruct (strconv.Atoi v0) as [c|x]; injection Hsw as <- <-;
        [discriminate|].
      intros Hp.
      destruct (IH (S i) (Status.set_CurrentTime (time.mul x time.Second) s) s'
                  (Earlier.Status.set_CurrentTime (time.mul x time.Second) e)
                  ss Hf eq_refl Ht Hp) as (e' & He' & Hc' & Ht' & Hr').
      exists e'. now repeat split. }
    destruct (String.eqb _ "Temperature:") eqn:Et.
    { apply String.eqb_eq in Et. rewrite Et, parse_switch_Temperature in Hsw.
      unfold valueParser.Int in Hsw. cbn [valueParser.err valueParser.ss nth] in Hsw.
      destruct (strconv.Atoi v0) as [c|x]; injection Hsw as <- <-;
        [discriminate|].
      intros Hp.
      destruct (IH (S i) (Status.set_Temperature x s) s'
                  (Earlier.Status.set_Temperature x e)
                  ss Hf Hc eq_refl Hp) as (e' & He' & Hc' & Ht' & Hr').
      exists e'. now repeat split. }
    apply String.eqb_neq in Ec, Et.
    destruct (parse_switch_other_keys _ _ _ _ _ _ Hsw Ec Et) as [Hc1 Ht1].
    apply IH; trivial; congruence.
Qed.

Lemma earlier_follows_line (s s' : Status.t) (e : Earlier.Status.t) (l : string) :
  Earlier.Status.CurrentTime e = Status.CurrentTime s ->
  Earlier.Status.Temperature e = Status.Temperature s ->
  parseStatus_line s l = inr s' ->
  exists e',
    Earlier.parseStatus_line e l = Earlier.Done (inr e')
    /\ Earlier.Status.CurrentTime e' = Status.CurrentTime s'
    /\ Earlier.Status.Temperature e' = Status.Temperature s'
    /\ Earlier.Status.ResetCounter e' = Earlier.Status.ResetCounter e.
Proof.
  intros Hc Ht. unfold parseStatus_line, Earlier.parseStatus_line.
  pose proof (Fields_isField l) as Hf.
  destruct (length (indices_from 0 (strings.Fields l))) as [|[|[|n]]];
    try discriminate.
  - destruct (Status.parse s _) as [s1 [e1|]] eqn:Hp; [discriminate|].
    intros H. injection H as <-.
    destruct (earlier_follows_range _ _ _ _ e _ Hf Hc Ht Hp) as (e' & He & Hrest).
    exists e'. unfold Earlier.Status.parse. now rewrite He.
  - set (next := nth 0 (indices_from 0 (strings.Fields l)) 0 + 2).
    destruct (Status.parse s _) as [s1 [e1|]] eqn:Hp; [discriminate|].
    destruct (Status.parse s1 _) as [s2 [e2|]] eqn:Hp2; [discriminate|].
    intros H. injection H as <-.
    destruct (earlier_follows_range _ _ _ _ e _
                (Forall_isField_firstn next _ Hf) Hc Ht Hp)
      as (e1 & He1 & Hc1 & Ht1 & Hr1).
    destruct (earlier_follows_range _ _ _ _ e1 _
                (Forall_isField_skipn next _ Hf) Hc1 Ht1 Hp2)
      as (e2 & He2 & Hc2 & Ht2 & Hr2).
    exists e2. unfold Earlier.Status.parse. rewrite He1, He2.
    repeat split; congruence.
Qed.

Lemma earlier_follows_lines (lines : list string) :
  forall (i : nat) (s s' : Status.t) (e : Earlier.Status.t),
    Earlier.Status.CurrentTime e = Status.CurrentTime s ->
    Earlier.Status.Temperature e = Status.Temperature s ->
    parseStatus_range (S i) s lines = inr s' ->
    exists e',
      Earlier.parseStatus_range (S i) e lines = Earlier.Done (inr e')
      /\ Earlier.Status.CurrentTime e' = Status.CurrentTime s'
      /\ Earlier.Status.Temperature e' = Status.Temperature s'
      /\ Earlier.Status.ResetCounter e' = Earlier.Status.ResetCounter e.
Proof.
  induction lines as [|l lines IH]; intros i s s' e Hc Ht; simpl.
  - intros H. injection H as <-. exists e. now repeat split.
  - destruct (parseStatus_line s l) as [e0|s1] eqn:Hl; [discriminate|].
    destruct (earlier_follows_line s s1 e l Hc Ht Hl) as (e1 & -> & Hc1 & Ht1 & Hr1).
    intros H. destruct (IH (S i) s1 s' e1 Hc1 Ht1 H) as (e2 & He2 & Hc2 & Ht2 & Hr2).
    exists e2. repeat split; congruence.
Qed.

(** X12.  The later revision refines the earlier one.  Whenever the later
    [parseStatus] returns a record, the earlier one returns, on the same
    lines, without panic or error, the record with the same current time and
    temperature and its reset counter at zero; so does [Device.Status]. *)
Theorem earlier_revision_agrees_on_success :
  (forall (lines : list string) (s : Status.t),
      parseStatus lines = inr s ->
      Earlier.parseStatus lines
      = Earlier.Done (inr (Earlier.Status.mk (Status.CurrentTime s)
                             (Status.Temperature s) 0%Z)))
  /\ (forall (d : Device) (s : Status.t),
         Device_Status d = inr s ->
         Earlier.Device_Status d
         = Earlier.Done (inr (Earlier.Status.mk (Status.CurrentTime s)
                                (Status.Temperature s) 0%Z))).
Proof.
  assert (He : forall lines s,
             parseStatus lines = inr s ->
             Earlier.parseStatus lines
             = Earlier.Done (inr (Earlier.Status.mk (Status.CurrentTime s)
                                    (Status.Temperature s) 0%Z))).
  { intros [|hdr lines] s H.
    - injection H as <-. reflexivity.
    - rewrite parseStatus_header in H.
      destruct (earlier_follows_lines lines 0 Status.zero s Earlier.Status.zero
                  eq_refl eq_refl H) as (e' & He' & Hc & Ht & Hr).
      unfold Earlier.parseStatus. cbn [Earlier.parseStatus_range Nat.eqb].
      rewrite He'. destruct e' as [c t r]. cbn in Hc, Ht, Hr. now subst. }
  split; [exact He|].
  intros d s. unfold Device_Status, Earlier.Device_Status.
  destruct (Command d "!GSTATUS?") as [ss [e0|]]; [discriminate|].
  destruct (Nat.eqb (length ss) 0); [discriminate|]. apply He.
Qed.

(** ** The info parser *)

(** X1.  The two revisions of the info parser agree: the [parseInfo] of
    [src/device.go], which trims and converts by hand, and the one that goes
    through the value parser return the same record or the same error on
    every response, and so do the two [Device.Info]. *)
Theorem info_revisions_agree :
  (forall lines, Legacy.parseInfo lines = parseInfo lines)
  /\ (forall d, Legacy.Device_Info d = Device_Info d).
Proof.
  split; [exact Legacy_parseInfo|].
  intros d. unfold Legacy.Device_Info, Device_Info.
  destruct (Command d "I") as [ss [e|]]; [reflexivity|].
  destruct (Nat.eqb (length ss) 0); [reflexivity|apply Legacy_parseInfo].
Qed.

(** The error of a line does not depend on the record. *)
Lemma parseInfo_line_by_error (i : Info.t) (l : string) :
  match info_line_error l with
  | Some e => parseInfo_line i l = inl e
  | None => exists i', parseInfo_line i l = inr i'
  end.
Proof.
  rewrite <- Legacy_parseInfo_line.
  unfold info_line_error, Legacy.parseInfo_line, strings.SplitN_colon_2.
  destruct (strings.cut ":" l) as [[k v]|]; cbn [length Nat.eqb negb nth];
    [|reflexivity].
  destruct (String.eqb k "IMEI SV") eqn:E.
  - apply String.eqb_eq in E. subst k. cbn [String.eqb Ascii.eqb Bool.eqb].
    destruct (strconv.Atoi _); [reflexivity|eauto].
  - repeat match goal with
           | |- context [String.eqb k ?lit] =>
               destruct (String.eqb k lit); [eauto|]
           end.
    eauto.
Qed.

Lemma parseInfo_range_app (pre rest : list string) :
  forall i,
    parseInfo_range i (pre ++ rest)
    = match parseInfo_range i pre with
      | inl e => inl e
      | inr i' => parseInfo_range i' rest
      end.
Proof.
  induction pre as [|l pre IH]; intros i; simpl; [reflexivity|].
  destruct (parseInfo_line i l); [reflexivity|apply IH].
Qed.

Lemma parseInfo_range_ok (lines : list string) :
  forall i,
    Forall (fun l => info_line_error l = None) lines <->
    exists i', parseInfo_range i lines = inr i'.
Proof.
  induction lines as [|l lines IH]; intros i; simpl.
  - split; [eauto|constructor].
  - pose proof (parseInfo_line_by_error i l) as Hl. split.
    + intros H. apply Forall_cons_iff in H. destruct H as [He H].
      rewrite He in Hl. destruct Hl as [i1 ->]. now apply IH.
    + intros [i' H]. destruct (info_line_error l) as [e|] eqn:He.
      * rewrite Hl in H. discriminate.
      * destruct Hl as [i1 Hl]. rewrite Hl in H.
        constructor; [exact He|]. apply (IH i1). eauto.
Qed.

(** X3.  [parseInfo] returns a record exactly when every line has a colon
    and every value of [IMEI SV] is an integer; otherwise it returns the
    error of the first line that is not so: the line itself when it has no
    colon, the conversion error of the trimmed value for [IMEI SV]. *)
Theorem parseInfo_fails_on_the_first_bad_line :
  (forall lines,
      Forall (fun l => info_line_error l = None) lines <->
      exists i, parseInfo lines = inr i)
  /\ (forall pre l post e,
         Forall (fun l => info_line_error l = None) pre ->
         info_line_error l = Some e ->
         parseInfo (pre ++ l :: post) = inl e).
Proof.
  split.
  - intros lines. apply parseInfo_range_ok.
  - intros pre l post e Hpre Hl. unfold parseInfo.
    rewrite parseInfo_range_app.
    apply (parseInfo_range_ok pre Info.zero) in Hpre. destruct Hpre as [i ->].
    simpl. pose proof (parseInfo_line_by_error i l) as H. rewrite Hl in H.
    now rewrite H.
Qed.

(** X4.  The value of an info line is all that follows its first colon,
    later colons included, without the white space around it: for each key
    the record after the line, whatever the value [v]. *)
Theorem info_value_is_the_trimmed_rest (i : Info.t) (v : string) :
  parseInfo_line i ("Manufacturer:" ++ v)
  = inr (Info.set_Manufacturer (strings.TrimSpace v) i)
  /\ parseInfo_line i ("Model:" ++ v) = inr (Info.set_Model (strings.TrimSpace v) i)
  /\ parseInfo_line i ("Revision:" ++ v)
     = inr (Info.set_Revision (strings.TrimSpace v) i)
  /\ parseInfo_line i ("IMEI:" ++ v) = inr (Info.set_IMEI (strings.TrimSpace v) i)
  /\ parseInfo_line i ("MEID:" ++ v) = inr (Info.set_MEID (strings.TrimSpace v) i)
  /\ parseInfo_line i ("FSN:" ++ v) = inr (Info.set_FSN (strings.TrimSpace v) i)
  /\ parseInfo_line i ("+GCAP:" ++ v)
     = inr (Info.set_GCAP (strings.Split_comma (strings.TrimSpace v)) i)
  /\ parseInfo_line i ("IMEI SV:" ++ v)
     = match strconv.Atoi (strings.TrimSpace v) with
       | inl c => inl (NumError "Atoi" (strings.TrimSpace v) c)
       | inr x => inr (Info.set_IMEISV x i)
       end.
Proof.
  repeat match goal with
         | |- parseInfo_line _ _ = inr _ /\ _ => split; [reflexivity|]
         end.
  unfold parseInfo_line, strings.SplitN_colon_2, newValueParser.
  cbn [String.append strings.cut Ascii.eqb Bool.eqb length Nat.eqb negb nth map
       String.eqb].
  unfold valueParser.Int. cbn [valueParser.err valueParser.ss nth].
  destruct (strconv.Atoi _); reflexivity.
Qed.

(** Both revisions of [parseInfo] run the same switch on a line with a
    colon. *)
Lemma info_line_form (l k v : string) :
  strings.cut ":" l = Some (k, v) ->
  forall j, parseInfo_line j l = info_switch k v j.
Proof.
  intros C j. rewrite <- Legacy_parseInfo_line.
  unfold Legacy.parseInfo_line, strings.SplitN_colon_2, info_switch.
  now rewrite C.
Qed.

Lemma info_switch_swap (k1 v1 k2 v2 : string) (i : Info.t) :
  k1 <> k2 ->
  match info_switch k1 v1 i with
  | inl e => inl e
  | inr i1 => info_switch k2 v2 i1
  end
  = match info_switch k2 v2 i with
    | inl e => inl e
    | inr i2 => info_switch k1 v1 i2
    end.
Proof.
  intros Hne. unfold info_switch. cbv zeta.
  repeat switch_case k1
    ltac:(fun E1 =>
            subst k1; cbn [String.eqb Ascii.eqb Bool.eqb];
            repeat switch_case k2
              ltac:(fun E2 =>
                      subst k2; try (exfalso; apply Hne; reflexivity);
                      cbn [String.eqb Ascii.eqb Bool.eqb];
                      try destruct (strconv.Atoi _); reflexivity);
            try destruct (strconv.Atoi _); reflexivity).
  repeat switch_case k2
    ltac:(fun E2 =>
            subst k2; cbn [String.eqb Ascii.eqb Bool.eqb];
            try destruct (strconv.Atoi _); reflexivity).
  reflexivity.
Qed.

(** Two lines with different keys, at most one of them in error, in either
    order. *)
Lemma parseInfo_line_swap (i : Info.t) (l1 l2 : string) :
  info_line_key l1 <> info_line_key l2 ->
  info_line_error l1 = None \/ info_line_error l2 = None ->
  match parseInfo_line i l1 with
  | inl e => inl e
  | inr i1 => parseInfo_line i1 l2
  end
  = match parseInfo_line i l2 with
    | inl e => inl e
    | inr i2 => parseInfo_line i2 l1
    end.
Proof.
  intros Hk He.
  pose proof (parseInfo_line_by_error i l1) as H1.
  pose proof (parseInfo_line_by_error i l2) as H2.
  unfold info_line_key in Hk.
  destruct (strings.cut ":" l1) as [[k1 v1]|] eqn:C1;
    destruct (strings.cut ":" l2) as [[k2 v2]|] eqn:C2.
  - assert (Hne : k1 <> k2) by congruence.
    pose proof (info_line_form l1 k1 v1 C1) as F1.
    pose proof (info_line_form l2 k2 v2 C2) as F2.
    pose proof (info_switch_swap k1 v1 k2 v2 i Hne) as S.
    rewrite (F1 i), (F2 i).
    destruct (info_switch k1 v1 i) as [e1|i1];
      destruct (info_switch k2 v2 i) as [e2|i2];
      rewrite ?F1, ?F2; exact S.
  - unfold info_line_error in He, H1, H2. rewrite C1 in He, H1. rewrite C2 in He, H2.
    destruct He as [He|He]; [|discriminate].
    rewrite He in H1. destruct H1 as [i1 H1]. rewrite H1, H2.
    pose proof (parseInfo_line_by_error i1 l2) as H3.
    unfold info_line_error in H3. rewrite C2 in H3. now rewrite H3.
  - unfold info_line_error in He, H1, H2. rewrite C1 in He, H1. rewrite C2 in He, H2.
    destruct He as [He|He]; [discriminate|].
    rewrite He in H2. destruct H2 as [i2 H2]. rewrite H1, H2.
    pose proof (parseInfo_line_by_error i2 l1) as H3.
    unfold info_line_error in H3. rewrite C1 in H3. now rewrite H3.
  - contradiction.
Qed.

(** X2.  The order of two neighbouring info lines with different keys does
    not matter, as long as at most one of the two is in error: the record,
    or the error, is the same. *)
Theorem info_lines_with_different_keys_commute (pre post : list string)
  (l1 l2 : string) :
  info_line_key l1 <> info_line_key l2 ->
  info_line_error l1 = None \/ info_line_error l2 = None ->
  parseInfo (pre ++ l1 :: l2 :: post) = parseInfo (pre ++ l2 :: l1 :: post).
Proof.
  intros Hk He. unfold parseInfo. rewrite !parseInfo_range_app.
  destruct (parseInfo_range Info.zero pre) as [e|i]; [reflexivity|].
  cbn [parseInfo_range].
  pose proof (parseInfo_line_swap i l1 l2 Hk He) as S.
  destruct (parseInfo_line i l1) as [e1|i1];
    destruct (parseInfo_line i l2) as [e2|i2];
    first [now rewrite S | now rewrite <- S].
Qed.

(** ** The cases of the switch, key by key *)

Lemma parse_switch_string_case (k : string)
  (set : string -> Status.t -> Status.t) (s : Status.t) (vp : valueParser.t) :
  In (k, set) string_cases ->
  Status.parse_switch s k vp = (set (valueParser.String vp) s, vp, None).
Proof.
  unfold string_cases. cbn [In]. intros H.
  repeat (destruct H as [H|H]; [injection H as <- <-; reflexivity|]).
  contradiction.
Qed.

Lemma parse_switch_int_case (k : string) (set : Z -> Status.t -> Status.t)
  (s : Status.t) (vp : valueParser.t) :
  In (k, set) int_cases ->
  Status.parse_switch s k vp
  = let (x, vp') := valueParser.Int vp in (set x s, vp', None).
Proof.
  unfold int_cases. cbn [In]. intros H.
  repeat (destruct H as [H|H]; [injection H as <- <-; reflexivity|]).
  contradiction.
Qed.

(** X15.  A text key with its values, among the fields of a line: the field
    of the key becomes the values joined by single spaces, in order,
    whatever the white space of the line between them, and splitting the
    field at white space gives the values back; no other field changes. *)
Theorem text_values_are_joined (s : Status.t) (k : string)
  (set : string -> Status.t -> Status.t) (kw : list string) (kt v : string)
  (vs : list string) :
  In (k, set) string_cases ->
  strings.Join (kw ++ [kt]) " " = k ->
  Forall (fun t => strings.HasSuffix_colon t = false) kw ->
  strings.HasSuffix_colon kt = true ->
  Forall (fun t => isField t = true) (v :: vs) ->
  Forall (fun t => strings.HasSuffix_colon t = false) (v :: vs) ->
  Status.parse s (kw ++ kt :: v :: vs)
  = (set (strings.Join (v :: vs) " ") s, None)
  /\ strings.Fields (strings.Join (v :: vs) " ") = v :: vs.
Proof.
  intros Hin Hk Hkw Hkt Hf Hvs. split; [|now apply Fields_Join].
  rewrite (parse_one_key s kw kt v vs Hkw Hkt (field_no_colon_trimmed _ Hf Hvs)).
  rewrite Hk, (parse_switch_string_case k set s _ Hin).
  unfold valueParser.String, valueParser.Err. cbn [valueParser.err valueParser.ss].
  now rewrite (map_TrimSpace_fields _ Hf).
Qed.

(** X16.  An integer key with its values, among the fields of a line.  When
    [Atoi] reads the first value, the field of the key becomes that integer
    and the values after it are ignored; when it does not, [Status.parse]
    returns the conversion error, which names the first value. *)
Theorem integer_keys_read_the_first_value (s : Status.t) (k : string)
  (set : Z -> Status.t -> Status.t) (kw : list string) (kt v : string)
  (vs : list string) :
  In (k, set) int_cases ->
  strings.Join (kw ++ [kt]) " " = k ->
  Forall (fun t => strings.HasSuffix_colon t = false) kw ->
  strings.HasSuffix_colon kt = true ->
  Forall (fun t => isField t = true) (v :: vs) ->
  Forall (fun t => strings.HasSuffix_colon t = false) (v :: vs) ->
  (forall x, strconv.Atoi v = inr x ->
             Status.parse s (kw ++ kt :: v :: vs) = (set x s, None))
  /\ (forall c, strconv.Atoi v = inl c ->
                snd (Status.parse s (kw ++ kt :: v :: vs))
                = Some (NumError "Atoi" v c)).
Proof.
  intros Hin Hk Hkw Hkt Hf Hvs.
  pose proof (parse_one_key s kw kt v vs Hkw Hkt
                (field_no_colon_trimmed _ Hf Hvs)) as Hp.
  rewrite Hk, (parse_switch_int_case k set s _ Hin) in Hp.
  rewrite (map_TrimSpace_fields _ Hf) in Hp.
  unfold valueParser.Int in Hp. cbn [valueParser.err valueParser.ss nth] in Hp.
  split.
  - intros x Hx. now rewrite Hx in Hp.
  - intros c Hc. rewrite Hc in Hp. now rewrite Hp.
Qed.

(** X14.  A value parser built from one string or more has no error; its
    [Int] reads the first string, trimmed, and no other: it returns the
    integer and leaves the parser as it is, or returns 0 and sets the
    conversion error that names the trimmed string. *)
Theorem Int_on_a_new_parser (t : string) (ts : list string) :
  exists vp,
    newValueParser (t :: ts) = inr vp /\ valueParser.Err vp = None
    /\ match strconv.Atoi (strings.TrimSpace t) with
       | inr x => valueParser.Int vp = (x, vp)
       | inl c =>
           fst (valueParser.Int vp) = 0%Z
           /\ valueParser.Err (snd (valueParser.Int vp))
              = Some (NumError "Atoi" (strings.TrimSpace t) c)
           /\ valueParser.ss (snd (valueParser.Int vp)) = valueParser.ss vp
       end.
Proof.
  eexists. split; [reflexivity|]. split; [reflexivity|].
  unfold valueParser.Int. cbn [valueParser.err valueParser.ss map nth].
  destruct (strconv.Atoi _); [|reflexivity]. now repeat split.
Qed.

End More.

(** ** The further properties on concrete responses *)

Example earlier_parseStatus_MC7455 :
  Earlier.parseStatus MC7455_status_full
  = Earlier.Done (inr (Earlier.Status.mk 71465000000000%Z 41%Z 0%Z))
  /\ @parseStatus decimal.model MC7455_status_full
     = inl (NumError "Atoi" "--" strconv.ErrSyntax).
Proof. split; reflexivity. Qed.

Lemma two_keys_split_on_a_line :
  @parseStatus_line decimal.model Status.zero
    "LTE band:      B12              LTE bw:      5 MHz"
  = match @Status.parse decimal.model Status.zero ["LTE"; "band:"; "B12"] with
    | (_, Some e) => inl e
    | (s1, None) =>
        match Status.parse s1 ["LTE"; "bw:"; "5"; "MHz"] with
        | (_, Some e) => inl e
        | (s2, None) => inr s2
        end
    end.
Proof.
  refine (@two_keys_split_after_one_value decimal.model Status.zero
            "LTE band:      B12              LTE bw:      5 MHz"
            ["LTE"] "band:" "B12" ["LTE"; "bw:"; "5"; "MHz"]
            eq_refl _ eq_refl eq_refl).
  repeat constructor.
Defined.

Lemma RSRP_goes_to_RxM_on_a_line :
  @parseStatus_line decimal.model Status.zero
    "PCC RxM RSSI:  -84              RSRP (dBm):  -113"
  = inr (Status.set_RSRPRXMdBm (-113)%Z
           (Status.set_state rxmLast
              (Status.set_PCCRXMRSSI (-84)%Z Status.zero))).
Proof.
  exact (proj1 (@RSRP_goes_to_the_last_RSSI decimal.model Status.zero
                  "PCC RxM RSSI:  -84              RSRP (dBm):  -113"
                  "-84" "-113" (-84)%Z (-113)%Z eq_refl eq_refl) eq_refl).
Defined.

Lemma current_time_of_the_tests :
  @parseStatus_line decimal.model Status.zero "Current Time:  71465"
  = inr (Status.set_CurrentTime 71465000000000%Z Status.zero).
Proof.
  refine (proj1 (proj2 (@current_time_is_exact_in_range decimal.model
                          Status.zero "Current Time:  71465" "71465" 71465%Z
                          eq_refl eq_refl)) _).
  lia.
Defined.

Lemma no_ambiguity_after_RxD :
  Status.state (Status.set_state rxdLast (@Status.zero decimal.model))
  <> statusState_0
  /\ parseStatus_range 1 (Status.set_state rxdLast (@Status.zero decimal.model))
       ["RSRP (dBm):  -111"; "RSRP (dBm):  x"]
     <> inl ErrAmbiguousRSRP.
Proof.
  assert (H : Status.state (Status.set_state rxdLast (@Status.zero decimal.model))
              <> statusState_0) by discriminate.
  split; [exact H|].
  exact (proj1 (proj2 (@no_ambiguity_once_state_is_set decimal.model _ H)
                  ["RSRP (dBm):  -111"; "RSRP (dBm):  x"] 0)).
Defined.

Lemma errors_by_kind_on_the_tests :
  kind_of (ErrUnexpectedStatusLine 0 "foo") = EmptyInput
  \/ kind_of (ErrUnexpectedStatusLine 0 "foo") = AmbiguousField
  \/ kind_of (ErrUnexpectedStatusLine 0 "foo") = ConversionError
  \/ kind_of (ErrUnexpectedStatusLine 0 "foo") = UnexpectedSegmentCount.
Proof.
  exact (proj1 (@errors_by_kind decimal.model) ["!GSTATUS:"; "foo"]
           (ErrUnexpectedStatusLine 0 "foo") eq_refl).
Defined.

Lemma slices_in_range_on_a_line :
  nth 0 (indices_from 0 ["Current"; "Time:"; "71465"; "Temperature:"; "41"]) 0
  + 2 <= length ["Current"; "Time:"; "71465"; "Temperature:"; "41"].
Proof.
  exact (proj1 (proj2 (indices_and_slices_in_range
                         ["Current"; "Time:"; "71465"; "Temperature:"; "41"]))
           eq_refl).
Defined.

Lemma MC7455_lines_are_well_formed :
  Forall (fun l =>
            (length (indices_from 0 (strings.Fields l)) = 1
             \/ length (indices_from 0 (strings.Fields l)) = 2)
            /\ ends_with_key (strings.Fields l) = false)
    (tl MC7455_status).
Proof.
  refine (@parsed_lines_are_well_formed decimal.model MC7455_status _ _).
  reflexivity.
Defined.

Lemma Temperature_without_value :
  @parseStatus_line decimal.model Status.zero "Temperature:" = inl ErrNoValues
  /\ Earlier.parseStatus_line Earlier.Status.zero "Temperature:" = Earlier.Panic.
Proof.
  refine (@key_without_value_in_both_revisions decimal.model "Temperature:" []
            "Temperature:" Status.zero Earlier.Status.zero eq_refl _ eq_refl).
  constructor.
Defined.

Lemma earlier_revision_on_MC7455 :
  Earlier.parseStatus MC7455_status
  = Earlier.Done (inr (Earlier.Status.mk 71465000000000%Z 41%Z 0%Z)).
Proof.
  exact (proj1 (@earlier_revision_agrees_on_success decimal.model)
           MC7455_status MC7455_record eq_refl).
Defined.

Lemma parseInfo_of_the_malformed_test :
  parseInfo ["Manufacturer: huawei"; "Manufacturer"; "Model: E173"]
  = inl (ErrMalformedInfoLine "Manufacturer").
Proof.
  refine (proj2 parseInfo_fails_on_the_first_bad_line
            ["Manufacturer: huawei"] "Manufacturer" ["Model: E173"] _ _ eq_refl).
  repeat constructor.
Defined.

Lemma info_lines_commute_on_the_tests :
  parseInfo ["Manufacturer: huawei"; "Model: E173"; "IMEI SV: x"; "IMEI: 1234567"]
  = parseInfo ["Manufacturer: huawei"; "IMEI SV: x"; "Model: E173"; "IMEI: 1234567"].
Proof.
  refine (info_lines_with_different_keys_commute ["Manufacturer: huawei"]
            ["IMEI: 1234567"] "Model: E173" "IMEI SV: x" _ _).
  - discriminate.
  - left. reflexivity.
Defined.

Lemma EMM_state_of_the_tests :
  @Status.parse decimal.model Status.zero
    ["EMM"; "state:"; "Registered"; "Normal"; "Service"]
  = (Status.set_EMMState "Registered Normal Service" Status.zero, None).
Proof.
  refine (proj1 (@text_values_are_joined decimal.model Status.zero "EMM state:"
                   Status.set_EMMState ["EMM"] "state:" "Registered"
                   ["Normal"; "Service"] _ eq_refl _ eq_refl _ _)).
  - do 5 right. left. reflexivity.
  - repeat constructor.
  - repeat constructor.
  - repeat constructor.
Defined.

Lemma Tx_Power_of_the_tests :
  snd (@Status.parse decimal.model Status.zero ["Tx"; "Power:"; "--"])
  = Some (NumError "Atoi" "--" strconv.ErrSyntax)
  /\ @Status.parse decimal.model Status.zero ["Reset"; "Counter:"; "8"; "times"]
     = (Status.set_ResetCounter 8%Z Status.zero, None).
Proof.
  split.
  - refine (proj2 (@integer_keys_read_the_first_value decimal.model Status.zero
                     "Tx Power:" Status.set_TransmitPower ["Tx"] "Power:" "--" []
                     _ eq_refl _ eq_refl _ _) strconv.ErrSyntax eq_refl).
    + do 4 right. left. reflexivity.
    + repeat constructor.
    + repeat constructor.
    + repeat constructor.
  - refine (proj1 (@integer_keys_read_the_first_value decimal.model Status.zero
                     "Reset Counter:" Status.set_ResetCounter ["Reset"]
                     "Counter:" "8" ["times"] _ eq_refl _ eq_refl _ _)
              8%Z eq_refl).
    + right. left. reflexivity.
    + repeat constructor.
    + repeat constructor.
    + repeat constructor.
Defined.
